(** * Distributor-quarter risk analytics: a verification development

    The analytics core of the inventory back end, embedded function by
    function: the risk classifier ([app/utils/thresholds.py]), the
    distributor-quarter build ([app/utils/distributor_quarter_transform.py]),
    the trend and comparison end points ([app/routers/risk.py]), the alert
    engine ([app/routers/alerts.py]) and the correlation engine
    ([app/routers/correlation.py]).

    Numbers are binary64 floats, as the data frames hold them: Rocq's
    primitive floats, so NaN, the infinities, signed zeros and overflow behave
    as they do in the program. *)

From Stdlib Require Import ZArith List String Ascii Bool Floats Lia.
From Stdlib Require Import Permutation Sorted DecimalString.
From Stdlib Require DecimalZ DecimalPos.
From Stdlib Require Uint63.
Import ListNotations.

Set Warnings "-inexact-float".

(* ================================================================== *)
(** * Part I: the program *)
(* ================================================================== *)

(** ** Classes of binary64 values, read on their specification *)

Module Binary64.
Definition SF_nan (s : spec_float) : bool :=
  match s with S754_nan => true | _ => false end.
Definition SF_real (s : spec_float) : bool :=
  match s with S754_zero _ | S754_finite _ _ _ => true | _ => false end.
Definition SF_nonzero (s : spec_float) : bool :=
  match s with S754_finite _ _ _ => true | _ => false end.

Definition b2z (b : bool) : Z := if b then 1%Z else 0%Z.

(** The state of the shift register after [n] right shifts of the
    mantissa [m]: twice [m] is made of the kept part with its round bit,
    and of what lies below, which the sticky bit records. *)
Definition shifted (m n : Z) (mrs : shr_record) : Prop :=
  (0 <= shr_m mrs)%Z
  /\ exists t : Z,
       (0 <= t < 2 ^ n)%Z
       /\ (2 * m = (2 * shr_m mrs + b2z (shr_r mrs)) * 2 ^ n + t)%Z
       /\ (shr_s mrs = true <-> t <> 0%Z).
End Binary64.

(** ** Numeric kernels used by the data-frame library *)

Module NumPy.
Local Open Scope float_scope.

(** [pd.isna] on a float cell. *)
Definition isna (x : float) : bool := is_nan x.

(** [np.isfinite]. *)
Definition isfinite (x : float) : bool := abs x <? infinity.

Definition two52 : float := 4503599627370496.

(** [np.rint]: round to the nearest integer, ties to even.  Below [2^52]
    adding and subtracting [2^52] does the rounding in the adder, as in
    libm; from [2^52] on every float is an integer. *)
Definition rint (x : float) : float :=
  if abs x <? two52 then
    let r := (abs x + two52) - two52 in
    if get_sign x then - r else r
  else x.

(** [ndarray.round(2)]: multiply by [10**2], [rint], divide by [10**2]. *)
Definition round2 (x : float) : float := rint (x * 100) / 100.

(** Elementwise arithmetic on aligned columns. *)
Fixpoint map2 {A B C : Type} (f : A -> B -> C) (xs : list A) (ys : list B)
  : list C :=
  match xs, ys with
  | x :: xs', y :: ys' => f x y :: map2 f xs' ys'
  | _, _ => []
  end.

(** [np.where(cond, 0, alt)]: a selection between a scalar and a column
    that has already been computed in full. *)
Definition where_ (cond : list bool) (scalar : float) (alt : list float)
  : list float :=
  map2 (fun (c : bool) (a : float) => if c then scalar else a) cond alt.

(** The group-sum kernel of [groupby(...).agg("sum")]: missing cells are
    skipped, an empty group sums to 0, and the running sum is compensated
    (a compensation that turns NaN is reset to 0). *)
Definition sum_step (acc : float * float) (val : float) : float * float :=
  let '(sumx, compensation) := acc in
  if is_nan val then acc
  else
    let y := val - compensation in
    let t := sumx + y in
    let c := (t - sumx) - y in
    (t, if is_nan c then 0 else c).

Definition group_sum (vals : list float) : float :=
  fst (fold_left sum_step vals (0, 0)).
End NumPy.

(** ** Orders and the stable sort behind [sort_values] and [groupby] *)

Module Order.
(** Lexicographic combination of two three-way comparisons. *)
Definition lex (c1 c2 : comparison) : comparison :=
  match c1 with Eq => c2 | _ => c1 end.

Definition le_of (c : comparison) : bool :=
  match c with Gt => false | _ => true end.

(** The comparison of a pair, first component first. *)
Definition pair_cmp {A B : Type} (ca : A -> A -> comparison)
    (cb : B -> B -> comparison) (x y : A * B) : comparison :=
  lex (ca (fst x) (fst y)) (cb (snd x) (snd y)).

(** A three-way comparison that decides a strict total order. *)
Class StrictCmp {A : Type} (cmp : A -> A -> comparison) : Prop := {
  cmp_eq : forall x y, cmp x y = Eq -> x = y;
  cmp_refl : forall x, cmp x x = Eq;
  cmp_antisym : forall x y, cmp y x = CompOpp (cmp x y);
  cmp_lt_trans : forall x y z, cmp x y = Lt -> cmp y z = Lt -> cmp x z = Lt
}.

(** Ascending along a key. *)
Definition ascending {A K : Type} (kcmp : K -> K -> comparison)
    (key : A -> K) (l : list A) : Prop :=
  StronglySorted (fun a b => le_of (kcmp (key a) (key b)) = true) l.

Section Sorting.
Context {A : Type}.
Variable cmp : A -> A -> comparison.

(** Insertion after every element that is not greater: equal keys keep
    their input order. *)
Fixpoint insert_last (x : A) (l : list A) : list A :=
  match l with
  | [] => [x]
  | y :: l' =>
      if le_of (cmp y x) then y :: insert_last x l' else x :: y :: l'
  end.

Definition stable_sort (l : list A) : list A :=
  fold_left (fun acc x => insert_last x acc) l [].

(** Sorted list of the distinct elements (the group keys of a
    [groupby] with [sort=True]). *)
Fixpoint insert_unique (x : A) (l : list A) : list A :=
  match l with
  | [] => [x]
  | y :: l' =>
      match cmp x y with
      | Lt => x :: y :: l'
      | Eq => y :: l'
      | Gt => y :: insert_unique x l'
      end
  end.

Definition sorted_unique (l : list A) : list A :=
  fold_left (fun acc x => insert_unique x acc) l [].
End Sorting.
End Order.

(** ** The few built-ins of the language the end points call *)

Module Py.
Local Open Scope string_scope.

(** [str(n)] for an integer. *)
Definition str (n : Z) : string := NilZero.string_of_int (Z.to_int n).

(** White space as [str.split()] sees it, on the ASCII range. *)
Definition is_space (c : ascii) : bool :=
  let n := nat_of_ascii c in
  ((9 <=? n) && (n <=? 13) || (28 <=? n) && (n <=? 32))%nat.

(** [s.split()]: the maximal runs of non-space characters.  [cur] is the
    run being read, in reverse. *)
Fixpoint split_aux (cur : list ascii) (s : string) : list string :=
  let flush (rest : list string) :=
    match cur with
    | [] => rest
    | _ => string_of_list_ascii (rev cur) :: rest
    end in
  match s with
  | EmptyString => flush []
  | String c s' =>
      if is_space c then flush (split_aux [] s')
      else split_aux (c :: cur) s'
  end.

Definition split (s : string) : list string := split_aux [] s.

(** [s.replace(old, "")]: every occurrence of [old], scanning from the
    left, is dropped.  [skip] counts the characters of a match still to be
    passed over. *)
Fixpoint remove_aux (old : string) (skip : nat) (s : string) : string :=
  match s with
  | EmptyString => EmptyString
  | String c s' =>
      match skip with
      | S k => remove_aux old k s'
      | O =>
          if prefix old s then remove_aux old (String.length old - 1) s'
          else String c (remove_aux old 0 s')
      end
  end.

Definition remove (s old : string) : string :=
  if String.eqb old "" then s else remove_aux old 0 s.

Definition digit_of (c : ascii) : option Z :=
  let n := nat_of_ascii c in
  if ((48 <=? n) && (n <=? 57))%nat then Some (Z.of_nat (n - 48)) else None.

(** The digits of an integer literal: decimal digits, a single underscore
    allowed between two digits.  [acc] is [None] until the first digit;
    [us] tells that the previous character was an underscore. *)
Fixpoint digits (acc : option Z) (us : bool) (s : string) : option Z :=
  match s with
  | EmptyString => if us then None else acc
  | String c s' =>
      match digit_of c, acc with
      | Some d, Some n => digits (Some (10 * n + d)%Z) false s'
      | Some d, None => digits (Some d) false s'
      | None, Some n =>
          if Ascii.eqb c "_" && negb us then digits acc true s' else None
      | None, None => None
      end
  end.

Fixpoint lstrip (s : string) : string :=
  match s with
  | String c s' => if is_space c then lstrip s' else s
  | EmptyString => EmptyString
  end.

Definition rev_string (s : string) : string :=
  string_of_list_ascii (rev (list_ascii_of_string s)).

(** [s.strip()]. *)
Definition strip (s : string) : string :=
  rev_string (lstrip (rev_string (lstrip s))).

(** [int(s)]: surrounding white space is dropped, then an optional sign
    and the digits; [None] stands for [ValueError].  (Digits outside ASCII
    and the interpreter's cap on the length of the text are left out.) *)
Definition int (s : string) : option Z :=
  match strip s with
  | String "+" s' => digits None false s'
  | String "-" s' => option_map Z.opp (digits None false s')
  | s' => digits None false s'
  end.

(** [s.upper()] on the ASCII range. *)
Definition upper_ascii (c : ascii) : ascii :=
  let n := nat_of_ascii c in
  if ((97 <=? n) && (n <=? 122))%nat then ascii_of_nat (n - 32) else c.

Fixpoint upper (s : string) : string :=
  match s with
  | EmptyString => EmptyString
  | String c s' => String (upper_ascii c) (upper s')
  end.

(** What a call of an end point comes to. *)
Inductive Outcome (A : Type) :=
| Returned (a : A)
| HTTPException (status_code : Z) (detail : string)
| Raised (exc : string).
Arguments Returned {A} a.
Arguments HTTPException {A} status_code detail.
Arguments Raised {A} exc.
End Py.

(** ** [app/utils/thresholds.py] *)

Module Thresholds.
Local Open Scope float_scope.
Import NumPy.

Inductive RiskStatus :=
| HighRisk | Risk | Good | VeryGood | NotClassified.

(** The text the program stores in the [Status] column. *)
Definition status_str (s : RiskStatus) : string :=
  match s with
  | HighRisk => "High Risk"
  | Risk => "Risk"
  | Good => "Good"
  | VeryGood => "Very Good"
  | NotClassified => "Not Classified"
  end.

Definition arrow_up : string := "⬆️ 🔴".
Definition arrow_down : string := "⬇️ 🟢".
Definition arrow_flat : string := "➖".

Definition waste_trend_arrow (delta : float) : string :=
  if isna delta then ""
  else if 0 <? delta then arrow_up
  else if delta <? 0 then arrow_down
  else arrow_flat.

Definition distributor_status (pct_from_limit pct_change : float)
  : RiskStatus :=
  if negb (isna pct_from_limit) then
    if 120 <=? pct_from_limit then HighRisk
    else if 100 <=? pct_from_limit then Risk
    else if pct_from_limit <? 80 then VeryGood
    else Good
  else if negb (isna pct_change) then
    if 10 <? pct_change then HighRisk
    else if 0 <? pct_change then Risk
    else if pct_change <? -10 then VeryGood
    else Good
  else NotClassified.
End Thresholds.

(** ** [app/utils/distributor_quarter_transform.py] *)

Module DistributorQuarter.
Local Open Scope float_scope.
Import NumPy Order Thresholds.

(** One row of the uploaded data set after the time columns were added.
    A key cell may be missing; the four measures are float64 cells, a
    missing one being NaN.  The record has every column the build requires,
    so its missing-column check cannot fire on this type. *)
Record RawRecord := mkRaw {
  Distributor_ID : option Z;
  US_States : option string;
  year_only : option Z;
  quarter : option string;
  Deliveries_Quantity : float;
  Returns_Quantity : float;
  Waste_Allowance_Quantity : float;
  Waste_Quantity_Sum : float
}.

(** Group key: distributor, state, year, quarter. *)
Definition Key : Type := Z * string * Z * string.

Definition key_of (r : RawRecord) : option Key :=
  match Distributor_ID r, US_States r, year_only r, quarter r with
  | Some d, Some s, Some y, Some q => Some (d, s, y, q)
  | _, _, _, _ => None
  end.

Definition key_cmp (k1 k2 : Key) : comparison :=
  let '(d1, s1, y1, q1) := k1 in
  let '(d2, s2, y2, q2) := k2 in
  lex (Z.compare d1 d2)
    (lex (String.compare s1 s2)
       (lex (Z.compare y1 y2) (String.compare q1 q2))).

Definition key_eqb (k1 k2 : Key) : bool :=
  match key_cmp k1 k2 with Eq => true | _ => false end.

(** A row of the grouped frame, after the sums were rounded. *)
Record AggRow := mkAgg {
  agg_Distributor_ID : Z;
  agg_US_States : string;
  agg_year_only : Z;
  agg_quarter : string;
  total_deliveries : float;
  total_returns : float;
  total_waste_allowance : float;
  total_waste : float
}.

(** A row of the finished distributor-quarter table. *)
Record DQRow := mkDQ {
  agg : AggRow;
  pct_from_limit : float;
  pct_change_Wastes_from_last_quarter : float;
  Status : RiskStatus
}.

Definition has_key (k : Key) (r : RawRecord) : bool :=
  match key_of r with Some k' => key_eqb k k' | None => false end.

Fixpoint keys_of (df : list RawRecord) : list Key :=
  match df with
  | [] => []
  | r :: df' =>
      match key_of r with
      | Some k => k :: keys_of df'
      | None => keys_of df'
      end
  end.

(** [groupby([...], as_index=False).agg(sum ...)] followed by
    [.round(2)] on the four totals: one row per observed key, keys
    ascending, rows with a missing key cell dropped. *)
Definition aggregate (df : list RawRecord) : list AggRow :=
  map (fun k : Key =>
         let '(d, s, y, q) := k in
         let members := filter (has_key k) df in
         mkAgg d s y q
           (round2 (group_sum (map Deliveries_Quantity members)))
           (round2 (group_sum (map Returns_Quantity members)))
           (round2 (group_sum (map Waste_Allowance_Quantity members)))
           (round2 (group_sum (map Waste_Quantity_Sum members))))
      (sorted_unique key_cmp (keys_of df)).

(** The third argument of [np.where]: an ordinary column expression,
    evaluated on every row before the selection takes place. *)
Definition over_limit_ratio (limit spoil : list float) : list float :=
  map (fun q : float => q * 100)
      (map2 (fun n d : float => n / d)
            (map2 (fun s l : float => s - l) spoil limit) limit).

(** The numerator and denominator of every division that
    [over_limit_ratio] carries out, row by row: the column is the quotient
    of each pair, times 100 ([over_limit_ratio_operands] below). *)
Definition division_operands (limit spoil : list float)
  : list (float * float) :=
  combine (map2 (fun s l : float => s - l) spoil limit) limit.

Definition pct_from_limit_column (limit spoil : list float) : list float :=
  map round2
      (where_ (map2 (fun l s : float => (l =? 0) || (s =? 0)) limit spoil)
              0
              (over_limit_ratio limit spoil)).

(** [sort_values(["Distributor ID", "year_only", "quarter"])]. *)
Definition time_cmp (a b : AggRow) : comparison :=
  lex (Z.compare (agg_Distributor_ID a) (agg_Distributor_ID b))
    (lex (Z.compare (agg_year_only a) (agg_year_only b))
       (String.compare (agg_quarter a) (agg_quarter b))).

Definition time_key (r : AggRow) : Z * (Z * string) :=
  (agg_Distributor_ID r, (agg_year_only r, agg_quarter r)).

Definition row_cmp (a b : AggRow * float) : comparison :=
  time_cmp (fst a) (fst b).

Definition last_waste (seen : list (Z * float)) (d : Z) : option float :=
  match find (fun e : Z * float => Z.eqb (fst e) d) seen with
  | Some e => Some (snd e)
  | None => None
  end.

(** [groupby("Distributor ID")["total_waste"].pct_change()]: every row is
    divided by the previous row of its own distributor, minus one; the
    first row of a distributor has no previous row.  [seen] holds the last
    total met for each distributor so far.  (No total is filled in from an
    earlier row: [fill_method=None], the present default of the library; a
    release that still forward-fills differs on a NaN total only.) *)
Fixpoint pct_change (seen : list (Z * float)) (rows : list (AggRow * float))
  : list float :=
  match rows with
  | [] => []
  | r :: rows' =>
      let d := agg_Distributor_ID (fst r) in
      let w := total_waste (fst r) in
      match last_waste seen d with
      | Some prev => w / prev - 1
      | None => nan
      end :: pct_change ((d, w) :: seen) rows'
  end.

(** The last two columns: the change in percent, rounded, and the status
    of every row. *)
Definition with_change_and_status (seen : list (Z * float))
    (sorted : list (AggRow * float)) : list DQRow :=
  map2 (fun (r : AggRow * float) (c : float) =>
          mkDQ (fst r) (snd r) c (distributor_status (snd r) c))
       sorted
       (map (fun c : float => round2 (c * 100)) (pct_change seen sorted)).

Definition build_distributor_quarter_df (eda_df : list RawRecord)
  : list DQRow :=
  let idp_level_B := aggregate eda_df in
  let limit := map total_waste_allowance idp_level_B in
  let spoil := map total_waste idp_level_B in
  let with_pct := combine idp_level_B (pct_from_limit_column limit spoil) in
  let sorted := stable_sort row_cmp with_pct in
  with_change_and_status [] sorted.
End DistributorQuarter.

(** ** [app/routers/risk.py] *)

Module RiskRouter.
Local Open Scope string_scope.
Local Open Scope float_scope.
Import NumPy Order Thresholds DistributorQuarter Py.

Definition dq_id (r : DQRow) : Z := agg_Distributor_ID (agg r).
Definition dq_state (r : DQRow) : string := agg_US_States (agg r).
Definition dq_year (r : DQRow) : Z := agg_year_only (agg r).
Definition dq_quarter (r : DQRow) : string := agg_quarter (agg r).
Definition dq_waste (r : DQRow) : float := total_waste (agg r).

(** *** Distributor trend *)

Record TrendPoint := mkTrendPoint {
  tp_quarter : string;
  tp_waste : float;
  tp_pct_change : option float;
  tp_status : string
}.

Definition quarter_cmp (a b : DQRow) : comparison :=
  lex (Z.compare (dq_year a) (dq_year b))
      (String.compare (dq_quarter a) (dq_quarter b)).

Definition trend_point (row : DQRow) : TrendPoint :=
  mkTrendPoint
    (str (dq_year row) ++ " " ++ dq_quarter row)
    (round2 (dq_waste row))
    (if isna (pct_change_Wastes_from_last_quarter row) then None
     else Some (round2 (pct_change_Wastes_from_last_quarter row)))
    (status_str (Status row)).

Definition distributor_trend (dq : list DQRow) (distributor_id : string)
  : Outcome (string * list TrendPoint) :=
  let df := filter (fun r => String.eqb (str (dq_id r)) distributor_id) dq in
  match df with
  | [] => HTTPException 404 "No data found for selected distributor"
  | _ =>
      let df := stable_sort quarter_cmp df in
      Returned (distributor_id, map trend_point df)
  end.

(** [get_dq]: the table kept in the application state by the upload, or
    HTTP 400 before any upload built it. *)
Definition get_dq (data_dist_quarter : option (list DQRow))
  : Outcome (list DQRow) :=
  match data_dist_quarter with
  | Some dq => Returned dq
  | None => HTTPException 400 "Distributor-quarter data not built"
  end.

(** The end point as it is requested: [get_dq] first, then the body. *)
Definition distributor_trend_request
    (data_dist_quarter : option (list DQRow)) (distributor_id : string)
  : Outcome (string * list TrendPoint) :=
  match get_dq data_dist_quarter with
  | Returned dq => distributor_trend dq distributor_id
  | HTTPException status_code detail => HTTPException status_code detail
  | Raised exc => Raised exc
  end.

(** *** Quarter comparison *)

Record Entry := mkEntry {
  distributor_id : Z;
  total_waste_q1 : float;
  total_waste_q2 : float;
  delta : float;
  trend : string;
  status_change : string
}.

(** The response: the short form [{"comparison": []}] has no header. *)
Record Comparison := mkComparison {
  header : option (string * string * string);
  comparison : list Entry
}.

Definition to_arrow : string := " → ".

(** [parse_quarter]: [None] stands for the [ValueError] of the unpacking
    or of [int]. *)
Definition parse_quarter (q_label : string) : option (Z * string) :=
  match split q_label with
  | [y; q] =>
      let q := remove q y in
      match int y with
      | Some n => Some (n, q)
      | None => None
      end
  | _ => None
  end.

Definition in_quarter (y : Z) (q : string) (r : DQRow) : bool :=
  Z.eqb (dq_year r) y && String.eqb (dq_quarter r) q.

Definition selected (distributors : list string) (r : DQRow) : bool :=
  existsb (String.eqb (str (dq_id r))) distributors.

(** [df_q1.merge(df_q2, on="Distributor ID", how="outer")]: the union of
    the keys in ascending order; for a key on both sides every left row
    paired with every right row, for a key on one side the rows of that
    side with the other side missing. *)
Definition merge_outer (left right : list DQRow)
  : list (Z * option DQRow * option DQRow) :=
  flat_map
    (fun k : Z =>
       let l := filter (fun r => Z.eqb (dq_id r) k) left in
       let r := filter (fun r => Z.eqb (dq_id r) k) right in
       match l, r with
       | [], _ => map (fun b => (k, None, Some b)) r
       | _, [] => map (fun a => (k, Some a, None)) l
       | _, _ => flat_map (fun a => map (fun b => (k, Some a, Some b)) r) l
       end)
    (sorted_unique Z.compare (map dq_id left ++ map dq_id right)).

Definition fillna0 (x : float) : float := if isna x then 0 else x.

Definition waste_of (side : option DQRow) : float :=
  match side with Some r => dq_waste r | None => nan end.

Definition status_of (side : option DQRow) : string :=
  match side with Some r => status_str (Status r) | None => "Unknown" end.

Definition merged_entry (m : Z * option DQRow * option DQRow) : Entry :=
  let '(k, a, b) := m in
  let d := fillna0 (waste_of b) - fillna0 (waste_of a) in
  mkEntry k
    (if negb (isna (waste_of a)) then round2 (waste_of a) else 0)
    (if negb (isna (waste_of b)) then round2 (waste_of b) else 0)
    (round2 d)
    (waste_trend_arrow d)
    (status_of a ++ to_arrow ++ status_of b).

(** The list [distributors]: the second one is added when it is given and
    not empty. *)
Definition chosen (distributor_1 : string) (distributor_2 : option string)
  : list string :=
  match distributor_2 with
  | Some d2 => if String.eqb d2 "" then [distributor_1]
               else [distributor_1; d2]
  | None => [distributor_1]
  end.

(** The rows of the state for one quarter and the chosen distributors. *)
Definition quarter_rows (dq : list DQRow) (state : string) (y : Z)
    (q : string) (distributors : list string) : list DQRow :=
  filter (selected distributors)
    (filter (in_quarter y q)
       (filter (fun r => String.eqb (dq_state r) state) dq)).

Definition same_quarter_entry (base : DQRow) : Entry :=
  mkEntry (dq_id base)
    (round2 (dq_waste base))
    (round2 (dq_waste base))
    0
    arrow_flat
    (status_str (Status base) ++ to_arrow ++ status_str (Status base)).

Definition quarter_comparison (dq : list DQRow)
    (state quarter_a quarter_b distributor_1 : string)
    (distributor_2 : option string) : Outcome Comparison :=
  match filter (fun r => String.eqb (dq_state r) state) dq with
  | [] => HTTPException 404 "No data for selected state"
  | _ =>
      match parse_quarter quarter_a with
      | None => Raised "ValueError"
      | Some (y1, q1) =>
      match parse_quarter quarter_b with
      | None => Raised "ValueError"
      | Some (y2, q2) =>
          let distributors := chosen distributor_1 distributor_2 in
          let df_q1 := quarter_rows dq state y1 q1 distributors in
          let df_q2 := quarter_rows dq state y2 q2 distributors in
          if String.eqb quarter_a quarter_b then
            match df_q1 with
            | [] => Returned (mkComparison None [])
            | base :: _ =>
                Returned
                  (mkComparison (Some (state, quarter_a, quarter_b))
                     [same_quarter_entry base])
            end
          else
            match merge_outer df_q1 df_q2 with
            | [] => Returned (mkComparison None [])
            | merged =>
                Returned
                  (mkComparison (Some (state, quarter_a, quarter_b))
                     (map merged_entry merged))
            end
      end
      end
  end.
End RiskRouter.

(** ** [app/routers/alerts.py] *)

Module AlertsRouter.
Local Open Scope string_scope.
Local Open Scope float_scope.
Import NumPy Order DistributorQuarter Py.

Inductive Severity := HIGH | MEDIUM | LOW.

Definition severity_str (s : Severity) : string :=
  match s with HIGH => "HIGH" | MEDIUM => "MEDIUM" | LOW => "LOW" end.

Definition severity_eqb (a b : Severity) : bool :=
  match a, b with
  | HIGH, HIGH | MEDIUM, MEDIUM | LOW, LOW => true
  | _, _ => false
  end.

(** The [priority] dictionary. *)
Definition priority (s : Severity) : Z :=
  match s with HIGH => 3 | MEDIUM => 2 | LOW => 1 end.

(** The description of an alert, with the number it reports; the
    formatting of that number to one decimal is not carried. *)
Inductive Description :=
| ExceededBy (pct : float)
| ReturnsAt (pct : float)
| WithinLimits.

Record Alert := mkAlert {
  severity : Severity;
  title : string;
  description : Description;
  distributor_id : Z;
  state : string;
  category : string;
  time_ref : string
}.

Definition GroupKey : Type := Z * string.

Definition group_key (r : RawRecord) : option GroupKey :=
  match Distributor_ID r, US_States r with
  | Some d, Some s => Some (d, s)
  | _, _ => None
  end.

Definition group_cmp (k1 k2 : GroupKey) : comparison :=
  lex (Z.compare (fst k1) (fst k2)) (String.compare (snd k1) (snd k2)).

Definition in_group (k : GroupKey) (r : RawRecord) : bool :=
  match group_key r with
  | Some k' => match group_cmp k k' with Eq => true | _ => false end
  | None => false
  end.

Fixpoint group_keys (df : list RawRecord) : list GroupKey :=
  match df with
  | [] => []
  | r :: df' =>
      match group_key r with
      | Some k => k :: group_keys df'
      | None => group_keys df'
      end
  end.

(** [df.groupby(["Distributor ID", "US States"]).agg(a=(x, "sum"),
    b=(y, "sum"))]: key, then the two sums. *)
Definition grouped (x y : RawRecord -> float) (df : list RawRecord)
  : list (GroupKey * float * float) :=
  map (fun k : GroupKey =>
         let members := filter (in_group k) df in
         (k, group_sum (map x members), group_sum (map y members)))
      (sorted_unique group_cmp (group_keys df)).

(** Rows with a positive denominator, with the ratio attached. *)
Definition with_ratio (g : list (GroupKey * float * float))
  : list (GroupKey * float) :=
  map (fun r : GroupKey * float * float =>
         let '(k, num, den) := r in (k, num / den))
      (filter (fun r : GroupKey * float * float => 0 <? snd r) g).

Definition high_alert (r : GroupKey * float) : Alert :=
  mkAlert HIGH "Waste Threshold Exceeded" (ExceededBy ((snd r - 1) * 100))
          (fst (fst r)) (snd (fst r)) "Stale Inventory" "Recent".

Definition medium_alert (r : GroupKey * float) : Alert :=
  mkAlert MEDIUM "High Return Rate" (ReturnsAt (snd r * 100))
          (fst (fst r)) (snd (fst r)) "Returns" "Recent".

Definition low_alert (r : GroupKey * float) : Alert :=
  mkAlert LOW "Good Inventory Control" WithinLimits
          (fst (fst r)) (snd (fst r)) "Positive Signal" "Recent".

(** The list [alerts] as the three loops fill it. *)
Definition raise_alerts (df : list RawRecord) : list Alert :=
  let over_allow :=
    with_ratio (grouped Waste_Quantity_Sum Waste_Allowance_Quantity df) in
  let returns :=
    with_ratio (grouped Returns_Quantity Deliveries_Quantity df) in
  map high_alert (filter (fun r => 1 <? snd r) over_allow)
  ++ map medium_alert (filter (fun r => 0.08 <? snd r) returns)
  ++ map low_alert (filter (fun r => snd r <? 0.6) over_allow).

(** [nunique]: the number of distinct values. *)
Fixpoint nunique (l : list Z) : nat :=
  match l with
  | [] => 0
  | x :: l' => if existsb (Z.eqb x) l' then nunique l' else S (nunique l')
  end.

Definition bucket (s : Severity) (alerts : list Alert) : list Alert :=
  filter (fun a => severity_eqb (severity a) s) alerts.

Record Summary := mkSummary { high : nat; medium : nat; low : nat }.

Definition summarize (alerts : list Alert) : Summary :=
  mkSummary (nunique (map distributor_id (bucket HIGH alerts)))
            (nunique (map distributor_id (bucket MEDIUM alerts)))
            (nunique (map distributor_id (bucket LOW alerts))).

(** [sort_values("priority", ascending=False)]: descending by priority.
    The default sort kind of the library leaves the order among equal
    priorities open; the stable order is taken here, and the facts on
    deduplication are proved for every order. *)
Definition priority_cmp (a b : Alert) : comparison :=
  Z.compare (priority (severity b)) (priority (severity a)).

(** Not below in priority: the order that sort establishes. *)
Definition outranks (a b : Alert) : Prop :=
  (priority (severity b) <= priority (severity a))%Z.

(** [drop_duplicates(subset=["distributor_id"])]: the first row of every
    distributor is kept. *)
Fixpoint drop_duplicates (seen : list Z) (l : list Alert) : list Alert :=
  match l with
  | [] => []
  | a :: l' =>
      if existsb (Z.eqb (distributor_id a)) seen
      then drop_duplicates seen l'
      else a :: drop_duplicates (distributor_id a :: seen) l'
  end.

Definition deduplicate (alerts : list Alert) : list Alert :=
  drop_duplicates [] (stable_sort priority_cmp alerts).

(** The count a summary holds for a severity. *)
Definition count_of (s : Severity) (counts : Summary) : nat :=
  match s with
  | HIGH => high counts
  | MEDIUM => medium counts
  | LOW => low counts
  end.

Record AlertsResponse := mkResponse {
  summary : Summary;
  alerts : list Alert
}.

Definition get_alerts (df : list RawRecord)
    (severity_arg distributor_arg state_arg : string)
  : Outcome AlertsResponse :=
  let severity_arg := upper severity_arg in
  match raise_alerts df with
  | [] => Raised "KeyError"
  | all_alerts =>
      let summary := summarize all_alerts in
      let alerts_df := deduplicate all_alerts in
      let alerts_df :=
        if negb (String.eqb severity_arg "ALL")
        then filter (fun a =>
                       String.eqb (severity_str (severity a)) severity_arg)
                    alerts_df
        else alerts_df in
      let by_state (l : list Alert) :=
        if negb (String.eqb state_arg "ALL")
        then filter (fun a => String.eqb (state a) state_arg) l
        else l in
      if negb (String.eqb distributor_arg "ALL") then
        match int distributor_arg with
        | None => Raised "ValueError"
        | Some d =>
            Returned
              (mkResponse summary
                 (by_state
                    (filter (fun a => Z.eqb (distributor_id a) d)
                            alerts_df)))
        end
      else Returned (mkResponse summary (by_state alerts_df))
  end.
End AlertsRouter.

(** ** [app/routers/correlation.py] *)

Module CorrelationRouter.
Local Open Scope string_scope.
Local Open Scope float_scope.
Import NumPy Py.

Inductive dtype := int64 | float64 | other.

(** A column of the uploaded frame; the cells of a numeric column as the
    floats [corr] reads. *)
Record Column := mkColumn {
  label : string;
  kind : dtype;
  cells : list float
}.

Definition is_numeric (c : Column) : bool :=
  match kind c with int64 | float64 => true | other => false end.

(** The running moments of one pair of columns. *)
Record Moments := mkMoments {
  nobs : Z;
  meanx : float;
  meany : float;
  ssqdm_x : float;
  ssqdm_y : float;
  covxy : float
}.

Definition float_of_Z (n : Z) : float := of_uint63 (Uint63.of_Z n).

(** One row of the pairwise pass of [DataFrame.corr]: a row enters when
    both cells are finite. *)
Definition moments_step (m : Moments) (v : float * float) : Moments :=
  let '(vx, vy) := v in
  if isfinite vx && isfinite vy then
    let nobs' := (nobs m + 1)%Z in
    let dx := vx - meanx m in
    let dy := vy - meany m in
    let meanx' := meanx m + 1 / float_of_Z nobs' * dx in
    let meany' := meany m + 1 / float_of_Z nobs' * dy in
    mkMoments nobs' meanx' meany'
      (ssqdm_x m + (vx - meanx') * dx)
      (ssqdm_y m + (vy - meany') * dy)
      (covxy m + (vx - meanx') * dy)
  else m.

Definition moments (xs ys : list float) : Moments :=
  fold_left moments_step (combine xs ys) (mkMoments 0 0 0 0 0 0).

(** Pearson's coefficient of a pair, with [min_periods = 1]; a quotient
    that rounding pushed outside [-1, 1] is clipped. *)
Definition pearson (xs ys : list float) : float :=
  let m := moments xs ys in
  if (nobs m <? 1)%Z then nan
  else
    let divisor := PrimFloat.sqrt (ssqdm_x m * ssqdm_y m) in
    if negb (divisor =? 0) then
      let val := covxy m / divisor in
      if 1 <? val then 1 else if val <? -1 then -1 else val
    else nan.

(** The coefficient of a column with itself, from its sum of squared
    deviations [s]. *)
Definition self_coefficient (s : float) : float :=
  let divisor := PrimFloat.sqrt (s * s) in
  if negb (divisor =? 0) then
    let val := s / divisor in
    if 1 <? val then 1 else if val <? -1 then -1 else val
  else nan.

(** [numeric_df.corr()]: the pass computes the entries with [yi <= xi]
    and stores each one at [(xi, yi)] and at [(yi, xi)]. *)
Definition corr_entry (cols : list Column) (i j : nat) : float :=
  let xi := Nat.max i j in
  let yi := Nat.min i j in
  pearson (cells (nth xi cols (mkColumn "" other [])))
          (cells (nth yi cols (mkColumn "" other []))).

Definition corr (cols : list Column) : list (list float) :=
  map (fun i => map (fun j => round2 (corr_entry cols i j))
                    (seq 0 (List.length cols)))
      (seq 0 (List.length cols)).

(** [matrix[i][j]]. *)
Definition cell (m : list (list float)) (i j : nat) : float :=
  nth j (nth i m []) nan.

Record Relationship := mkRel {
  f1 : string;
  f2 : string;
  value : float;
  abs_value : float
}.

(** The double loop over the labels; [corr.loc[i, j]] read by position,
    the labels of a frame being distinct. *)
Definition relationships (features : list string)
    (matrix : list (list float)) : list Relationship :=
  flat_map
    (fun row : string * list float =>
       flat_map
         (fun cell : string * float =>
            if negb (String.eqb (fst row) (fst cell))
            then [mkRel (fst row) (fst cell) (snd cell) (abs (snd cell))]
            else [])
         (combine features (snd row)))
    (combine features matrix).

(** The ordered pair of labels a relationship is about. *)
Definition labels (r : Relationship) : string * string := (f1 r, f2 r).

Definition distinct_labels (p : string * string) : bool :=
  negb (String.eqb (fst p) (snd p)).

Definition is_strong (r : Relationship) : bool := 0.75 <=? abs_value r.
Definition is_moderate (r : Relationship) : bool :=
  (0.4 <=? abs_value r) && (abs_value r <? 0.75).
Definition is_inverse (r : Relationship) : bool := value r <=? -0.4.

Definition head5 {A : Type} (l : list A) : list A := firstn 5 l.

Record Analysis := mkAnalysis {
  features : list string;
  matrix : list (list float);
  strong : list Relationship;
  moderate : list Relationship;
  inverse : list Relationship
}.

(** The response without its fixed recommendation texts. *)
Definition correlation_analysis (df : list Column) : Outcome Analysis :=
  let numeric_df := filter is_numeric df in
  if (List.length numeric_df <? 2)%nat then
    HTTPException 400 "Not enough numeric features"
  else
    let m := corr numeric_df in
    let names := map label numeric_df in
    match relationships names m with
    | [] => Raised "KeyError"
    | rel_df =>
        Returned
          (mkAnalysis names m
             (head5 (filter is_strong rel_df))
             (head5 (filter is_moderate rel_df))
             (head5 (filter is_inverse rel_df)))
    end.
End CorrelationRouter.

(** ** Vocabulary of the theorems

    Readings of single branches and columns of the program, and, in quotes,
    properties in the words of the specification. *)

Module Stated.
Local Open Scope float_scope.
Import NumPy Thresholds DistributorQuarter.

(** The limit-based tier and the trend-based tier of [distributor_status],
    each on its own. *)
Definition limit_tier (pct_from_limit : float) : RiskStatus :=
  if 120 <=? pct_from_limit then HighRisk
  else if 100 <=? pct_from_limit then Risk
  else if pct_from_limit <? 80 then VeryGood
  else Good.

Definition trend_tier (pct_change : float) : RiskStatus :=
  if 10 <? pct_change then HighRisk
  else if 0 <? pct_change then Risk
  else if pct_change <? -10 then VeryGood
  else Good.

(** The value of [pct_from_limit] for an allowance and a waste total. *)
Definition pct_rule (allowance waste : float) : float :=
  if (allowance =? 0) || (waste =? 0) then 0
  else round2 (((waste - allowance) / allowance) * 100).

(** "The division is never performed when the allowance is zero." *)
Definition no_division_by_zero_allowance (df : list RawRecord) : Prop :=
  let t := aggregate df in
  forall n d : float,
    In (n, d) (division_operands (map total_waste_allowance t)
                                 (map total_waste t)) ->
    (d =? 0) = false.

(** The change from a previous total, if there is one, to [w]. *)
Definition change_of (prev : option float) (w : float) : float :=
  match prev with Some p => w / p - 1 | None => nan end.

(** Every row carries the rounded change from the row before it, the first
    one from [prev]. *)
Fixpoint chained (prev : option float) (rows : list DQRow) : Prop :=
  match rows with
  | [] => True
  | r :: rows' =>
      pct_change_Wastes_from_last_quarter r
      = round2 (change_of prev (total_waste (agg r)) * 100)
      /\ chained (Some (total_waste (agg r))) rows'
  end.

(** "For every row of the table [pct_from_limit] is defined, tier 1 decides
    the status, and NotClassified never occurs." *)
Definition limit_always_decides (df : list RawRecord) : Prop :=
  forall row : DQRow,
    In row (build_distributor_quarter_df df) ->
    isna (pct_from_limit row) = false
    /\ Status row = limit_tier (pct_from_limit row)
    /\ Status row <> NotClassified.

(** "The matrix satisfies [matrix[i][j] == matrix[j][i]] and
    [matrix[i][i] == 1.0]." *)
Definition symmetric_with_unit_diagonal
    (df : list CorrelationRouter.Column) : Prop :=
  forall a : CorrelationRouter.Analysis,
    CorrelationRouter.correlation_analysis df = Py.Returned a ->
    let m := CorrelationRouter.matrix a in
    forall i j : nat,
      (i < List.length m)%nat -> (j < List.length m)%nat ->
      (CorrelationRouter.cell m i j =? CorrelationRouter.cell m j i) = true
      /\ (CorrelationRouter.cell m i i =? 1) = true.

(** A bucket that holds the largest magnitudes of its pool: nothing left
    outside is strictly larger than something inside.  Every selection of a
    "top 5 by descending |r|" has this property, however ties are broken. *)
Definition holds_largest
    (bucket pool : list CorrelationRouter.Relationship) : Prop :=
  forall x y : CorrelationRouter.Relationship,
    In x bucket -> In y pool -> ~ In y bucket ->
    (CorrelationRouter.abs_value x <? CorrelationRouter.abs_value y) = false.

(** A bucket made of the first five members of a pool, in the order of the
    pool. *)
Definition first_five_of {A : Type} (pool bucket : list A) : Prop :=
  exists rest : list A,
    pool = bucket ++ rest
    /\ (List.length bucket <= 5)%nat
    /\ (rest = [] \/ List.length bucket = 5%nat).

(** "The strong bucket contains the top 5 pairs with |r| >= 0.75 selected
    by descending |r|." *)
Definition strong_bucket_holds_largest
    (df : list CorrelationRouter.Column) : Prop :=
  forall a : CorrelationRouter.Analysis,
    CorrelationRouter.correlation_analysis df = Py.Returned a ->
    holds_largest (CorrelationRouter.strong a)
      (filter CorrelationRouter.is_strong
         (CorrelationRouter.relationships (CorrelationRouter.features a)
            (CorrelationRouter.matrix a))).
End Stated.

(** ** Sample data sets *)

Module Samples.
Local Open Scope string_scope.
Local Open Scope float_scope.
Import DistributorQuarter.

Definition record (d : Z) (s : string) (y : Z) (q : string)
    (deliveries returns allowance waste : float) : RawRecord :=
  mkRaw (Some d) (Some s) (Some y) (Some q) deliveries returns allowance waste.

(** Distributor 101 in Texas over two quarters, 102 beside it in the first. *)
Definition two_quarters : list RawRecord :=
  [ record 101 "TX" 2022 "Q1" 1000 90 800 1000;
    record 101 "TX" 2022 "Q2" 1200 60 800 1200;
    record 102 "TX" 2022 "Q1" 500 10 400 150 ].

(** A quarter without any allowance. *)
Definition no_allowance : list RawRecord :=
  [ record 7 "NY" 2023 "Q3" 40 2 0 5 ].

(** Two distributors: 101 over its allowance in Texas, with high returns,
    and well within it in New York; 103 well within its allowance. *)
Definition alerting : list RawRecord :=
  [ record 101 "TX" 2022 "Q2" 1000 90 400 1000;
    record 101 "NY" 2022 "Q1" 1000 10 800 100;
    record 103 "CA" 2022 "Q4" 100 1 100 5 ].

(** Two allowances whose binary64 sum overflows. *)
Definition huge_allowance : list RawRecord :=
  [ record 9 "CA" 2023 "Q1" 10 1 1e308 5;
    record 9 "CA" 2023 "Q1" 10 1 1e308 0 ].

(** Four measures that all move together, the last two in lockstep. *)
Definition correlated : list CorrelationRouter.Column :=
  [ CorrelationRouter.mkColumn "Deliveries_Quantity"
      CorrelationRouter.float64 [1; 2; 3; 4; 6; 5];
    CorrelationRouter.mkColumn "US States" CorrelationRouter.other [];
    CorrelationRouter.mkColumn "Returns_Quantity"
      CorrelationRouter.float64 [2; 1; 3; 4; 5; 6];
    CorrelationRouter.mkColumn "Waste_Allowance_Quantity"
      CorrelationRouter.int64 [1; 2; 3; 4; 5; 6];
    CorrelationRouter.mkColumn "Waste_Quantity_Sum"
      CorrelationRouter.float64 [2; 4; 6; 8; 10; 12] ].

(** What the analysis of [correlated] returns. *)
Definition correlated_analysis : CorrelationRouter.Analysis :=
  Eval vm_compute in
    match CorrelationRouter.correlation_analysis correlated with
    | Py.Returned a => a
    | _ => CorrelationRouter.mkAnalysis [] [] [] [] []
    end.

(** Every distributor has the same allowance. *)
Definition constant_allowance : list CorrelationRouter.Column :=
  [ CorrelationRouter.mkColumn "Distributor ID"
      CorrelationRouter.int64 [101; 102; 103];
    CorrelationRouter.mkColumn "Waste_Allowance_Quantity"
      CorrelationRouter.float64 [800; 800; 800] ].
End Samples.

(** ** Further vocabulary *)

Module Table.
Import DistributorQuarter.

(** The group key a row of the table stands for. *)
Definition agg_key (r : AggRow) : Key :=
  (agg_Distributor_ID r, agg_US_States r, agg_year_only r, agg_quarter r).

(** The group keys of a distributor, as the records give them, in the
    order of the grouped frame. *)
Definition keys_of_distributor (df : list RawRecord) (d : Z) : list Key :=
  filter (fun k : Key => Z.eqb (fst (fst (fst k))) d)
         (Order.sorted_unique key_cmp (keys_of df)).

(** A record with all four key cells present. *)
Definition complete (r : RawRecord) : bool :=
  match key_of r with Some _ => true | None => false end.

(** Every record carries its distributor id: [Distributor ID] is then an
    integer column, and its text is the text of the integer, as the end
    points of [risk.py] are modelled. *)
Definition ids_present (df : list RawRecord) : bool :=
  forallb (fun r => match Distributor_ID r with
                    | Some _ => true
                    | None => false
                    end) df.

(** Every record carries its year: [year_only] is then an integer column,
    printed as the text of the integer. *)
Definition years_present (df : list RawRecord) : bool :=
  forallb (fun r => match year_only r with
                    | Some _ => true
                    | None => false
                    end) df.
End Table.

(** ** [app/utils/filters.py] *)

Module Filters.
Local Open Scope string_scope.
Import DistributorQuarter Py.

(** A row of the uploaded file: the columns of [RawRecord] before the time
    columns exist, and the month label [Months], which may be missing. *)
Record UploadedRow := mkUploaded {
  up_Distributor_ID : option Z;
  up_US_States : option string;
  Months : option string;
  up_Deliveries_Quantity : float;
  up_Returns_Quantity : float;
  up_Waste_Allowance_Quantity : float;
  up_Waste_Quantity_Sum : float
}.

Definition lower_ascii (c : ascii) : ascii :=
  let n := nat_of_ascii c in
  if ((65 <=? n) && (n <=? 90))%nat then ascii_of_nat (n + 32) else c.

(** [%b]: the abbreviated month names, matched without regard to case. *)
Definition month_number (a b c : ascii) : option Z :=
  let name :=
    String (lower_ascii a) (String (lower_ascii b)
      (String (lower_ascii c) EmptyString)) in
  if String.eqb name "jan" then Some 1%Z
  else if String.eqb name "feb" then Some 2%Z
  else if String.eqb name "mar" then Some 3%Z
  else if String.eqb name "apr" then Some 4%Z
  else if String.eqb name "may" then Some 5%Z
  else if String.eqb name "jun" then Some 6%Z
  else if String.eqb name "jul" then Some 7%Z
  else if String.eqb name "aug" then Some 8%Z
  else if String.eqb name "sep" then Some 9%Z
  else if String.eqb name "oct" then Some 10%Z
  else if String.eqb name "nov" then Some 11%Z
  else if String.eqb name "dec" then Some 12%Z
  else None.

(** [pd.to_datetime(label, format="%b-%y", errors="coerce")]: the whole
    label must be a month abbreviation, a hyphen and two digits; the two
    digits give a year of 2000 up to 68 and of 1900 from 69 on.  The result
    is (year, month), or [None] for [NaT].  Digits and letters are read on
    the ASCII range. *)
Definition to_datetime (label : string) : option (Z * Z) :=
  match label with
  | String a (String b (String c (String "-"
      (String d1 (String d2 EmptyString))))) =>
      match month_number a b c, digit_of d1, digit_of d2 with
      | Some m, Some x, Some y =>
          let yy := (10 * x + y)%Z in
          Some (if (yy <=? 68)%Z then (2000 + yy)%Z else (1900 + yy)%Z, m)
      | _, _, _ => None
      end
  | _ => None
  end.

Definition Month_Parsed (row : UploadedRow) : option (Z * Z) :=
  match Months row with
  | Some label => to_datetime label
  | None => None
  end.

Definition month_only (row : UploadedRow) : option Z :=
  option_map snd (Month_Parsed row).

(** ["Q" + ((month_only - 1) // 3 + 1).astype("Int64").astype(str)]: a
    missing month stays missing through both conversions and through the
    concatenation, so the quarter cell of such a row is missing too. *)
Definition quarter_label (month : option Z) : option string :=
  match month with
  | Some m => Some ("Q" ++ str ((m - 1) / 3 + 1))
  | None => None
  end.

(** The row with its time columns, as the build reads it. *)
Definition prepare_row (row : UploadedRow) : RawRecord :=
  mkRaw (up_Distributor_ID row) (up_US_States row)
        (option_map fst (Month_Parsed row))
        (quarter_label (month_only row))
        (up_Deliveries_Quantity row) (up_Returns_Quantity row)
        (up_Waste_Allowance_Quantity row) (up_Waste_Quantity_Sum row).

Definition prepare_time_columns (df : list UploadedRow) : list RawRecord :=
  map prepare_row df.

(** Every month label parses: [year_only] is then an integer column. *)
Definition all_months_parse (df : list UploadedRow) : bool :=
  forallb (fun row => match Month_Parsed row with
                      | Some _ => true
                      | None => false
                      end) df.

(** A month label that is missing or made of ASCII characters only: on
    these [to_datetime] above reads what the library reads.  (The library
    also takes decimal digits and letters from outside ASCII; such labels
    are left out.) *)
Definition ascii_label (row : UploadedRow) : bool :=
  match Months row with
  | Some label =>
      forallb (fun c => (nat_of_ascii c <? 128)%nat)
              (list_ascii_of_string label)
  | None => true
  end.
End Filters.

(** ** Labels of quarters, checked by evaluation *)

Module Labels.
Local Open Scope string_scope.
Import Py RiskRouter.

(** The label the trend end point prints for a year and a quarter, and the
    form with the year repeated that the comparison end point documents. *)
Definition printed (y : Z) (q : string) : string := str y ++ " " ++ q.
Definition doubled (y : Z) (q : string) : string := str y ++ " " ++ str y ++ q.

Definition parses_to (label : string) (y : Z) (q : string) : bool :=
  match parse_quarter label with
  | Some (y', q') => Z.eqb y' y && String.eqb q' q
  | None => false
  end.

Definition quarter_names : list string := ["Q1"; "Q2"; "Q3"; "Q4"].

(** The years a two-digit year can stand for. *)
Definition pivot_years : list Z :=
  map (fun n => (1969 + Z.of_nat n)%Z) (seq 0 100).

Definition labels_parse_back : bool :=
  forallb (fun y =>
             forallb (fun q => parses_to (printed y q) y q
                               && parses_to (doubled y q) y q)
                     quarter_names)
          pivot_years.
End Labels.

(** ** Vocabulary of the alert rules *)

Module AlertRules.
Local Open Scope float_scope.
Import NumPy DistributorQuarter AlertsRouter.

(** The sum of a measure over the records of a (distributor, state)
    group. *)
Definition group_total (x : RawRecord -> float) (k : GroupKey)
    (df : list RawRecord) : float :=
  group_sum (map x (filter (in_group k) df)).

(** An alert of a severity for a group. *)
Definition alert_for (s : Severity) (k : GroupKey) (a : Alert) : Prop :=
  severity a = s /\ distributor_id a = fst k /\ state a = snd k.

(** The test of each of the three loops on a group: the denominator filter
    and the threshold on the ratio. *)
Definition fires (s : Severity) (k : GroupKey) (df : list RawRecord)
  : bool :=
  let waste := group_total Waste_Quantity_Sum k df in
  let allowance := group_total Waste_Allowance_Quantity k df in
  let returns := group_total Returns_Quantity k df in
  let deliveries := group_total Deliveries_Quantity k df in
  match s with
  | HIGH => (0 <? allowance) && (1 <? waste / allowance)
  | MEDIUM => (0 <? deliveries) && (0.08 <? returns / deliveries)
  | LOW => (0 <? allowance) && (waste / allowance <? 0.6)
  end.

(** The three filters of the end point as one test on an alert. *)
Definition passes (severity_arg distributor_arg state_arg : string)
    (a : Alert) : bool :=
  (String.eqb (Py.upper severity_arg) "ALL"
   || String.eqb (severity_str (severity a)) (Py.upper severity_arg))
  && (String.eqb distributor_arg "ALL"
      || match Py.int distributor_arg with
         | Some d => Z.eqb (distributor_id a) d
         | None => false
         end)
  && (String.eqb state_arg "ALL" || String.eqb (state a) state_arg).

(** [get_df] of [alerts.py]: the data set of the application, if one was
    uploaded. *)
Definition get_df (app_state : option (list RawRecord))
  : Py.Outcome (list RawRecord) :=
  match app_state with
  | Some df => Py.Returned df
  | None => Py.HTTPException 400 "Dataset not uploaded yet"
  end.

(** The end point as a request meets it: [get_df] first, then the body of
    [get_alerts] on the data set. *)
Definition alerts_request (app_state : option (list RawRecord))
    (severity_arg distributor_arg state_arg : string)
  : Py.Outcome AlertsResponse :=
  match get_df app_state with
  | Py.Returned df => get_alerts df severity_arg distributor_arg state_arg
  | Py.HTTPException status_code detail =>
      Py.HTTPException status_code detail
  | Py.Raised exc => Py.Raised exc
  end.
End AlertRules.

(** ** Rankings: [sort_values(..., ascending=False).head(5)] *)

Module Ranking.
Local Open Scope float_scope.
Import NumPy Order DistributorQuarter.

(** The descending order of [sort_values(ascending=False)] on a float
    column: [a] may stand before [b].  NaN is placed last. *)
Definition before (a b : float) : bool :=
  if is_nan b then true
  else if is_nan a then false
  else b <=? a.

Definition desc_cmp (a b : float) : comparison :=
  if before a b then (if before b a then Eq else Lt) else Gt.

(** The order among equal keys is the one of the stable sort; the facts on
    rankings are proved from the order of the keys alone. *)
Definition sort_desc {A : Type} (key : A -> float) (l : list A) : list A :=
  stable_sort (fun a b => desc_cmp (key a) (key b)) l.

Definition head (n : nat) {A : Type} (l : list A) : list A := firstn n l.

(** *** [top_risky_distributors] of [app/routers/risk.py] *)

Record RiskyEntry := mkRisky {
  risky_distributor_id : Z;
  risky_state : string;
  risk_pct : float;
  risky_status : string
}.

(** The rows [top] holds. *)
Definition top (dq : list DQRow) : list DQRow :=
  head 5 (sort_desc pct_from_limit dq).

Section BuiltinRound.
(** [round(x, 1)] of the language on a float cell of a row: the decimal
    rounding of the interpreter, taken as it is. *)
Variable round1 : float -> float.

Definition risky_entry (r : DQRow) : RiskyEntry :=
  mkRisky (agg_Distributor_ID (agg r)) (agg_US_States (agg r))
          (round1 (pct_from_limit r))
          (Thresholds.status_str (Status r)).

Definition top_risky_distributors (dq : list DQRow) : list RiskyEntry :=
  map risky_entry (top dq).
End BuiltinRound.
End Ranking.

(** ** [app/routers/rootcause.py] *)

Module RootCause.
Local Open Scope string_scope.
Local Open Scope float_scope.
Import NumPy Py Ranking.

(** A record of [model_lab["shap"]]. *)
Record Shap := mkShap {
  feature : string;
  importance : float
}.

Record Factor := mkFactor {
  factor_feature : string;
  contribution_pct : float
}.

Record Driver := mkDriver {
  driver_feature : string;
  reason : string
}.

Record Response := mkResponse {
  top_factors : list Factor;
  primary_cause : Driver;
  secondary_drivers : list Driver;
  recommended_actions : list string
}.

Section SeriesSum.
(** [Series.sum()] of a float column, taken as it is. *)
Variable series_sum : list float -> float.

(** The frame with its [contribution_pct] column. *)
Definition with_contribution (shap : list Shap) : list (Shap * float) :=
  let total := series_sum (map importance shap) in
  map (fun s => (s, importance s / total * 100)) shap.

Definition factors (shap : list Shap) : list Factor :=
  map (fun r : Shap * float => mkFactor (feature (fst r)) (round2 (snd r)))
      (head 5 (sort_desc snd (with_contribution shap))).

(** The state of the application: [model_lab] may not be set, and its
    ["shap"] entry may be missing. *)
Definition root_cause_analysis (model_lab : option (option (list Shap)))
  : Outcome Response :=
  match model_lab with
  | None => HTTPException 400 "Model not trained yet"
  | Some None | Some (Some []) =>
      HTTPException 400 "SHAP data not available"
  | Some (Some shap) =>
      match factors shap with
      | [] => Raised "IndexError"
      | primary :: rest =>
          Returned
            (mkResponse (primary :: rest)
               (mkDriver (factor_feature primary)
                  "Primary driver based on highest model contribution")
               (map (fun f => mkDriver (factor_feature f)
                                "Secondary contributor to inventory loss")
                    (firstn 2 rest))
               [ "Improve return handling for top-risk distributors";
                 "Optimize delivery quantities using demand signals";
                 "Reduce storage duration for slow-moving inventory" ])
      end
  end.
End SeriesSum.
End RootCause.

(** ** [app/routers/inventory.py]: the status of a distributor *)

Module Inventory.
Local Open Scope string_scope.
Local Open Scope float_scope.
Import NumPy Thresholds.

Definition STATUS_MAP : list (string * string) :=
  [ ("High Risk", "Exceeded");
    ("Risk", "At Risk");
    ("Good", "OK");
    ("Very Good", "OK");
    ("Not Classified", "OK") ].

(** [d.get(key, default)]. *)
Definition get (d : list (string * string)) (key default : string)
  : string :=
  match find (fun kv => String.eqb (fst kv) key) d with
  | Some kv => snd kv
  | None => default
  end.

(** [Series.replace(0, value)] on one cell. *)
Definition replace0 (x value : float) : float :=
  if x =? 0 then value else x.

(** The two percentages of a distributor with the sums [allowance] and
    [actual_waste], given the median allowance of the frame. *)
Definition utilization_pct (allowance actual_waste median_allowance : float)
  : float :=
  actual_waste / replace0 allowance median_allowance * 100.

Definition pct_from_limit (allowance actual_waste median_allowance : float)
  : float :=
  (actual_waste - allowance) / replace0 allowance median_allowance * 100.

Definition risk_status (pct : float) : string :=
  status_str (distributor_status pct nan).

(** The [status] column. *)
Definition status (pct : float) : string :=
  get STATUS_MAP (risk_status pct) "OK".
End Inventory.

(* ================================================================== *)
(** * Part II: what the program guarantees *)
(* ================================================================== *)

Import Binary64 NumPy Order Thresholds DistributorQuarter Stated.
Local Open Scope float_scope.

(** ** Binary64 facts, from the specification of the primitive floats *)

Lemma SFcompare_refl s : SF_nan s = false -> SFcompare s s = Some Eq.
Proof.
  destruct s as [b|b| |b m e]; simpl; try discriminate; intros _.
  - reflexivity.
  - destruct b; reflexivity.
  - rewrite Z.compare_refl, Pos.compare_cont_refl. destruct b; reflexivity.
Qed.

Lemma SFcompare_nan_l s t : SF_nan s = true -> SFcompare s t = None.
Proof. destruct s; try discriminate. reflexivity. Qed.

Lemma SFcompare_antisym s t :
  SFcompare t s = option_map CompOpp (SFcompare s t).
Proof.
  destruct s as [b|b| |b m e], t as [c|c| |c n f]; simpl; try reflexivity;
    try (destruct b; reflexivity); try (destruct c; reflexivity);
    try (destruct b, c; reflexivity).
  destruct b, c; simpl; try reflexivity;
    rewrite (Z.compare_antisym e f);
    destruct (e ?= f)%Z eqn:E; simpl; try reflexivity;
    rewrite (Pos.compare_cont_antisym m n Eq); simpl;
    try rewrite CompOpp_involutive; reflexivity.
Qed.

Lemma is_nan_spec x : is_nan x = SF_nan (Prim2SF x).
Proof.
  unfold is_nan. rewrite eqb_spec. unfold SFeqb.
  destruct (SF_nan (Prim2SF x)) eqn:E.
  - rewrite SFcompare_nan_l by exact E. reflexivity.
  - rewrite SFcompare_refl by exact E. reflexivity.
Qed.

Lemma leb_negb_ltb x y :
  is_nan x = false -> is_nan y = false -> (x <=? y) = negb (y <? x).
Proof.
  rewrite !is_nan_spec, leb_spec, ltb_spec. unfold SFleb, SFltb.
  rewrite (SFcompare_antisym (Prim2SF x) (Prim2SF y)).
  destruct (Prim2SF x) as [b|b| |b m e], (Prim2SF y) as [c|c| |c n f];
    simpl; try discriminate; intros _ _;
    try reflexivity; try (destruct b; reflexivity);
    try (destruct c; reflexivity); try (destruct b, c; reflexivity).
  destruct b, c; simpl; try reflexivity;
    destruct (e ?= f)%Z; simpl; try reflexivity;
    destruct (Pos.compare_cont Eq m n); reflexivity.
Qed.

(** The comparison is transitive. *)
Ltac cmp_cases :=
  repeat match goal with
  | |- context [(?a ?= ?b)%Z] =>
      destruct (Z.compare_spec a b); try subst; simpl
  | H : context [(?a ?= ?b)%Z] |- _ =>
      destruct (Z.compare_spec a b); try subst; simpl in H
  | |- context [(?a ?= ?b)%positive] =>
      destruct (Pos.compare_spec a b); try subst; simpl
  | H : context [(?a ?= ?b)%positive] |- _ =>
      destruct (Pos.compare_spec a b); try subst; simpl in H
  end.

Lemma SF_le_lt_trans z x y :
  SFleb z x = true -> SFltb x y = true -> SFltb z y = true.
Proof.
  unfold SFleb, SFltb, SFcompare.
  change (Pos.compare_cont Eq) with Pos.compare.
  destruct x as [a|a| |a m e], y as [b|b| |b n f], z as [c|c| |c o g];
    try discriminate; try reflexivity;
    try (destruct a; try discriminate; try reflexivity);
    try (destruct b; try discriminate; try reflexivity);
    try (destruct c; try discriminate; try reflexivity);
    intros H1 H2; cmp_cases; try discriminate; try reflexivity; try lia.
Qed.

Lemma SF_lt_le_trans z x y :
  SFltb z x = true -> SFleb x y = true -> SFltb z y = true.
Proof.
  unfold SFleb, SFltb, SFcompare.
  change (Pos.compare_cont Eq) with Pos.compare.
  destruct x as [a|a| |a m e], y as [b|b| |b n f], z as [c|c| |c o g];
    try discriminate; try reflexivity;
    try (destruct a; try discriminate; try reflexivity);
    try (destruct b; try discriminate; try reflexivity);
    try (destruct c; try discriminate; try reflexivity);
    intros H1 H2; cmp_cases; try discriminate; try reflexivity; try lia.
Qed.

Lemma SF_ltb_leb x y : SFltb x y = true -> SFleb x y = true.
Proof.
  unfold SFltb, SFleb. destruct (SFcompare x y) as [[]|]; now simpl.
Qed.

Lemma ltb_leb x y : (x <? y) = true -> (x <=? y) = true.
Proof. rewrite leb_spec, ltb_spec. apply SF_ltb_leb. Qed.

Lemma le_lt_trans z x y :
  (z <=? x) = true -> (x <? y) = true -> (z <? y) = true.
Proof. rewrite leb_spec, !ltb_spec. apply SF_le_lt_trans. Qed.

Lemma lt_le_trans z x y :
  (z <? x) = true -> (x <=? y) = true -> (z <? y) = true.
Proof. rewrite leb_spec, !ltb_spec. apply SF_lt_le_trans. Qed.

(** Rounding never invents a NaN. *)
Lemma shr_1_nonneg mrs : (0 <= shr_m mrs)%Z -> (0 <= shr_m (shr_1 mrs))%Z.
Proof.
  destruct mrs as [m r s]; simpl.
  destruct m as [|p|p]; simpl; try lia.
  - destruct p; simpl; lia.
Qed.

Lemma iter_pos_shr_1_nonneg p mrs :
  (0 <= shr_m mrs)%Z -> (0 <= shr_m (iter_pos shr_1 p mrs))%Z.
Proof.
  revert mrs. induction p as [p IH|p IH|]; intros mrs H; simpl.
  - apply IH, IH, shr_1_nonneg, H.
  - apply IH, IH, H.
  - apply shr_1_nonneg, H.
Qed.

Lemma shr_fexp_nonneg m e l :
  (0 <= m)%Z -> (0 <= shr_m (fst (shr_fexp prec emax m e l)))%Z.
Proof.
  intros H. unfold shr_fexp, shr.
  assert (H0 : (0 <= shr_m (shr_record_of_loc m l))%Z).
  { destruct l as [|[]]; simpl; exact H. }
  destruct (fexp prec emax (Zdigits2 m + e) - e)%Z; simpl; try exact H0.
  apply iter_pos_shr_1_nonneg, H0.
Qed.

Lemma round_nearest_even_nonneg m l :
  (0 <= m)%Z -> (0 <= round_nearest_even m l)%Z.
Proof.
  intros H. destruct l as [|[]]; simpl; try lia.
  destruct (Z.even m); lia.
Qed.

Lemma binary_round_aux_not_nan s m e l :
  (0 <= m)%Z -> SF_nan (binary_round_aux prec emax s m e l) = false.
Proof.
  intros H. unfold binary_round_aux.
  pose proof (shr_fexp_nonneg m e l H) as H1.
  destruct (shr_fexp prec emax m e l) as [mrs' e']. simpl in H1.
  pose proof (shr_fexp_nonneg _ e' loc_Exact
                (round_nearest_even_nonneg _ (loc_of_shr_record mrs') H1)) as H2.
  destruct (shr_fexp prec emax _ e' loc_Exact) as [mrs'' e'']. simpl in H2.
  destruct (shr_m mrs'') as [|p|p]; try reflexivity.
  - destruct (e'' <=? emax - prec)%Z; reflexivity.
  - lia.
Qed.

Lemma binary_normalize_not_nan m e sz :
  SF_nan (binary_normalize prec emax m e sz) = false.
Proof.
  destruct m as [|p|p]; simpl; try reflexivity;
    unfold binary_round;
    destruct (shl_align _ _ _) as [mz ez];
    apply binary_round_aux_not_nan; lia.
Qed.

Lemma SFadd_not_nan x y :
  SF_nan x = false -> SF_real y = true -> SF_nan (SFadd prec emax x y) = false.
Proof.
  destruct x as [b|b| |b m e], y as [c|c| |c n f]; simpl; try discriminate;
    intros _ _; try reflexivity.
  - destruct b, c; reflexivity.
  - apply binary_normalize_not_nan.
Qed.

Lemma SFsub_not_nan x y :
  SF_nan x = false -> SF_real y = true -> SF_nan (SFsub prec emax x y) = false.
Proof.
  destruct x as [b|b| |b m e], y as [c|c| |c n f]; simpl; try discriminate;
    intros _ _; try reflexivity.
  - destruct b, c; reflexivity.
  - apply binary_normalize_not_nan.
Qed.

Lemma SFmul_not_nan x y :
  SF_nan x = false -> SF_nonzero y = true ->
  SF_nan (SFmul prec emax x y) = false.
Proof.
  destruct x as [b|b| |b m e], y as [c|c| |c n f]; simpl; try discriminate;
    intros _ _; try reflexivity.
  apply binary_round_aux_not_nan; lia.
Qed.

Lemma SFdiv_not_nan x y :
  SF_nan x = false -> SF_nonzero y = true ->
  SF_nan (SFdiv prec emax x y) = false.
Proof.
  destruct x as [b|b| |b m e], y as [c|c| |c n f]; simpl; try discriminate;
    intros _ _; try reflexivity.
  unfold SFdiv_core_binary.
  set (s := (e - f - _)%Z).
  set (m' := match s with Zpos _ => Z.shiftl (Zpos m) s | Z0 => Zpos m | Zneg _ => Z0 end).
  assert (Hm : (0 <= m')%Z).
  { unfold m'. destruct s; try lia. apply Z.shiftl_nonneg. lia. }
  pose proof (Z_div_mod m' (Zpos n) eq_refl) as Hd.
  destruct (Z.div_eucl m' (Zpos n)) as [q r].
  apply binary_round_aux_not_nan. nia.
Qed.

(** *** The same facts on the primitive operations *)

Lemma Prim2SF_infinity : Prim2SF infinity = S754_infinity false.
Proof. reflexivity. Qed.

Lemma isfinite_spec x : isfinite x = SF_real (Prim2SF x).
Proof.
  unfold isfinite. rewrite ltb_spec, abs_spec, Prim2SF_infinity.
  destruct (Prim2SF x) as [b|b| |b m e]; reflexivity.
Qed.

Lemma finite_not_nan x : isfinite x = true -> is_nan x = false.
Proof.
  rewrite isfinite_spec, is_nan_spec. destruct (Prim2SF x); now simpl.
Qed.

Lemma finite_nonzero_spec x :
  isfinite x = true -> (x =? 0) = false -> SF_nonzero (Prim2SF x) = true.
Proof.
  rewrite isfinite_spec, eqb_spec.
  change (Prim2SF 0) with (S754_zero false).
  destruct (Prim2SF x) as [b|b| |b m e]; simpl; try discriminate; auto.
Qed.

Lemma add_not_nan x y :
  is_nan x = false -> isfinite y = true -> is_nan (x + y) = false.
Proof.
  rewrite !is_nan_spec, isfinite_spec, add_spec. apply SFadd_not_nan.
Qed.

Lemma sub_not_nan x y :
  is_nan x = false -> isfinite y = true -> is_nan (x - y) = false.
Proof.
  rewrite !is_nan_spec, isfinite_spec, sub_spec. apply SFsub_not_nan.
Qed.

Lemma mul_not_nan x y :
  is_nan x = false -> SF_nonzero (Prim2SF y) = true -> is_nan (x * y) = false.
Proof. rewrite !is_nan_spec, mul_spec. apply SFmul_not_nan. Qed.

Lemma div_not_nan x y :
  is_nan x = false -> SF_nonzero (Prim2SF y) = true -> is_nan (x / y) = false.
Proof. rewrite !is_nan_spec, div_spec. apply SFdiv_not_nan. Qed.

Lemma abs_not_nan x : is_nan x = false -> is_nan (abs x) = false.
Proof.
  rewrite !is_nan_spec, abs_spec. destruct (Prim2SF x); now simpl.
Qed.

Lemma opp_not_nan x : is_nan x = false -> is_nan (- x) = false.
Proof.
  rewrite !is_nan_spec, opp_spec. destruct (Prim2SF x); now simpl.
Qed.

Lemma rint_not_nan x : is_nan x = false -> is_nan (rint x) = false.
Proof.
  intros H. unfold rint.
  destruct (abs x <? two52); [|exact H].
  assert (Hr : is_nan (abs x + two52 - two52) = false).
  { apply sub_not_nan; [|reflexivity].
    apply add_not_nan; [|reflexivity]. apply abs_not_nan, H. }
  destruct (get_sign x); [apply opp_not_nan|]; exact Hr.
Qed.

Lemma round2_not_nan x : is_nan x = false -> is_nan (round2 x) = false.
Proof.
  intros H. unfold round2.
  apply div_not_nan; [|reflexivity].
  apply rint_not_nan, mul_not_nan; [exact H|reflexivity].
Qed.

Lemma round2_zero : round2 0 = 0.
Proof. reflexivity. Qed.

Lemma round2_nan : round2 (nan * 100) = nan.
Proof. reflexivity. Qed.

(** A finite allowance and a finite waste total never give a NaN
    [pct_from_limit]. *)
Lemma pct_rule_not_nan a w :
  isfinite a = true -> isfinite w = true -> is_nan (pct_rule a w) = false.
Proof.
  intros Ha Hw. unfold pct_rule.
  destruct (a =? 0) eqn:Ea; [reflexivity|].
  destruct (w =? 0) eqn:Ew; [reflexivity|]. simpl.
  pose proof (finite_nonzero_spec a Ha Ea) as Hnz.
  apply round2_not_nan, mul_not_nan; [|reflexivity].
  apply div_not_nan; [|exact Hnz].
  apply sub_not_nan; [apply finite_not_nan, Hw|exact Ha].
Qed.

(* ------------------------------------------------------------------ *)
(** ** The risk classifier *)

Lemma distributor_status_tier1 p c :
  isna p = false -> distributor_status p c = limit_tier p.
Proof. unfold distributor_status, limit_tier. now intros ->. Qed.

Lemma distributor_status_tier2 p c :
  isna p = true -> isna c = false -> distributor_status p c = trend_tier c.
Proof. unfold distributor_status, trend_tier. now intros -> ->. Qed.

Lemma distributor_status_fallback p c :
  isna p = true -> isna c = true -> distributor_status p c = NotClassified.
Proof. unfold distributor_status. now intros -> ->. Qed.

Lemma limit_tier_classified p : limit_tier p <> NotClassified.
Proof.
  unfold limit_tier.
  destruct (120 <=? p), (100 <=? p), (p <? 80); discriminate.
Qed.

Lemma trend_tier_classified c : trend_tier c <> NotClassified.
Proof.
  unfold trend_tier.
  destruct (10 <? c), (0 <? c), (c <? -10); discriminate.
Qed.

(** Below a bound [k] means not at or above a larger bound [k']. *)
Lemma below_excludes k k' x :
  (x <? k) = true -> (k' <? k) = false -> (k' <=? x) = false.
Proof.
  intros Hx Hk. destruct (k' <=? x) eqn:E; [|reflexivity].
  rewrite (le_lt_trans _ _ _ E Hx) in Hk. discriminate.
Qed.

Lemma above_excludes k k' x :
  (k <? x) = true -> (k <? k') = false -> (x <=? k') = false.
Proof.
  intros Hx Hk. destruct (x <=? k') eqn:E; [|reflexivity].
  rewrite (lt_le_trans _ _ _ Hx E) in Hk. discriminate.
Qed.

(** C2.  The classifier is total and two-tier.  With a defined
    [pct_from_limit] the status is HighRisk from 120 up, Risk in [100, 120),
    VeryGood below 80 and Good in [80, 100), one of the four cases always
    applying and [pct_change] playing no part; with [pct_from_limit] NaN and
    [pct_change] defined the status is HighRisk above 10, Risk in (0, 10],
    VeryGood below -10 and Good in [-10, 0]; NotClassified is returned when,
    and only when, both are NaN. *)
Theorem C2_distributor_status_two_tier (p c : float) :
  In (distributor_status p c) [HighRisk; Risk; Good; VeryGood; NotClassified]
  /\ (isna p = false ->
        (forall c', distributor_status p c' = distributor_status p c)
     /\ ((120 <=? p) = true -> distributor_status p c = HighRisk)
     /\ ((100 <=? p) = true -> (p <? 120) = true ->
         distributor_status p c = Risk)
     /\ ((p <? 80) = true -> distributor_status p c = VeryGood)
     /\ ((80 <=? p) = true -> (p <? 100) = true ->
         distributor_status p c = Good)
     /\ ((120 <=? p) = true
         \/ ((100 <=? p) = true /\ (p <? 120) = true)
         \/ (p <? 80) = true
         \/ ((80 <=? p) = true /\ (p <? 100) = true)))
  /\ (isna p = true -> isna c = false ->
        ((10 <? c) = true -> distributor_status p c = HighRisk)
     /\ ((0 <? c) = true -> (c <=? 10) = true ->
         distributor_status p c = Risk)
     /\ ((c <? -10) = true -> distributor_status p c = VeryGood)
     /\ ((-10 <=? c) = true -> (c <=? 0) = true ->
         distributor_status p c = Good)
     /\ ((10 <? c) = true
         \/ ((0 <? c) = true /\ (c <=? 10) = true)
         \/ (c <? -10) = true
         \/ ((-10 <=? c) = true /\ (c <=? 0) = true)))
  /\ (isna p = true -> isna c = true ->
      distributor_status p c = NotClassified)
  /\ (distributor_status p c = NotClassified ->
      isna p = true /\ isna c = true).
Proof.
  split; [|split; [|split; [|split]]].
  - destruct (distributor_status p c); simpl; auto 6.
  - intros Hp. unfold isna in Hp.
    pose proof (leb_negb_ltb 120 p eq_refl Hp) as E120.
    pose proof (leb_negb_ltb 100 p eq_refl Hp) as E100.
    pose proof (leb_negb_ltb 80 p eq_refl Hp) as E80.
    split; [|rewrite distributor_status_tier1 by exact Hp; unfold limit_tier;
             repeat split].
    + intros c'. now rewrite !distributor_status_tier1.
    + now intros ->.
    + intros H1 H2. rewrite E120, H2, H1. reflexivity.
    + intros H. rewrite (below_excludes 80 120 p H eq_refl),
        (below_excludes 80 100 p H eq_refl), H. reflexivity.
    + intros H1 H2. rewrite (below_excludes 100 120 p H2 eq_refl), E100, H2.
      rewrite H1 in E80. destruct (p <? 80); [discriminate|reflexivity].
    + rewrite E120, E100, E80.
      destruct (p <? 120), (p <? 100), (p <? 80); simpl; auto 6.
  - intros Hp Hc. unfold isna in Hc.
    pose proof (leb_negb_ltb c 10 Hc eq_refl) as E10.
    pose proof (leb_negb_ltb c 0 Hc eq_refl) as E0.
    pose proof (leb_negb_ltb (-10) c eq_refl Hc) as Em.
    rewrite distributor_status_tier2 by assumption. unfold trend_tier.
    repeat split.
    + now intros ->.
    + intros H1 H2. rewrite H2 in E10.
      destruct (10 <? c); [discriminate|]. now rewrite H1.
    + intros H.
      destruct (10 <? c) eqn:E.
      { pose proof (above_excludes 10 (-10) c E eq_refl) as H1.
        rewrite (ltb_leb _ _ H) in H1. discriminate. }
      destruct (0 <? c) eqn:E'.
      { pose proof (above_excludes 0 (-10) c E' eq_refl) as H1.
        rewrite (ltb_leb _ _ H) in H1. discriminate. }
      now rewrite H.
    + intros H1 H2. rewrite H2 in E0. rewrite H1 in Em.
      destruct (0 <? c); [discriminate|].
      destruct (c <? -10); [discriminate|].
      destruct (10 <? c) eqn:E; [|reflexivity].
      pose proof (above_excludes 10 0 c E eq_refl) as H3.
      rewrite H2 in H3. discriminate.
    + rewrite E10, E0, Em.
      destruct (10 <? c), (0 <? c), (c <? -10); simpl; auto 6.
  - apply distributor_status_fallback.
  - intros H. destruct (isna p) eqn:Hp.
    + destruct (isna c) eqn:Hc; [auto|].
      rewrite distributor_status_tier2 in H by assumption.
      now apply trend_tier_classified in H.
    + rewrite distributor_status_tier1 in H by assumption.
      now apply limit_tier_classified in H.
Qed.

(* ------------------------------------------------------------------ *)
(** ** Lists, columns and the stable sort *)

Lemma map2_combine {A B C} (f : A -> B -> C) xs ys :
  map2 f xs ys = map (fun p => f (fst p) (snd p)) (combine xs ys).
Proof.
  revert ys. induction xs as [|x xs IH]; intros [|y ys]; simpl; trivial.
  now rewrite IH.
Qed.

Lemma map2_map {A B C D} (f : B -> C -> D) (g : A -> B) (h : A -> C) l :
  map2 f (map g l) (map h l) = map (fun a => f (g a) (h a)) l.
Proof. induction l as [|a l IH]; simpl; [trivial|now rewrite IH]. Qed.

Lemma in_combine_map {A B} (g : A -> B) l x y :
  In (x, y) (combine l (map g l)) -> In x l /\ y = g x.
Proof.
  induction l as [|a l IH]; simpl; [tauto|].
  intros [H|H]; [inversion H; subst; auto|].
  destruct (IH H); auto.
Qed.

Section SortFacts.
Context {A : Type}.
Variable cmp : A -> A -> comparison.

Lemma insert_last_perm x l : Permutation (insert_last cmp x l) (x :: l).
Proof.
  induction l as [|y l IH]; simpl; [reflexivity|].
  destruct (le_of (cmp y x)); [|reflexivity].
  rewrite IH. apply perm_swap.
Qed.

Lemma fold_insert_last_perm l acc :
  Permutation (fold_left (fun acc x => insert_last cmp x acc) l acc)
              (acc ++ l).
Proof.
  revert acc. induction l as [|x l IH]; intros acc; simpl.
  - now rewrite app_nil_r.
  - rewrite IH, insert_last_perm. now apply Permutation_middle.
Qed.

Lemma stable_sort_perm l : Permutation (stable_sort cmp l) l.
Proof. apply (fold_insert_last_perm l []). Qed.

Lemma stable_sort_in x l : In x (stable_sort cmp l) <-> In x l.
Proof.
  split; apply Permutation_in;
    [|symmetry]; apply stable_sort_perm.
Qed.
End SortFacts.

(* ------------------------------------------------------------------ *)
(** ** The distributor-quarter build, row by row *)

Lemma pct_from_limit_column_rows (t : list AggRow) :
  pct_from_limit_column (map total_waste_allowance t) (map total_waste t)
  = map (fun r => pct_rule (total_waste_allowance r) (total_waste r)) t.
Proof.
  unfold pct_from_limit_column, where_, over_limit_ratio.
  rewrite !map2_map, map_map, map2_map, map_map.
  apply map_ext. intros r. unfold pct_rule.
  destruct ((total_waste_allowance r =? 0) || (total_waste r =? 0));
    reflexivity.
Qed.

Lemma division_operands_rows (t : list AggRow) :
  division_operands (map total_waste_allowance t) (map total_waste t)
  = map (fun r => (total_waste r - total_waste_allowance r,
                   total_waste_allowance r)) t.
Proof.
  unfold division_operands. rewrite map2_map.
  induction t as [|r t IH]; simpl; [trivial|now rewrite IH].
Qed.

(** Every row of the table is a row of the grouped frame, carrying the
    [pct_from_limit] of its own totals and the status of its own
    percentages. *)
Lemma build_row_spec (df : list RawRecord) (row : DQRow) :
  In row (build_distributor_quarter_df df) ->
  In (agg row) (aggregate df)
  /\ pct_from_limit row
     = pct_rule (total_waste_allowance (agg row)) (total_waste (agg row))
  /\ Status row
     = distributor_status (pct_from_limit row)
                          (pct_change_Wastes_from_last_quarter row).
Proof.
  unfold build_distributor_quarter_df, with_change_and_status.
  rewrite map2_combine, in_map_iff.
  intros [[r c] [<- H]]. simpl.
  apply in_combine_l, stable_sort_in in H.
  rewrite pct_from_limit_column_rows in H.
  destruct r as [a p]. apply in_combine_map in H. simpl. tauto.
Qed.

(** Every cell of the quotient column is the quotient of its pair of
    operands, times 100: the operands are those the build divides. *)
Lemma over_limit_ratio_operands (limit spoil : list float) :
  over_limit_ratio limit spoil
  = map (fun nd : float * float => fst nd / snd nd * 100)
        (division_operands limit spoil).
Proof.
  unfold over_limit_ratio, division_operands.
  generalize (map2 (fun s l : float => s - l) spoil limit) as num.
  intros num. revert limit.
  induction num as [|n num IH]; intros [|l limit]; simpl; trivial.
  now rewrite IH.
Qed.

(** A quotient by a zero is infinite or NaN, and stays so times 100. *)
Lemma quotient_by_zero_not_finite (n d : float) :
  (d =? 0) = true -> isfinite (n / d * 100) = false.
Proof.
  intros Hd. rewrite isfinite_spec, mul_spec, div_spec.
  rewrite eqb_spec in Hd. unfold SFeqb in Hd.
  replace (Prim2SF 0) with (S754_zero false) in Hd by reflexivity.
  replace (Prim2SF 100) with (S754_finite false 7036874417766400 (-46))
    by reflexivity.
  destruct (Prim2SF d) as [b|b| |b m e]; simpl in Hd;
    try discriminate Hd;
    try (destruct b; discriminate Hd).
  destruct (Prim2SF n) as [c|c| |c k f]; reflexivity.
Qed.

(** C1 (as amended).  For every row of the table, [pct_from_limit] is 0 when
    the allowance or the waste total is zero, and otherwise
    [((waste - allowance) / allowance) * 100] rounded to 2 decimals; the
    quotient itself is a column expression evaluated on every row of the
    grouped frame, rows with a zero allowance included: every cell of the
    column [over_limit_ratio] that the selection reads is the quotient of
    the waste minus the allowance by the allowance of its row, that
    allowance being the denominator on every row, and on a row with a zero
    allowance the cell is infinite or NaN, which the selection discards. *)
Theorem C1_pct_from_limit_rule (df : list RawRecord) (row : DQRow) :
  In row (build_distributor_quarter_df df) ->
  let a := total_waste_allowance (agg row) in
  let w := total_waste (agg row) in
  ((a =? 0) || (w =? 0) = true -> pct_from_limit row = 0)
  /\ ((a =? 0) || (w =? 0) = false ->
      pct_from_limit row = round2 (((w - a) / a) * 100))
  /\ map snd (division_operands
                (map total_waste_allowance (aggregate df))
                (map total_waste (aggregate df)))
     = map total_waste_allowance (aggregate df)
  /\ over_limit_ratio (map total_waste_allowance (aggregate df))
                      (map total_waste (aggregate df))
     = map (fun r => (total_waste r - total_waste_allowance r)
                     / total_waste_allowance r * 100)
           (aggregate df)
  /\ In (((w - a) / a) * 100)
        (over_limit_ratio (map total_waste_allowance (aggregate df))
                          (map total_waste (aggregate df)))
  /\ ((a =? 0) = true -> isfinite (((w - a) / a) * 100) = false).
Proof.
  intros H a w. destruct (build_row_spec df row H) as (Hin & Hp & _).
  fold a w in Hp. unfold pct_rule in Hp.
  assert (Hcol : over_limit_ratio (map total_waste_allowance (aggregate df))
                                  (map total_waste (aggregate df))
                 = map (fun r => (total_waste r - total_waste_allowance r)
                                 / total_waste_allowance r * 100)
                       (aggregate df)).
  { rewrite over_limit_ratio_operands, division_operands_rows, map_map.
    reflexivity. }
  split; [|split; [|split; [|split; [|split]]]].
  - intros E. now rewrite E in Hp.
  - intros E. now rewrite E in Hp.
  - rewrite division_operands_rows, map_map. reflexivity.
  - exact Hcol.
  - rewrite Hcol. apply in_map_iff. exists (agg row). auto.
  - apply quotient_by_zero_not_finite.
Qed.

Lemma C1_pct_from_limit_rule_witness :
  let row := mkDQ (mkAgg 7 "NY" 2023 "Q3" 40 2 0 5) 0 nan VeryGood in
  In row (build_distributor_quarter_df Samples.no_allowance)
  /\ pct_from_limit row = 0.
Proof.
  intros row.
  assert (H : In row (build_distributor_quarter_df Samples.no_allowance)).
  { vm_compute. left. reflexivity. }
  split; [exact H|].
  apply (C1_pct_from_limit_rule Samples.no_allowance row H). reflexivity.
Defined.

(** C1, as stated, fails: on a quarter with no allowance the division is
    carried out with the zero allowance as its denominator.  The one cell
    of the quotient column of the build is the quotient of 5 by 0 times
    100, infinity; the operands of that division are 5 and 0. *)
Lemma C1_division_by_zero_allowance_is_evaluated :
  over_limit_ratio
    (map total_waste_allowance (aggregate Samples.no_allowance))
    (map total_waste (aggregate Samples.no_allowance))
  = [5 / 0 * 100]
  /\ 5 / 0 * 100 = infinity
  /\ over_limit_ratio
       (map total_waste_allowance (aggregate Samples.no_allowance))
       (map total_waste (aggregate Samples.no_allowance))
     = map (fun nd : float * float => fst nd / snd nd * 100)
           (division_operands
              (map total_waste_allowance (aggregate Samples.no_allowance))
              (map total_waste (aggregate Samples.no_allowance)))
  /\ ~ no_division_by_zero_allowance Samples.no_allowance.
Proof.
  split; [reflexivity|]. split; [reflexivity|].
  split; [apply over_limit_ratio_operands|].
  intros H. specialize (H 5 0).
  assert (E : (0 =? 0) = false); [apply H; vm_compute; auto|discriminate E].
Qed.

(** C10 (as amended).  For every row of the table whose allowance and waste
    totals are finite, [pct_from_limit] is a defined number, the status is
    the one the limit-based tier gives, and it is not NotClassified. *)
Theorem C10_finite_totals_decided_by_limit (df : list RawRecord)
    (row : DQRow) :
  In row (build_distributor_quarter_df df) ->
  isfinite (total_waste_allowance (agg row)) = true ->
  isfinite (total_waste (agg row)) = true ->
  isna (pct_from_limit row) = false
  /\ Status row = limit_tier (pct_from_limit row)
  /\ Status row <> NotClassified.
Proof.
  intros H Ha Hw. destruct (build_row_spec df row H) as (_ & Hp & Hs).
  assert (Hn : isna (pct_from_limit row) = false).
  { rewrite Hp. now apply pct_rule_not_nan. }
  rewrite Hs, distributor_status_tier1 by exact Hn.
  auto using limit_tier_classified.
Qed.

Lemma C10_finite_totals_decided_by_limit_witness :
  let row := mkDQ (mkAgg 7 "NY" 2023 "Q3" 40 2 0 5) 0 nan VeryGood in
  In row (build_distributor_quarter_df Samples.no_allowance)
  /\ Status row = limit_tier (pct_from_limit row).
Proof.
  intros row.
  assert (H : In row (build_distributor_quarter_df Samples.no_allowance)).
  { vm_compute. left. reflexivity. }
  split; [exact H|].
  apply (C10_finite_totals_decided_by_limit Samples.no_allowance row H);
    reflexivity.
Defined.

(** C10, as stated, fails: two finite allowances whose sum overflows give an
    infinite total, a NaN [pct_from_limit], and, on the first quarter of the
    distributor, the status NotClassified. *)
Lemma C10_overflowing_allowance_not_classified :
  ~ limit_always_decides Samples.huge_allowance.
Proof.
  intros H.
  destruct (H (mkDQ (mkAgg 9 "CA" 2023 "Q1" 20 2 infinity 5)
                    nan nan NotClassified)) as (E & _).
  - vm_compute. left. reflexivity.
  - discriminate E.
Qed.

(* ------------------------------------------------------------------ *)
(** ** Orders on the keys *)

#[local] Instance Z_StrictCmp : StrictCmp Z.compare.
Proof.
  split.
  - apply Z.compare_eq.
  - apply Z.compare_refl.
  - intros x y. apply Z.compare_antisym.
  - intros x y z. rewrite !Z.compare_lt_iff. lia.
Qed.

Lemma ascii_compare_refl a : Ascii.compare a a = Eq.
Proof. apply N.compare_refl. Qed.

Lemma ascii_compare_lt_trans a b c :
  Ascii.compare a b = Lt -> Ascii.compare b c = Lt -> Ascii.compare a c = Lt.
Proof. unfold Ascii.compare. rewrite !N.compare_lt_iff. lia. Qed.

Lemma string_compare_refl s : String.compare s s = Eq.
Proof.
  induction s as [|a s IH]; simpl; [trivial|].
  now rewrite ascii_compare_refl.
Qed.

Lemma string_compare_lt_trans s t u :
  String.compare s t = Lt -> String.compare t u = Lt ->
  String.compare s u = Lt.
Proof.
  revert t u. induction s as [|a s IH]; intros [|b t] [|c u]; simpl;
    try discriminate; trivial.
  destruct (Ascii.compare a b) eqn:Eab; try discriminate;
    destruct (Ascii.compare b c) eqn:Ebc; try discriminate; intros H1 H2.
  - apply Ascii.compare_eq_iff in Eab, Ebc. subst.
    rewrite ascii_compare_refl. eauto.
  - apply Ascii.compare_eq_iff in Eab. subst. now rewrite Ebc.
  - apply Ascii.compare_eq_iff in Ebc. subst. now rewrite Eab.
  - now rewrite (ascii_compare_lt_trans a b c).
Qed.

#[local] Instance string_StrictCmp : StrictCmp String.compare.
Proof.
  split.
  - apply String.compare_eq_iff.
  - apply string_compare_refl.
  - intros x y. apply String.compare_antisym.
  - apply string_compare_lt_trans.
Qed.

#[local] Instance pair_StrictCmp {A B} (ca : A -> A -> comparison)
    (cb : B -> B -> comparison) `{!StrictCmp ca} `{!StrictCmp cb} :
  StrictCmp (pair_cmp ca cb).
Proof.
  split; unfold pair_cmp, lex.
  - intros [a b] [a' b']; simpl.
    destruct (ca a a') eqn:E; try discriminate.
    intros H. apply cmp_eq in E, H. now subst.
  - intros [a b]; simpl. now rewrite !cmp_refl.
  - intros [a b] [a' b']; simpl.
    rewrite (cmp_antisym (cmp := ca) a a'), (cmp_antisym (cmp := cb) b b').
    now destruct (ca a a').
  - intros [a b] [a' b'] [a'' b'']; simpl.
    destruct (ca a a') eqn:E1; try discriminate;
      destruct (ca a' a'') eqn:E2; try discriminate; intros H1 H2.
    + apply cmp_eq in E1, E2. subst. rewrite cmp_refl.
      eapply cmp_lt_trans; eauto.
    + apply cmp_eq in E1. subst. now rewrite E2.
    + apply cmp_eq in E2. subst. now rewrite E1.
    + now rewrite (cmp_lt_trans _ _ _ E1 E2).
Qed.

Section StrictCmpFacts.
Context {K : Type} (kcmp : K -> K -> comparison) `{!StrictCmp kcmp}.

Lemma le_of_total x y : le_of (kcmp y x) = false -> le_of (kcmp x y) = true.
Proof.
  rewrite (cmp_antisym x y). now destruct (kcmp x y).
Qed.

Lemma le_of_trans x y z :
  le_of (kcmp x y) = true -> le_of (kcmp y z) = true ->
  le_of (kcmp x z) = true.
Proof.
  destruct (kcmp x y) eqn:E1; try discriminate;
    destruct (kcmp y z) eqn:E2; try discriminate; intros _ _.
  - apply cmp_eq in E1, E2. subst. now rewrite cmp_refl.
  - apply cmp_eq in E1. subst. now rewrite E2.
  - apply cmp_eq in E2. subst. now rewrite E1.
  - now rewrite (cmp_lt_trans _ _ _ E1 E2).
Qed.

Context {A : Type} (key : A -> K).
Let cmp (a b : A) : comparison := kcmp (key a) (key b).

Lemma insert_last_ascending x l :
  ascending kcmp key l -> ascending kcmp key (insert_last cmp x l).
Proof.
  unfold ascending. induction 1 as [|y l Hl IH Hy]; simpl.
  - repeat constructor.
  - unfold cmp at 1. destruct (le_of (kcmp (key y) (key x))) eqn:E.
    + constructor; [exact IH|].
      rewrite Forall_forall in *. intros z Hz.
      apply (Permutation_in _ (insert_last_perm cmp x l)) in Hz.
      destruct Hz as [<-|Hz]; auto.
    + apply le_of_total in E.
      constructor; [now constructor|].
      constructor; [exact E|].
      rewrite Forall_forall in *. intros z Hz.
      eapply le_of_trans; [exact E|]. auto.
Qed.

Lemma stable_sort_ascending l : ascending kcmp key (stable_sort cmp l).
Proof.
  unfold stable_sort.
  assert (H : forall acc, ascending kcmp key acc ->
            ascending kcmp key
              (fold_left (fun acc x => insert_last cmp x acc) l acc)).
  { induction l as [|x l IH]; intros acc Hacc; simpl; [exact Hacc|].
    apply IH, insert_last_ascending, Hacc. }
  apply H. constructor.
Qed.
End StrictCmpFacts.

(** A list that is already ascending is left as it is. *)
Section SortedInput.
Context {A : Type} (cmp : A -> A -> comparison).
Let R (a b : A) : Prop := le_of (cmp a b) = true.

Lemma insert_last_after x l :
  Forall (fun y => R y x) l -> insert_last cmp x l = l ++ [x].
Proof.
  induction 1 as [|y l Hy _ IH]; simpl; [trivial|].
  unfold R in Hy. now rewrite Hy, IH.
Qed.

Lemma fold_insert_last_sorted l acc :
  StronglySorted R (acc ++ l) ->
  fold_left (fun acc x => insert_last cmp x acc) l acc = acc ++ l.
Proof.
  revert acc. induction l as [|x l IH]; intros acc H; simpl.
  - now rewrite app_nil_r.
  - rewrite insert_last_after.
    + rewrite IH; rewrite <- app_assoc; [reflexivity|exact H].
    + clear IH. induction acc as [|y acc IHa]; [constructor|].
      simpl in H. inversion H as [|? ? Hs Hf]; subst.
      constructor; [|auto].
      rewrite Forall_forall in Hf. apply Hf, in_elt.
Qed.

Lemma stable_sort_sorted_input l :
  StronglySorted R l -> stable_sort cmp l = l.
Proof. intros H. apply (fold_insert_last_sorted l [] H). Qed.
End SortedInput.

Lemma StronglySorted_filter {A} (R : A -> A -> Prop) (f : A -> bool) l :
  StronglySorted R l -> StronglySorted R (filter f l).
Proof.
  induction 1 as [|x l Hl IH Hx]; simpl; [constructor|].
  destruct (f x); [|exact IH].
  constructor; [exact IH|].
  rewrite Forall_forall in *. intros y Hy.
  apply filter_In in Hy. apply Hx, Hy.
Qed.

Lemma StronglySorted_weaken {A} (R R' : A -> A -> Prop) l :
  (forall a b, In a l -> In b l -> R a b -> R' a b) ->
  StronglySorted R l -> StronglySorted R' l.
Proof.
  intros HR H. induction H as [|x l Hl IH Hx]; [constructor|].
  constructor.
  - apply IH. intros a b Ha Hb. apply HR; now right.
  - rewrite Forall_forall in *. intros y Hy.
    apply HR; [now left|now right|auto].
Qed.

Lemma StronglySorted_map {A B} (R : B -> B -> Prop) (f : A -> B) l :
  StronglySorted R (map f l) <-> StronglySorted (fun a b => R (f a) (f b)) l.
Proof.
  induction l as [|x l IH]; simpl; split; intros H;
    try constructor; inversion H; subst;
    try (apply IH; assumption);
    rewrite Forall_forall in *; intros y Hy.
  - match goal with H : forall _, In _ (map f l) -> _ |- _ =>
      apply H, in_map, Hy end.
  - apply in_map_iff in Hy. destruct Hy as [a [<- Ha]]. auto.
Qed.

(* ------------------------------------------------------------------ *)
(** ** Quarter-over-quarter change *)

Lemma str_inj a b : Py.str a = Py.str b -> a = b.
Proof.
  unfold Py.str. intros H. apply DecimalZ.to_int_inj.
  assert (N : forall z, NilZero.int_of_string
                          (NilZero.string_of_int (Z.to_int z))
                        = Some (Z.to_int z)).
  { intros z. apply NilZero.isi; destruct z; simpl; try discriminate;
      intros [= E]; now apply DecimalPos.Unsigned.to_uint_nonnil in E. }
  pose proof (N a) as Ha. rewrite H, N in Ha. now injection Ha.
Qed.

Lemma str_eqb a b : String.eqb (Py.str a) (Py.str b) = Z.eqb a b.
Proof.
  destruct (Z.eqb_spec a b) as [->|N].
  - apply String.eqb_refl.
  - apply String.eqb_neq. intros H. apply N, str_inj, H.
Qed.

Lemma last_waste_same seen d w : last_waste ((d, w) :: seen) d = Some w.
Proof. unfold last_waste. simpl. now rewrite Z.eqb_refl. Qed.

Lemma last_waste_other seen d d' w :
  Z.eqb d' d = false -> last_waste ((d', w) :: seen) d = last_waste seen d.
Proof. unfold last_waste. simpl. now intros ->. Qed.

Lemma with_change_agg seen rows :
  map agg (with_change_and_status seen rows) = map fst rows.
Proof.
  revert seen. unfold with_change_and_status.
  induction rows as [|r rows IH]; intros seen; simpl; [trivial|].
  now rewrite IH.
Qed.

(** Within the rows of one distributor, each row's change is computed from
    the row before it. *)
Lemma with_change_chained d seen rows :
  chained (last_waste seen d)
    (filter (fun r => Z.eqb (RiskRouter.dq_id r) d)
            (with_change_and_status seen rows)).
Proof.
  revert seen. unfold with_change_and_status.
  induction rows as [|r rows IH]; intros seen; simpl; [trivial|].
  unfold RiskRouter.dq_id at 1. simpl.
  destruct (Z.eqb (agg_Distributor_ID (fst r)) d) eqn:E; simpl.
  - apply Z.eqb_eq in E. subst d. split; [reflexivity|].
    rewrite <- (last_waste_same seen (agg_Distributor_ID (fst r))
                  (total_waste (fst r))).
    apply IH.
  - rewrite <- (last_waste_other seen d _ (total_waste (fst r)) E).
    apply IH.
Qed.

Lemma chained_next prev rows i p r :
  chained prev rows ->
  nth_error rows i = Some p -> nth_error rows (S i) = Some r ->
  pct_change_Wastes_from_last_quarter r
  = round2 ((total_waste (agg r) / total_waste (agg p) - 1) * 100).
Proof.
  revert prev i. induction rows as [|x rows IH]; intros prev i H Hp Hr.
  - destruct i; discriminate.
  - destruct H as [_ H]. destruct i as [|i]; simpl in Hp, Hr.
    + injection Hp as ->. destruct rows as [|y rows]; [discriminate|].
      injection Hr as ->. apply H.
    + eapply IH; eassumption.
Qed.

Lemma table_ascending df :
  ascending (pair_cmp Z.compare (pair_cmp Z.compare String.compare))
            (fun r => time_key (agg r))
            (build_distributor_quarter_df df).
Proof.
  unfold build_distributor_quarter_df, ascending.
  set (with_pct := combine _ _).
  apply (StronglySorted_map
           (fun a b => le_of (pair_cmp Z.compare
                                (pair_cmp Z.compare String.compare)
                                (time_key a) (time_key b)) = true) agg).
  rewrite with_change_agg.
  apply StronglySorted_map.
  exact (stable_sort_ascending
           (pair_cmp Z.compare (pair_cmp Z.compare String.compare))
           (fun r : AggRow * float => time_key (fst r)) with_pct).
Qed.

(** The rows of one distributor, in table order, ascend by year and
    quarter. *)
Lemma distributor_rows_ascending df d :
  StronglySorted (fun a b => le_of (RiskRouter.quarter_cmp a b) = true)
    (filter (fun r => Z.eqb (RiskRouter.dq_id r) d)
            (build_distributor_quarter_df df)).
Proof.
  eapply StronglySorted_weaken;
    [|apply StronglySorted_filter, (table_ascending df)].
  intros a b Ha Hb. apply filter_In in Ha, Hb.
  destruct Ha as [_ Ha], Hb as [_ Hb].
  apply Z.eqb_eq in Ha, Hb. unfold RiskRouter.dq_id in Ha, Hb.
  unfold pair_cmp at 1, time_key, RiskRouter.quarter_cmp. simpl.
  rewrite Ha, Hb, Z.compare_refl. simpl. trivial.
Qed.

Lemma distributor_trend_rows df d :
  let rows := filter (fun r => Z.eqb (RiskRouter.dq_id r) d)
                     (build_distributor_quarter_df df) in
  rows <> [] ->
  RiskRouter.distributor_trend (build_distributor_quarter_df df) (Py.str d)
  = Py.Returned (Py.str d, map RiskRouter.trend_point rows).
Proof.
  intros rows Hne. unfold RiskRouter.distributor_trend.
  rewrite (filter_ext _ (fun r => Z.eqb (RiskRouter.dq_id r) d))
    by (intros r; apply str_eqb).
  fold rows.
  rewrite (stable_sort_sorted_input RiskRouter.quarter_cmp rows)
    by apply distributor_rows_ascending.
  destruct rows; [contradiction|reflexivity].
Qed.

(** C3.  For every distributor, its rows of the table, taken in table order,
    ascend by (year, quarter); the first of them has a NaN change, which the
    trend end point serializes as an explicit null; every later one carries
    [(waste_t / waste_{t-1} - 1) * 100] rounded to 2 decimals, [waste_{t-1}]
    being the total of the row just before it; and, on data whose records
    all carry their distributor id and their year (the two columns are then
    integer columns, printed as the end point is modelled), the trend end
    point called with the text of the id reports exactly these rows in this
    order. *)
Theorem C3_quarter_over_quarter_change (df : list RawRecord) (d : Z) :
  let table := build_distributor_quarter_df df in
  let rows := filter (fun r => Z.eqb (RiskRouter.dq_id r) d) table in
  StronglySorted (fun a b => le_of (RiskRouter.quarter_cmp a b) = true) rows
  /\ (forall r, nth_error rows 0 = Some r ->
        isna (pct_change_Wastes_from_last_quarter r) = true
        /\ RiskRouter.tp_pct_change (RiskRouter.trend_point r) = None)
  /\ (forall i p r,
        nth_error rows i = Some p -> nth_error rows (S i) = Some r ->
        pct_change_Wastes_from_last_quarter r
        = round2 ((total_waste (agg r) / total_waste (agg p) - 1) * 100))
  /\ (Table.ids_present df = true -> Table.years_present df = true ->
      rows <> [] ->
      RiskRouter.distributor_trend table (Py.str d)
      = Py.Returned (Py.str d, map RiskRouter.trend_point rows)).
Proof.
  intros table rows.
  pose proof (with_change_chained d []
                (stable_sort row_cmp
                   (combine (aggregate df)
                      (pct_from_limit_column
                         (map total_waste_allowance (aggregate df))
                         (map total_waste (aggregate df)))))) as Hc.
  change (chained None rows) in Hc.
  split; [apply distributor_rows_ascending|].
  split; [|split].
  - intros r Hr. destruct rows as [|x rows']; [discriminate|].
    injection Hr as ->. destruct Hc as [Hc _].
    change (pct_change_Wastes_from_last_quarter r = nan) in Hc.
    unfold RiskRouter.trend_point. simpl. rewrite Hc. split; reflexivity.
  - intros i p r. apply (chained_next None rows i p r Hc).
  - intros _ _. apply distributor_trend_rows.
Qed.

(** On the sample: distributor 101 has a null first quarter and a change
    of 20 percent in the second. *)
Example C3_two_quarters_trend :
  RiskRouter.distributor_trend
    (build_distributor_quarter_df Samples.two_quarters) "101"
  = Py.Returned
      ("101"%string,
       [ RiskRouter.mkTrendPoint "2022 Q1" 1000 None "Very Good";
         RiskRouter.mkTrendPoint "2022 Q2" 1200 (Some 20) "Very Good" ]).
Proof. vm_compute. reflexivity. Qed.

(* ------------------------------------------------------------------ *)
(** ** The two-quarter comparison *)

Section UniqueKeys.
Context {K : Type} (kcmp : K -> K -> comparison) `{!StrictCmp kcmp}.

Lemma insert_unique_in x y l :
  In y (insert_unique kcmp x l) <-> y = x \/ In y l.
Proof.
  induction l as [|z l IH]; simpl; [intuition|].
  destruct (kcmp x z) eqn:E; simpl.
  - apply cmp_eq in E. subst. intuition.
  - intuition.
  - rewrite IH. intuition.
Qed.

Lemma sorted_unique_in y l : In y (sorted_unique kcmp l) <-> In y l.
Proof.
  unfold sorted_unique.
  assert (H : forall acc,
            In y (fold_left (fun acc x => insert_unique kcmp x acc) l acc)
            <-> In y acc \/ In y l).
  { induction l as [|x l IH]; intros acc; simpl; [intuition|].
    rewrite IH, insert_unique_in. intuition. }
  rewrite H. simpl. intuition.
Qed.
End UniqueKeys.

Lemma flat_map_nil {A B} (f : A -> list B) l :
  flat_map f l = [] <-> forall x, In x l -> f x = [].
Proof.
  induction l as [|a l IH]; simpl; [intuition|].
  split.
  - intros H. apply app_eq_nil in H. destruct H as [Ha Hl].
    intros x [<-|Hx]; [exact Ha|]. now apply IH.
  - intros H. rewrite (H a) by now left. simpl. apply IH. auto.
Qed.

(** The outer join is empty exactly when both sides are. *)
Lemma merge_outer_nil l r :
  RiskRouter.merge_outer l r = [] <-> l = [] /\ r = [].
Proof.
  split.
  - unfold RiskRouter.merge_outer. rewrite flat_map_nil. intros H.
    assert (N : forall x, In x (l ++ r) -> False).
    { intros x Hx.
      specialize (H (RiskRouter.dq_id x)).
      rewrite (sorted_unique_in Z.compare), <- map_app in H.
      specialize (H (in_map _ _ _ Hx)).
      set (same := fun r0 => Z.eqb (RiskRouter.dq_id r0) (RiskRouter.dq_id x))
        in H.
      assert (Hs : In x (filter same l) \/ In x (filter same r)).
      { rewrite !filter_In. unfold same. rewrite Z.eqb_refl.
        apply in_app_or in Hx. tauto. }
      destruct (filter same l) as [|a fl], (filter same r) as [|b fr];
        simpl in H; try discriminate; destruct Hs as [[]|[]]. }
    destruct l as [|a l]; [|destruct (N a); now left].
    destruct r as [|b r]; [auto|destruct (N b); now left].
  - intros [-> ->]. reflexivity.
Qed.

(** C5.  With two distinct quarter labels: when no row of the table is in
    the requested state the call fails with the 404 "not found" error; when
    rows are, the labels parse and the outer join of the two quarter subsets
    (restricted to the chosen distributors) is empty, the call returns the
    empty comparison list; and that join is empty exactly when both subsets
    are. *)
Theorem C5_not_found_or_empty_comparison (dq : list DQRow)
    (state quarter_a quarter_b distributor_1 : string)
    (distributor_2 : option string) :
  quarter_a <> quarter_b ->
  let in_state :=
    filter (fun r => String.eqb (RiskRouter.dq_state r) state) dq in
  let distributors := RiskRouter.chosen distributor_1 distributor_2 in
  (in_state = [] ->
   RiskRouter.quarter_comparison dq state quarter_a quarter_b
     distributor_1 distributor_2
   = Py.HTTPException 404 "No data for selected state")
  /\ (forall y1 q1 y2 q2,
        in_state <> [] ->
        RiskRouter.parse_quarter quarter_a = Some (y1, q1) ->
        RiskRouter.parse_quarter quarter_b = Some (y2, q2) ->
        let df_q1 := RiskRouter.quarter_rows dq state y1 q1 distributors in
        let df_q2 := RiskRouter.quarter_rows dq state y2 q2 distributors in
        (RiskRouter.merge_outer df_q1 df_q2 = []
         <-> df_q1 = [] /\ df_q2 = [])
        /\ (RiskRouter.merge_outer df_q1 df_q2 = [] ->
            RiskRouter.quarter_comparison dq state quarter_a quarter_b
              distributor_1 distributor_2
            = Py.Returned (RiskRouter.mkComparison None []))).
Proof.
  intros Hne in_state distributors. split.
  - intros H. unfold RiskRouter.quarter_comparison. fold in_state.
    now rewrite H.
  - intros y1 q1 y2 q2 Hs Ha Hb df_q1 df_q2.
    split; [apply merge_outer_nil|].
    intros Hm. unfold RiskRouter.quarter_comparison. fold in_state.
    destruct in_state; [contradiction|].
    rewrite Ha, Hb.
    apply String.eqb_neq in Hne. rewrite Hne.
    fold distributors df_q1 df_q2. now rewrite Hm.
Qed.

Lemma C5_not_found_or_empty_comparison_witness :
  RiskRouter.quarter_comparison
    (build_distributor_quarter_df Samples.two_quarters)
    "TX" "2021 Q1" "2021 Q2" "101" None
  = Py.Returned (RiskRouter.mkComparison None [])
  /\ RiskRouter.quarter_comparison
       (build_distributor_quarter_df Samples.two_quarters)
       "ZZ" "2021 Q1" "2021 Q2" "101" None
     = Py.HTTPException 404 "No data for selected state".
Proof.
  split.
  - apply (C5_not_found_or_empty_comparison
             (build_distributor_quarter_df Samples.two_quarters)
             "TX" "2021 Q1" "2021 Q2" "101" None
             ltac:(discriminate))
      with (y1 := 2021%Z) (q1 := "Q1"%string) (y2 := 2021%Z)
           (q2 := "Q2"%string);
      [vm_compute; discriminate|reflexivity|reflexivity|reflexivity].
  - apply (C5_not_found_or_empty_comparison
             (build_distributor_quarter_df Samples.two_quarters)
             "ZZ" "2021 Q1" "2021 Q2" "101" None
             ltac:(discriminate)).
    reflexivity.
Defined.

(** In the same-quarter case the response never has more than one entry:
    the entry of the first selected row, compared with itself. *)
Lemma same_quarter_single_entry (dq : list DQRow)
    (state quarter distributor_1 : string) (distributor_2 : option string)
    (resp : RiskRouter.Comparison) :
  RiskRouter.quarter_comparison dq state quarter quarter
    distributor_1 distributor_2 = Py.Returned resp ->
  RiskRouter.comparison resp = []
  \/ exists base,
       RiskRouter.comparison resp = [RiskRouter.same_quarter_entry base]
       /\ In base dq.
Proof.
  unfold RiskRouter.quarter_comparison.
  destruct (filter _ dq); [discriminate|].
  destruct (RiskRouter.parse_quarter quarter) as [[y q]|]; [|discriminate].
  rewrite String.eqb_refl.
  destruct (RiskRouter.quarter_rows dq state y q _) as [|base rows] eqn:E;
    intros [= <-]; [now left|right].
  exists base. split; [reflexivity|].
  assert (H : In base (RiskRouter.quarter_rows dq state y q
                         (RiskRouter.chosen distributor_1 distributor_2)))
    by (rewrite E; now left).
  unfold RiskRouter.quarter_rows in H.
  now apply filter_In, proj1, filter_In, proj1, filter_In, proj1 in H.
Qed.

(** C4, on the code: distributors 101 and 102 both have a row for Texas in
    2022 Q1, both are selected, and the self-comparison of that quarter
    answers with the entry of 101 alone. *)
Theorem C4_same_quarter_reports_first_row_only :
  let table := build_distributor_quarter_df Samples.two_quarters in
  map RiskRouter.dq_id
      (RiskRouter.quarter_rows table "TX" 2022 "Q1"
         (RiskRouter.chosen "101" (Some "102"%string)))
  = [101%Z; 102%Z]
  /\ RiskRouter.quarter_comparison table "TX" "2022 Q1" "2022 Q1"
       "101" (Some "102"%string)
     = Py.Returned
         (RiskRouter.mkComparison
            (Some ("TX", "2022 Q1", "2022 Q1")%string)
            [RiskRouter.mkEntry 101 1000 1000 0 arrow_flat
               "Very Good → Very Good"]).
Proof. split; vm_compute; reflexivity. Qed.

(* ------------------------------------------------------------------ *)
(** ** Alerts: deduplication and summary *)

Import AlertsRouter.

#[local] Instance flip_StrictCmp {A} (cmp : A -> A -> comparison)
    `{!StrictCmp cmp} : StrictCmp (fun x y => cmp y x).
Proof.
  split.
  - intros x y H. symmetry. now apply cmp_eq.
  - intros x. apply cmp_refl.
  - intros x y. apply (cmp_antisym (cmp := cmp)).
  - intros x y z H1 H2. eapply cmp_lt_trans; eassumption.
Qed.

Lemma outranks_le_of a b : le_of (priority_cmp a b) = true <-> outranks a b.
Proof.
  unfold priority_cmp, outranks, le_of.
  destruct (Z.compare_spec (priority (severity b)) (priority (severity a)));
    split; intros; try lia; try reflexivity; discriminate.
Qed.

Lemma sort_by_priority_descending l :
  StronglySorted outranks (stable_sort priority_cmp l).
Proof.
  eapply StronglySorted_weaken;
    [|exact (stable_sort_ascending (fun x y => Z.compare y x)
               (fun a => priority (severity a)) l)].
  intros a b _ _. apply outranks_le_of.
Qed.

Lemma existsb_eqb_in d seen : existsb (Z.eqb d) seen = true <-> In d seen.
Proof.
  rewrite existsb_exists. split.
  - intros [x [Hx E]]. apply Z.eqb_eq in E. now subst.
  - intros H. exists d. now rewrite Z.eqb_refl.
Qed.

(** Of each distributor not met before, [drop_duplicates] keeps the first
    row and nothing else. *)
Lemma drop_duplicates_keeps_first d seen l :
  filter (fun a => Z.eqb (distributor_id a) d) (drop_duplicates seen l)
  = if existsb (Z.eqb d) seen then []
    else match find (fun a => Z.eqb (distributor_id a) d) l with
         | Some a => [a]
         | None => []
         end.
Proof.
  revert seen. induction l as [|a l IH]; intros seen; simpl.
  - now destruct (existsb (Z.eqb d) seen).
  - destruct (Z.eqb_spec (distributor_id a) d) as [E|E].
    + subst d. destruct (existsb (Z.eqb (distributor_id a)) seen) eqn:S.
      * now rewrite IH, S.
      * simpl. rewrite Z.eqb_refl, IH. simpl. now rewrite Z.eqb_refl.
    + destruct (existsb (Z.eqb (distributor_id a)) seen) eqn:S.
      * apply IH.
      * simpl. apply Z.eqb_neq in E as E'. rewrite E', IH. simpl.
        replace (Z.eqb d (distributor_id a)) with false; [reflexivity|].
        symmetry. apply Z.eqb_neq. congruence.
Qed.

Lemma drop_duplicates_incl seen l a :
  In a (drop_duplicates seen l) -> In a l.
Proof.
  revert seen. induction l as [|x l IH]; intros seen; simpl; [tauto|].
  destruct (existsb _ seen); simpl; [eauto|].
  intros [H|H]; eauto.
Qed.

Lemma drop_duplicates_fresh seen l a :
  In a (drop_duplicates seen l) -> ~ In (distributor_id a) seen.
Proof.
  revert seen. induction l as [|x l IH]; intros seen; simpl; [tauto|].
  destruct (existsb _ seen) eqn:S; simpl; [eauto|].
  intros [<-|H].
  - rewrite <- existsb_eqb_in, S. discriminate.
  - intros N. apply (IH _ H). now right.
Qed.

Lemma drop_duplicates_nodup seen l :
  NoDup (map distributor_id (drop_duplicates seen l)).
Proof.
  revert seen. induction l as [|x l IH]; intros seen; simpl; [constructor|].
  destruct (existsb _ seen); simpl; [apply IH|].
  constructor; [|apply IH].
  intros H. apply in_map_iff in H. destruct H as [a [E H]].
  apply drop_duplicates_fresh in H. apply H. rewrite E. now left.
Qed.

Lemma find_first_outranks f l a :
  StronglySorted outranks l -> find f l = Some a ->
  In a l /\ f a = true
  /\ forall b, In b l -> f b = true -> outranks a b.
Proof.
  induction 1 as [|x l Hl IH Hx]; simpl; [discriminate|].
  destruct (f x) eqn:E.
  - intros [= <-]. repeat split; auto.
    intros b [<-|Hb] _; [unfold outranks; lia|].
    rewrite Forall_forall in Hx. auto.
  - intros H. destruct (IH H) as (Ha & Hf & Hm). repeat split; auto.
    intros b [<-|Hb] Hb'; [congruence|auto].
Qed.

(** Whatever order the sort leaves among alerts of equal priority, the row
    kept for a distributor is one of its highest-priority alerts. *)
Lemma dedup_any_descending_order (all sorted : list Alert) (d : Z) :
  Permutation sorted all -> StronglySorted outranks sorted ->
  In d (map distributor_id all) ->
  exists a,
    filter (fun x => Z.eqb (distributor_id x) d) (drop_duplicates [] sorted)
    = [a]
    /\ In a all /\ distributor_id a = d
    /\ forall b, In b all -> distributor_id b = d -> outranks a b.
Proof.
  intros P S Hd. rewrite drop_duplicates_keeps_first. simpl.
  destruct (find (fun a => Z.eqb (distributor_id a) d) sorted) as [a|] eqn:F.
  - destruct (find_first_outranks _ _ _ S F) as (Ha & Hf & Hm).
    exists a. repeat split.
    + eapply Permutation_in; eassumption.
    + now apply Z.eqb_eq.
    + intros b Hb E. apply Hm.
      * eapply Permutation_in; [symmetry|]; eassumption.
      * now apply Z.eqb_eq.
  - exfalso. apply in_map_iff in Hd. destruct Hd as [b [E Hb]].
    assert (N : Z.eqb (distributor_id b) d = false).
    { apply (find_none _ _ F b).
      eapply Permutation_in; [symmetry|]; eassumption. }
    rewrite E, Z.eqb_refl in N. discriminate.
Qed.

(** C6.  Every distributor with at least one alert before deduplication has
    exactly one alert in the deduplicated list; it is one of that
    distributor's own alerts, and no alert of the distributor has a higher
    priority (HIGH 3, MEDIUM 2, LOW 1), so its severity is the distributor's
    maximum-priority severity. *)
Theorem C6_one_highest_alert_per_distributor (all : list Alert) (d : Z) :
  In d (map distributor_id all) ->
  exists a,
    filter (fun x => Z.eqb (distributor_id x) d) (deduplicate all) = [a]
    /\ In a all /\ distributor_id a = d
    /\ forall b, In b all -> distributor_id b = d ->
         (priority (severity b) <= priority (severity a))%Z.
Proof.
  apply dedup_any_descending_order.
  - apply stable_sort_perm.
  - apply sort_by_priority_descending.
Qed.

Lemma C6_one_highest_alert_per_distributor_witness :
  exists a,
    filter (fun x => Z.eqb (distributor_id x) 101)
           (deduplicate (raise_alerts Samples.alerting)) = [a]
    /\ severity a = HIGH.
Proof.
  destruct (C6_one_highest_alert_per_distributor
              (raise_alerts Samples.alerting) 101) as (a & Ha & _).
  - vm_compute. auto.
  - exists a. split; [exact Ha|].
    vm_compute in Ha. injection Ha as <-. reflexivity.
Defined.

Lemma nunique_nodup l : nunique l = List.length (nodup Z.eq_dec l).
Proof.
  induction l as [|x l IH]; simpl; [trivial|].
  destruct (in_dec Z.eq_dec x l) as [H|H].
  - apply existsb_eqb_in in H. now rewrite H.
  - destruct (existsb (Z.eqb x) l) eqn:E.
    + apply existsb_eqb_in in E. contradiction.
    + simpl. now rewrite IH.
Qed.

Lemma nodup_filter_map {A} (f : A -> Z) (p : A -> bool) l :
  NoDup (map f l) -> NoDup (map f (filter p l)).
Proof.
  induction l as [|x l IH]; simpl; [trivial|].
  intros H. inversion H as [|? ? Hx Hl]; subst.
  destruct (p x); simpl; [|auto].
  constructor; [|auto].
  intros N. apply Hx. apply in_map_iff in N. destruct N as [a [E Ha]].
  apply filter_In in Ha. rewrite <- E. apply in_map, Ha.
Qed.

Lemma filter_filter_length {A} (p q : A -> bool) l :
  (List.length (filter p (filter q l)) <= List.length (filter p l))%nat.
Proof.
  induction l as [|x l IH]; simpl; [lia|].
  destruct (q x); simpl; destruct (p x); simpl; lia.
Qed.

(** After deduplication a severity holds no more alerts than the distinct
    distributors it held before. *)
Lemma deduplicated_bucket_bound (all : list Alert) (s : Severity) :
  (List.length (bucket s (deduplicate all))
   <= nunique (map distributor_id (bucket s all)))%nat.
Proof.
  rewrite nunique_nodup, <- (length_map distributor_id).
  apply NoDup_incl_length.
  - apply nodup_filter_map, drop_duplicates_nodup.
  - intros x Hx. apply nodup_In.
    apply in_map_iff in Hx. destruct Hx as [a [<- Ha]].
    apply filter_In in Ha. destruct Ha as [Ha Hs].
    apply in_map, filter_In. split; [|exact Hs].
    apply drop_duplicates_incl, stable_sort_in in Ha. exact Ha.
Qed.

(** What a successful call returns: the summary of all raised alerts, and
    a filtered part of the deduplicated list. *)
Lemma get_alerts_returned df sev dist st r :
  get_alerts df sev dist st = Py.Returned r ->
  summary r = summarize (raise_alerts df)
  /\ forall s,
       (List.length (bucket s (alerts r))
        <= List.length (bucket s (deduplicate (raise_alerts df))))%nat.
Proof.
  unfold get_alerts.
  destruct (raise_alerts df) as [|a0 rest] eqn:E; [discriminate|].
  set (all := a0 :: rest).
  set (by_sev := if negb (String.eqb (Py.upper sev) "ALL") then _ else _).
  assert (Hsev : forall s, (List.length (bucket s by_sev)
                            <= List.length (bucket s (deduplicate all)))%nat).
  { intros s. unfold by_sev.
    destruct (negb (String.eqb (Py.upper sev) "ALL")); [|lia].
    apply filter_filter_length. }
  assert (Hst : forall s l,
             (List.length
                (bucket s (if negb (String.eqb st "ALL")
                           then filter (fun a => String.eqb (state a) st) l
                           else l))
              <= List.length (bucket s l))%nat).
  { intros s l. destruct (negb (String.eqb st "ALL")); [|lia].
    apply filter_filter_length. }
  destruct (negb (String.eqb dist "ALL")).
  - destruct (Py.int dist) as [d|]; [|discriminate].
    intros [= <-]. simpl. split; [reflexivity|].
    intros s. etransitivity; [apply Hst|].
    etransitivity; [apply filter_filter_length|apply Hsev].
  - intros [= <-]. simpl. split; [reflexivity|].
    intros s. etransitivity; [apply Hst|apply Hsev].
Qed.

(** C7.  The summary of a successful call counts, for each severity, the
    distinct distributors among all alerts raised before deduplication; that
    count is at least the number of alerts of the severity in the
    deduplicated list, and in the returned list; and every successful call
    on the same data returns the same summary, whatever its severity,
    distributor and state arguments. *)
Theorem C7_summary_counts_before_deduplication (df : list RawRecord)
    (severity_arg distributor_arg state_arg : string) (r : AlertsResponse) :
  get_alerts df severity_arg distributor_arg state_arg = Py.Returned r ->
  (forall s,
     count_of s (summary r)
     = List.length (nodup Z.eq_dec
                      (map distributor_id (bucket s (raise_alerts df)))))
  /\ (forall s,
        (List.length (bucket s (deduplicate (raise_alerts df)))
         <= count_of s (summary r))%nat)
  /\ (forall s,
        (List.length (bucket s (alerts r)) <= count_of s (summary r))%nat)
  /\ (forall severity_arg' distributor_arg' state_arg' r',
        get_alerts df severity_arg' distributor_arg' state_arg'
        = Py.Returned r' ->
        summary r' = summary r).
Proof.
  intros H. destruct (get_alerts_returned _ _ _ _ _ H) as [Hs Hl].
  assert (Hc : forall s, count_of s (summary r)
                         = nunique (map distributor_id
                                      (bucket s (raise_alerts df)))).
  { intros s. rewrite Hs. now destruct s. }
  repeat split.
  - intros s. rewrite Hc. apply nunique_nodup.
  - intros s. rewrite Hc. apply deduplicated_bucket_bound.
  - intros s. etransitivity; [apply Hl|].
    rewrite Hc. apply deduplicated_bucket_bound.
  - intros s' d' st' r' H'.
    destruct (get_alerts_returned _ _ _ _ _ H') as [Hs' _]. congruence.
Qed.

Lemma C7_summary_counts_before_deduplication_witness :
  let r := mkResponse (mkSummary 1 1 2)
             [mkAlert HIGH "Waste Threshold Exceeded" (ExceededBy 150)
                101 "TX" "Stale Inventory" "Recent"] in
  get_alerts Samples.alerting "high" "101" "ALL" = Py.Returned r
  /\ forall s,
       (List.length (bucket s (deduplicate (raise_alerts Samples.alerting)))
        <= count_of s (summary r))%nat.
Proof.
  intros r.
  assert (H : get_alerts Samples.alerting "high" "101" "ALL" = Py.Returned r)
    by (vm_compute; reflexivity).
  split; [exact H|].
  apply (C7_summary_counts_before_deduplication Samples.alerting
           "high" "101" "ALL" r H).
Defined.

(* ------------------------------------------------------------------ *)
(** ** Rounding to nearest: the square root of a square

    From the specification of the binary64 operations: the product of two
    53-bit mantissas is shifted and rounded to nearest, and the correctly
    rounded square root of the rounded square of a normal number is that
    number.  So is the quotient of a finite number by itself 1. *)

Module RoundToNearest.
Local Open Scope Z_scope.

(** Digits *)
Lemma digits2_pos_bounds p :
  2 ^ (Z.pos (digits2_pos p) - 1) <= Z.pos p < 2 ^ Z.pos (digits2_pos p).
Proof.
  induction p as [p IH|p IH|]; cbn [digits2_pos].
  - rewrite Pos2Z.inj_succ.
    replace (Z.succ (Z.pos (digits2_pos p)) - 1)
      with (Z.succ (Z.pos (digits2_pos p) - 1)) by lia.
    rewrite !Z.pow_succ_r by lia. lia.
  - rewrite Pos2Z.inj_succ.
    replace (Z.succ (Z.pos (digits2_pos p)) - 1)
      with (Z.succ (Z.pos (digits2_pos p) - 1)) by lia.
    rewrite !Z.pow_succ_r by lia. lia.
  - simpl. lia.
Qed.

Lemma Zdigits2_unique n k :
  0 < k -> 2 ^ (k - 1) <= n < 2 ^ k -> Zdigits2 n = k.
Proof.
  intros Hk [H1 H2].
  assert (Hn : 0 < n) by (pose proof (Z.pow_pos_nonneg 2 (k - 1)); lia).
  destruct n as [|p|p]; try lia. cbn [Zdigits2].
  pose proof (digits2_pos_bounds p) as [B1 B2].
  set (d := Z.pos (digits2_pos p)) in *.
  assert (Hd : 0 < d) by (unfold d; lia).
  destruct (Z.lt_trichotomy d k) as [L|[E|G]]; [exfalso|exact E|exfalso].
  - assert (2 ^ d <= 2 ^ (k - 1)) by (apply Z.pow_le_mono_r; lia). lia.
  - assert (2 ^ k <= 2 ^ (d - 1)) by (apply Z.pow_le_mono_r; lia). lia.
Qed.

(** Shifts *)
Lemma iter_pos_nat {A} (f : A -> A) p x :
  iter_pos f p x = Nat.iter (Pos.to_nat p) f x.
Proof.
  revert x. induction p as [p IH|p IH|]; intros x; cbn [iter_pos].
  - rewrite !IH, Pos2Nat.inj_xI.
    replace (S (2 * Pos.to_nat p))%nat
      with (Pos.to_nat p + (Pos.to_nat p + 1))%nat by lia.
    rewrite !Nat.iter_add. reflexivity.
  - rewrite !IH, Pos2Nat.inj_xO.
    replace (2 * Pos.to_nat p)%nat
      with (Pos.to_nat p + Pos.to_nat p)%nat by lia.
    rewrite Nat.iter_add. reflexivity.
  - reflexivity.
Qed.

Lemma shr_1_halves mrs :
  0 <= shr_m mrs ->
  0 <= shr_m (shr_1 mrs)
  /\ shr_m mrs = 2 * shr_m (shr_1 mrs) + b2z (shr_r (shr_1 mrs))
  /\ shr_s (shr_1 mrs) = shr_r mrs || shr_s mrs.
Proof.
  destruct mrs as [q r s]. cbn [shr_m].
  destruct q as [|[p|p|]|p]; cbn [shr_1 shr_m shr_r shr_s b2z];
    intros H; repeat split; try reflexivity; lia.
Qed.

Lemma shr_1_shifted m n mrs :
  0 <= n -> shifted m n mrs -> shifted m (n + 1) (shr_1 mrs).
Proof.
  unfold shifted. intros Hn [Hq [t (Ht & E & Hs)]].
  destruct (shr_1_halves mrs Hq) as (Hq' & Eq & Es).
  split; [exact Hq'|].
  rewrite Z.pow_add_r, Z.pow_1_r by lia.
  assert (P : 0 < 2 ^ n) by (apply Z.pow_pos_nonneg; lia).
  exists (b2z (shr_r mrs) * 2 ^ n + t).
  assert (B : 0 <= b2z (shr_r mrs) <= 1)
    by (destruct (shr_r mrs); cbn [b2z]; lia).
  split; [nia|]. split; [rewrite E, Eq; ring|].
  rewrite Es. destruct (shr_r mrs); cbn [orb b2z].
  - split; [intros _; lia|reflexivity].
  - rewrite Hs. split; intros H; lia.
Qed.

Lemma iter_shr_1_shifted m n k mrs :
  0 <= n -> shifted m n mrs ->
  shifted m (n + Z.of_nat k) (Nat.iter k shr_1 mrs).
Proof.
  intros Hn H. induction k as [|k IH].
  - now rewrite Z.add_0_r.
  - rewrite Nat2Z.inj_succ. cbn [Nat.iter].
    replace (n + Z.succ (Z.of_nat k)) with (n + Z.of_nat k + 1) by lia.
    apply shr_1_shifted; [lia|exact IH].
Qed.

Lemma shifted_exact m : 0 <= m -> shifted m 0 (shr_record_of_loc m loc_Exact).
Proof.
  intros H. split; [exact H|]. exists 0. cbn.
  repeat split; try lia; try discriminate.
Qed.

(** Rounding to nearest after a shift by [n]: within half a unit. *)
Lemma round_shifted m n mrs :
  0 <= n -> shifted m n mrs ->
  let r := round_nearest_even (shr_m mrs) (loc_of_shr_record mrs) in
  shr_m mrs <= r <= shr_m mrs + 1
  /\ Z.abs (2 * r * 2 ^ n - 2 * m) <= 2 ^ n
  /\ (2 * m = 2 * shr_m mrs * 2 ^ n -> r = shr_m mrs).
Proof.
  intros Hn [Hq [t (Ht & E & Hs)]] r. subst r.
  assert (P : 0 < 2 ^ n) by (apply Z.pow_pos_nonneg; lia).
  destruct mrs as [q [] []]; cbn [shr_m shr_r shr_s b2z
    loc_of_shr_record round_nearest_even] in *.
  - assert (t <> 0) by (now apply Hs). split; [lia|]. split; [nia|nia].
  - assert (t = 0).
    { destruct (Z.eq_dec t 0); [assumption|].
      assert (C : false = true) by (now apply Hs). discriminate. }
    subst t. destruct (Z.even q); split; try lia; split; nia.
  - assert (t <> 0) by (now apply Hs). split; [lia|]. split; [nia|nia].
  - assert (t = 0).
    { destruct (Z.eq_dec t 0); [assumption|].
      assert (C : false = true) by (now apply Hs). discriminate. }
    subst t. split; [lia|]. split; [nia|nia].
Qed.

Lemma Zdigits2_le n k : 0 <= k -> 0 <= n < 2 ^ k -> Zdigits2 n <= k.
Proof.
  intros Hk [H1 H2]. destruct n as [|p|p]; cbn [Zdigits2]; try lia.
  pose proof (digits2_pos_bounds p) as [B1 _].
  set (d := Z.pos (digits2_pos p)) in *.
  destruct (Z.le_gt_cases d k) as [L|G]; [exact L|exfalso].
  assert (2 ^ k <= 2 ^ (d - 1)) by (apply Z.pow_le_mono_r; lia). lia.
Qed.

Lemma loc_of_record_of_loc m l :
  loc_of_shr_record (shr_record_of_loc m l) = l.
Proof. destruct l as [|[]]; reflexivity. Qed.

Lemma shr_m_record_of_loc m l : shr_m (shr_record_of_loc m l) = m.
Proof. destruct l as [|[]]; reflexivity. Qed.

Lemma shr_fexp_noshift m e l :
  0 <= m < 2 ^ 53 -> -1074 <= e ->
  shr_fexp prec emax m e l = (shr_record_of_loc m l, e).
Proof.
  intros Hm He. unfold shr_fexp, shr.
  pose proof (Zdigits2_le m 53 ltac:(lia) Hm) as Hd.
  assert (N : fexp prec emax (Zdigits2 m + e) - e <= 0).
  { unfold fexp, SpecFloat.emin, prec, emax. lia. }
  destruct (fexp prec emax (Zdigits2 m + e) - e); try reflexivity. lia.
Qed.

(** Rounding a mantissa that needs no shift. *)
Lemma binary_round_aux_noshift q e l (r : positive) :
  0 <= q < 2 ^ 53 -> -1074 <= e <= 971 ->
  round_nearest_even q l = Z.pos r -> Z.pos r < 2 ^ 53 ->
  binary_round_aux prec emax false q e l = S754_finite false r e.
Proof.
  intros Hq He Hr Hb. unfold binary_round_aux.
  rewrite (shr_fexp_noshift q e l Hq) by lia.
  cbv beta iota zeta.
  rewrite shr_m_record_of_loc, loc_of_record_of_loc, Hr.
  rewrite (shr_fexp_noshift (Z.pos r) e loc_Exact) by lia.
  cbv beta iota zeta. rewrite shr_m_record_of_loc.
  replace (e <=? emax - prec) with true; [reflexivity|].
  symmetry. apply Z.leb_le. unfold emax, prec. lia.
Qed.

(** Rounding a mantissa of [53 + n] digits: a shift by [n]. *)
Lemma binary_round_aux_shift mx ex n :
  0 < n -> Zdigits2 mx = 53 + n -> 0 < mx -> -1074 <= ex + n ->
  exists r : positive,
    2 ^ 52 <= Z.pos r <= 2 ^ 53
    /\ Z.abs (2 * Z.pos r * 2 ^ n - 2 * mx) <= 2 ^ n
    /\ (Z.pos r < 2 ^ 53 ->
        binary_round_aux prec emax false mx ex loc_Exact
        = if ex + n <=? 971 then S754_finite false r (ex + n)
          else S754_infinity false).
Proof.
  intros Hn Hd Hm He.
  assert (Hs : shr_fexp prec emax mx ex loc_Exact
               = (Nat.iter (Z.to_nat n) shr_1
                    (shr_record_of_loc mx loc_Exact), ex + n)).
  { unfold shr_fexp, shr. rewrite Hd.
    replace (fexp prec emax (53 + n + ex) - ex) with n
      by (unfold fexp, SpecFloat.emin, prec, emax; lia).
    destruct n as [|p|p]; try lia.
    now rewrite iter_pos_nat, Z2Nat.inj_pos. }
  pose proof (iter_shr_1_shifted mx 0 (Z.to_nat n) _ ltac:(lia)
                (shifted_exact mx ltac:(lia))) as S.
  rewrite Z2Nat.id, Z.add_0_l in S by lia.
  set (mrs := Nat.iter (Z.to_nat n) shr_1 (shr_record_of_loc mx loc_Exact))
    in *.
  destruct (round_shifted mx n mrs ltac:(lia) S) as (Hr1 & Hr2 & _).
  set (r := round_nearest_even (shr_m mrs) (loc_of_shr_record mrs)) in *.
  assert (P : 0 < 2 ^ n) by (apply Z.pow_pos_nonneg; lia).
  (* bounds of the digits of mx *)
  assert (Bm : 2 ^ (52 + n) <= mx < 2 ^ (53 + n)).
  { destruct mx as [|p|p]; try lia. cbn [Zdigits2] in Hd.
    pose proof (digits2_pos_bounds p) as B. rewrite Hd in B.
    replace (53 + n - 1) with (52 + n) in B by lia. exact B. }
  rewrite !Z.pow_add_r in Bm by lia.
  assert (Br : 2 ^ 52 <= r <= 2 ^ 53).
  { change (2 ^ 52) with 4503599627370496 in *.
    change (2 ^ 53) with 9007199254740992 in *.
    split; nia. }
  destruct r as [|rp|rp] eqn:Er; try (change (2 ^ 52) with 4503599627370496 in Br; lia).
  exists rp. split; [exact Br|]. split; [exact Hr2|].
  intros Hlt. unfold binary_round_aux. rewrite Hs.
  cbv beta iota zeta. fold r. rewrite Er.
  rewrite (shr_fexp_noshift (Z.pos rp) (ex + n) loc_Exact) by lia.
  cbv beta iota zeta. rewrite shr_m_record_of_loc. reflexivity.
Qed.

(** The square of a normal number. *)
Lemma mul_self (m : positive) (e : Z) :
  2 ^ 52 <= Z.pos m < 2 ^ 53 -> -563 <= e ->
  let y := SFmul prec emax (S754_finite false m e) (S754_finite false m e) in
  y = S754_infinity false
  \/ exists (M : positive) (n : Z),
       y = S754_finite false M (2 * e + n)
       /\ 2 ^ 52 <= Z.pos M < 2 ^ 53
       /\ 2 * e + n <= 971
       /\ Z.abs (2 * Z.pos M * 2 ^ n - 2 * (Z.pos m * Z.pos m)) <= 2 ^ n
       /\ (n = 52 \/ n = 53 /\ 2 ^ 105 <= Z.pos m * Z.pos m).
Proof.
  intros Hm He y. subst y. cbn [SFmul xorb].
  rewrite Pos2Z.inj_mul. set (P := Z.pos m * Z.pos m).
  replace (e + e) with (2 * e) by lia.
  change (2 ^ 52) with 4503599627370496 in *.
  change (2 ^ 53) with 9007199254740992 in *.
  assert (HP : 20282409603651670423947251286016 <= P
               <= 81129638414606663681390495662081) by (unfold P; nia).
  destruct (Z.lt_ge_cases P (2 ^ 105)) as [L|G].
  - assert (Hd : Zdigits2 P = 53 + 52).
    { apply Zdigits2_unique; [lia|]. simpl Z.sub.
      change (2 ^ 104) with 20282409603651670423947251286016.
      lia. }
    destruct (binary_round_aux_shift P (2 * e) 52 ltac:(lia) Hd ltac:(lia)
                ltac:(lia)) as (r & Br & Hr & Heq).
    change (2 ^ 52) with 4503599627370496 in *.
    change (2 ^ 53) with 9007199254740992 in *.
    change (2 ^ 105) with 40564819207303340847894502572032 in L.
    assert (Hc : Z.pos m <= 6369051672525772).
    { destruct (Z.le_gt_cases (Z.pos m) 6369051672525772) as [H|H];
        [exact H|exfalso].
      assert (6369051672525773 * 6369051672525773 <= P) by (unfold P; nia).
      lia. }
    assert (HP' : P <= 6369051672525772 * 6369051672525772)
      by (unfold P; nia).
    assert (Hlt : Z.pos r < 9007199254740992) by lia.
    rewrite (Heq Hlt).
    destruct (2 * e + 52 <=? 971) eqn:Ee; [right|now left].
    apply Z.leb_le in Ee.
    exists r, 52. repeat split; try lia.
  - assert (Hd : Zdigits2 P = 53 + 53).
    { apply Zdigits2_unique; [lia|]. simpl Z.sub.
      change (2 ^ 106) with 81129638414606681695789005144064.
      lia. }
    destruct (binary_round_aux_shift P (2 * e) 53 ltac:(lia) Hd ltac:(lia)
                ltac:(lia)) as (r & Br & Hr & Heq).
    change (2 ^ 52) with 4503599627370496 in *.
    change (2 ^ 53) with 9007199254740992 in *.
    assert (Hlt : Z.pos r < 9007199254740992) by lia.
    rewrite (Heq Hlt).
    destruct (2 * e + 53 <=? 971) eqn:Ee; [right|now left].
    apply Z.leb_le in Ee.
    exists r, 53. repeat split; try lia; auto.
Qed.

(** The root of the rounded square is the number itself. *)
Lemma sqrt_of_square (m M : positive) (e n : Z) :
  2 ^ 52 <= Z.pos m < 2 ^ 53 -> -563 <= e <= 971 ->
  2 ^ 52 <= Z.pos M < 2 ^ 53 ->
  Z.abs (2 * Z.pos M * 2 ^ n - 2 * (Z.pos m * Z.pos m)) <= 2 ^ n ->
  (n = 52 \/ n = 53 /\ 2 ^ 105 <= Z.pos m * Z.pos m) ->
  SFsqrt prec emax (S754_finite false M (2 * e + n)) = S754_finite false m e.
Proof.
  intros Hm He HM Habs Hn. cbn [SFsqrt]. unfold SFsqrt_core_binary.
  assert (HdM : Zdigits2 (Z.pos M) = 53).
  { apply Zdigits2_unique; [lia|]. change (53 - 1) with 52. exact HM. }
  rewrite HdM.
  assert (E1 : Z.div2 (2 * e + n) = e + 26)
    by (rewrite Z.div2_div; destruct Hn as [->|[-> _]];
        Z.div_mod_to_equations; lia).
  assert (E2 : Z.div2 (53 + (2 * e + n) + 1) = e + 53)
    by (rewrite Z.div2_div; destruct Hn as [->|[-> _]];
        Z.div_mod_to_equations; lia).
  rewrite E1, E2.
  replace (Z.min (fexp prec emax (e + 53)) (e + 26)) with e
    by (unfold fexp, SpecFloat.emin, prec, emax; lia).
  replace (2 * e + n - 2 * e) with n by lia.
  assert (Em : match n with
               | 0 => Z.pos M
               | Z.pos _ => Z.shiftl (Z.pos M) n
               | Z.neg _ => 0
               end = Z.pos M * 2 ^ n).
  { rewrite <- Z.shiftl_mul_pow2 by lia.
    destruct Hn as [->|[-> _]]; reflexivity. }
  rewrite Em. clear Em E1 E2.
  set (A := Z.pos M * 2 ^ n) in *.
  assert (Hclose : Z.abs (A - Z.pos m * Z.pos m) < Z.pos m).
  { change (2 ^ 52) with 4503599627370496 in *.
    change (2 ^ 53) with 9007199254740992 in *.
    destruct Hn as [->|[-> G]].
    - change (2 ^ 52) with 4503599627370496 in *. unfold A in *. 
      change (2 ^ 52) with 4503599627370496 in *. lia.
    - change (2 ^ 105) with 40564819207303340847894502572032 in G.
      assert (4503599627370496 < Z.pos m) by nia.
      unfold A in *.
      change (2 ^ 53) with 9007199254740992 in *. lia. }
  assert (HA : 0 <= A).
  { unfold A. destruct Hn as [->|[-> _]]; lia. }
  pose proof (Z.sqrtrem_spec A HA) as Hspec.
  destruct (Z.sqrtrem A) as [q r]. destruct Hspec as [Eq Hr].
  assert (Hq0 : 0 <= q) by lia.
  change (2 ^ 52) with 4503599627370496 in *.
  change (2 ^ 53) with 9007199254740992 in *.
  destruct (Z.le_gt_cases (Z.pos m * Z.pos m) A) as [Hge|Hlt].
  - (* the square is not above: the root is exact or just below *)
    assert (Hq : q = Z.pos m) by nia.
    subst q.
    apply binary_round_aux_noshift; try lia.
    assert (r <= Z.pos m) by lia.
    destruct (Z.eqb_spec r 0); [reflexivity|].
    replace (r <=? Z.pos m) with true by (symmetry; apply Z.leb_le; lia).
    reflexivity.
  - assert (Hq : q = Z.pos m - 1) by nia.
    subst q.
    apply binary_round_aux_noshift; try lia.
    assert (Z.pos m - 1 < r) by lia.
    destruct (Z.eqb_spec r 0); [lia|].
    replace (r <=? Z.pos m - 1) with false
      by (symmetry; apply Z.leb_gt; lia).
    cbn [round_nearest_even]. lia.
Qed.

Local Open Scope float_scope.

(** A number from [2^-511] on is normal, or infinite. *)
Lemma ordinary_form (s : float) :
  (0x1p-511 <=? s) = true ->
  Prim2SF s = S754_infinity false
  \/ exists (m : positive) (e : Z),
       Prim2SF s = S754_finite false m e
       /\ (2 ^ 52 <= Z.pos m < 2 ^ 53)%Z /\ (-563 <= e <= 971)%Z.
Proof.
  rewrite leb_spec. unfold SFleb.
  replace (Prim2SF 0x1p-511)
    with (S754_finite false 4503599627370496 (-563)) by reflexivity.
  pose proof (Prim2SF_valid s) as V.
  destruct (Prim2SF s) as [b|b| |b m e]; cbn [SFcompare]; try discriminate.
  - destruct b; [discriminate|auto].
  - destruct b; [discriminate|]. intros H. right. exists m, e.
    split; [reflexivity|].
    assert (He : (-563 <= e)%Z).
    { destruct (Z.compare_spec (-563) e) as [C|C|C]; try lia;
        try discriminate. }
    cbn [SpecFloat.valid_binary] in V. unfold bounded in V.
    apply andb_true_iff in V. destruct V as [V1 V2].
    apply Z.leb_le in V2. unfold canonical_mantissa in V1.
    apply Z.eqb_eq in V1.
    unfold fexp, SpecFloat.emin, prec, emax in V1, V2.
    pose proof (digits2_pos_bounds m) as B.
    assert (Hd : Z.pos (digits2_pos m) = 53%Z) by lia.
    rewrite Hd in B. change (53 - 1)%Z with 52%Z in B.
    split; [exact B|lia].
Qed.

(** [sqrt(s * s)] is [s] for every [s] from [2^-511] on whose square is
    finite. *)
Lemma sqrt_square (s : float) :
  (0x1p-511 <=? s) = true -> (s * s <? infinity) = true ->
  sqrt (s * s) = s.
Proof.
  intros H1 H2. apply Prim2SF_inj.
  rewrite sqrt_spec. rewrite ltb_spec in H2. rewrite mul_spec in *.
  unfold SF64sqrt, SF64mul in *.
  replace (Prim2SF infinity) with (S754_infinity false) in H2 by reflexivity.
  destruct (ordinary_form s H1) as [E|(m & e & E & Hm & He)]; rewrite E in *.
  - discriminate H2.
  - destruct (mul_self m e Hm ltac:(lia))
      as [Ei|(M & n & Ef & HM & Hle & Habs & Hn)].
    + rewrite Ei in H2. discriminate H2.
    + rewrite Ef. now apply sqrt_of_square.
Qed.

(** A finite number other than zero divided by itself is 1. *)
Lemma div_self (s : float) (b : bool) (m : positive) (e : Z) :
  Prim2SF s = S754_finite b m e -> s / s = 1.
Proof.
  intros E. apply Prim2SF_inj. rewrite div_spec, E.
  unfold SF64div. cbn [SFdiv]. unfold SFdiv_core_binary.
  replace (Zdigits2 (Z.pos m) + e - (Zdigits2 (Z.pos m) + e))%Z with 0%Z
    by lia.
  replace (e - e)%Z with 0%Z by lia.
  change (Z.min (fexp prec emax 0) 0) with (-53)%Z.
  cbv beta iota zeta. change (0 - -53)%Z with 53%Z. cbv beta iota.
  rewrite Z.shiftl_mul_pow2 by lia.
  assert (Ed : Z.div_eucl (Z.pos m * 2 ^ 53) (Z.pos m)
               = (2 ^ 53, 0)%Z).
  { assert (Q : forall a c, Z.div_eucl a c = (a / c, a mod c)%Z).
    { intros a c. unfold Z.div, Z.modulo.
      now destruct (Z.div_eucl a c). }
    rewrite Q, (Z.mul_comm (Z.pos m)), Z.div_mul, Z.mod_mul by lia.
    reflexivity. }
  rewrite Ed.
  assert (El : new_location (Z.pos m) 0 = loc_Exact).
  { unfold new_location, new_location_even, new_location_odd.
    destruct (Z.even (Z.pos m)); reflexivity. }
  rewrite El. destruct b; reflexivity.
Qed.
End RoundToNearest.

(* ------------------------------------------------------------------ *)
(** ** The correlation matrix *)

Import CorrelationRouter.

Lemma corr_entry_sym cols i j : corr_entry cols i j = corr_entry cols j i.
Proof. unfold corr_entry. now rewrite Nat.max_comm, Nat.min_comm. Qed.

Lemma corr_length cols : List.length (corr cols) = List.length cols.
Proof. unfold corr. now rewrite length_map, length_seq. Qed.

Lemma nth_map_seq {A} (f : nat -> A) (d : A) n i :
  (i < n)%nat -> nth i (map f (seq 0 n)) d = f i.
Proof.
  intros H.
  rewrite (nth_indep (map f (seq 0 n)) d (f 0%nat))
    by now rewrite length_map, length_seq.
  rewrite map_nth. now rewrite seq_nth.
Qed.

Lemma corr_cell cols i j :
  (i < List.length cols)%nat -> (j < List.length cols)%nat ->
  cell (corr cols) i j = round2 (corr_entry cols i j).
Proof.
  intros Hi Hj. unfold cell, corr.
  rewrite (nth_map_seq _ [] _ i Hi). now rewrite (nth_map_seq _ nan _ j Hj).
Qed.

Lemma corr_row_length cols row :
  In row (corr cols) -> List.length row = List.length cols.
Proof.
  unfold corr. rewrite in_map_iff. intros [i [<- _]].
  now rewrite length_map, length_seq.
Qed.

Lemma eqb_self x : is_nan x = false -> (x =? x) = true.
Proof. unfold is_nan. now destruct (x =? x). Qed.

(** What a successful analysis returns. *)
Lemma correlation_analysis_returned df a :
  correlation_analysis df = Py.Returned a ->
  let numeric_df := filter is_numeric df in
  (2 <= List.length numeric_df)%nat
  /\ features a = map label numeric_df
  /\ matrix a = corr numeric_df
  /\ strong a = head5 (filter is_strong
                         (relationships (features a) (matrix a)))
  /\ moderate a = head5 (filter is_moderate
                           (relationships (features a) (matrix a)))
  /\ inverse a = head5 (filter is_inverse
                          (relationships (features a) (matrix a))).
Proof.
  intros H numeric_df. unfold correlation_analysis in H.
  fold numeric_df in H.
  destruct (Nat.ltb_spec (List.length numeric_df) 2); [discriminate|].
  destruct (relationships _ _) eqn:E; [discriminate|].
  injection H as <-. simpl. rewrite E. auto 7.
Qed.

(** On the diagonal the three accumulators of the pass coincide. *)
Lemma moments_self (column : list float) :
  let m := moments column column in
  meany m = meanx m /\ ssqdm_y m = ssqdm_x m /\ covxy m = ssqdm_x m.
Proof.
  unfold moments.
  assert (H : forall m0,
            meany m0 = meanx m0 /\ ssqdm_y m0 = ssqdm_x m0
            /\ covxy m0 = ssqdm_x m0 ->
            let m := fold_left moments_step (combine column column) m0 in
            meany m = meanx m /\ ssqdm_y m = ssqdm_x m
            /\ covxy m = ssqdm_x m).
  { induction column as [|v column IH]; intros m0 H0; simpl; [exact H0|].
    apply IH. unfold moments_step.
    destruct (isfinite v && isfinite v); [|exact H0].
    destruct H0 as (E1 & E2 & E3). simpl. rewrite E1, E2, E3. auto. }
  apply H. simpl. auto.
Qed.

Lemma pearson_self (column : list float) :
  pearson column column
  = if (nobs (moments column column) <? 1)%Z then nan
    else self_coefficient (ssqdm_x (moments column column)).
Proof.
  unfold pearson, self_coefficient.
  destruct (moments_self column) as (_ & -> & ->). reflexivity.
Qed.

(** A pass that met no row left the sum of squared deviations at 0. *)
Lemma moments_unseen (xs ys : list float) :
  (nobs (moments xs ys) <? 1)%Z = true -> ssqdm_x (moments xs ys) = 0.
Proof.
  unfold moments.
  assert (H : forall l m0,
            (0 <= nobs m0)%Z /\ (nobs m0 = 0%Z -> ssqdm_x m0 = 0) ->
            let m := fold_left moments_step l m0 in
            (0 <= nobs m)%Z /\ (nobs m = 0%Z -> ssqdm_x m = 0)).
  { induction l as [|[vx vy] l IH]; intros m0 H0; simpl; [exact H0|].
    apply IH. unfold moments_step.
    destruct (isfinite vx && isfinite vy); [|exact H0].
    simpl. split; [lia|]. intros C. lia. }
  intros Hn. apply Z.ltb_lt in Hn.
  destruct (H (combine xs ys) (mkMoments 0 0 0 0 0 0)) as [H1 H2].
  - simpl. split; [lia|reflexivity].
  - apply H2. lia.
Qed.

(** The coefficient of a column with itself is 1 when its sum of squared
    deviations is at least [2^-511] and has a finite square. *)
Lemma self_coefficient_ordinary (s : float) :
  (0x1p-511 <=? s) = true -> (s * s <? infinity) = true ->
  self_coefficient s = 1.
Proof.
  intros H1 H2. unfold self_coefficient.
  rewrite (RoundToNearest.sqrt_square s H1 H2). cbv zeta.
  destruct (RoundToNearest.ordinary_form s H1) as [E|(m & e & E & _)].
  - rewrite ltb_spec, mul_spec, E in H2. discriminate H2.
  - rewrite (RoundToNearest.div_self s false m e E).
    assert (Hz : (s =? 0) = false) by (rewrite eqb_spec, E; reflexivity).
    rewrite Hz. reflexivity.
Qed.

(** C9 (as amended).  For every data set with at least 2 numeric columns,
    [matrix[i][j]] and [matrix[j][i]] are the same binary64 value for all
    [i], [j] (so [==] holds between them unless the entry is NaN), and
    [matrix[i][i]] is the rounded coefficient of column [i] with itself,
    [s / sqrt(s * s)] for the column's sum of squared deviations [s]: it is
    1.0 for every column whose [s] is at least [2^-511] with a finite
    square (about 1.5e-154 to 1.3e154, the columns of ordinary data), and
    it is NaN, not 1.0, when the column has no finite cell or that divisor
    is zero. *)
Theorem C9_matrix_mirrored (df : list Column) (a : Analysis) :
  correlation_analysis df = Py.Returned a ->
  let numeric_df := filter is_numeric df in
  let n := List.length numeric_df in
  (2 <= n)%nat
  /\ List.length (features a) = n
  /\ List.length (matrix a) = n
  /\ forall i j : nat, (i < n)%nat -> (j < n)%nat ->
       cell (matrix a) i j = cell (matrix a) j i
       /\ (isna (cell (matrix a) i j) = false ->
           (cell (matrix a) i j =? cell (matrix a) j i) = true)
       /\ let column := cells (nth i numeric_df (mkColumn "" other [])) in
          let m := moments column column in
          let s := ssqdm_x m in
          cell (matrix a) i i
          = round2 (if (nobs m <? 1)%Z then nan else self_coefficient s)
          /\ ((nobs m <? 1)%Z = true
              \/ (PrimFloat.sqrt (s * s) =? 0) = true ->
              isna (cell (matrix a) i i) = true)
          /\ ((0x1p-511 <=? s) = true -> (s * s <? infinity) = true ->
              cell (matrix a) i i = 1).
Proof.
  intros H numeric_df n.
  destruct (correlation_analysis_returned df a H) as (Hn & Hf & Hm & _).
  fold numeric_df in Hn, Hf, Hm.
  split; [exact Hn|]. split; [now rewrite Hf, length_map|].
  split; [now rewrite Hm, corr_length|].
  intros i j Hi Hj. rewrite Hm, !corr_cell by assumption.
  split; [now rewrite corr_entry_sym|].
  split; [intros N; rewrite (corr_entry_sym numeric_df j i);
          apply eqb_self, N|].
  intros column m s.
  assert (E : corr_entry numeric_df i i = pearson column column).
  { unfold corr_entry. now rewrite Nat.max_id, Nat.min_id. }
  rewrite E, pearson_self. fold m s. split; [reflexivity|]. split.
  - unfold self_coefficient. intros [-> | ->]; [reflexivity|].
    destruct (nobs m <? 1)%Z; reflexivity.
  - intros H1 H2.
    destruct (nobs m <? 1)%Z eqn:Hobs.
    + pose proof (moments_unseen column column Hobs) as Hs.
      fold m s in Hs. rewrite Hs in H1. discriminate H1.
    + rewrite (self_coefficient_ordinary s H1 H2). reflexivity.
Qed.

(** On the sample of co-moving measures every diagonal entry is 1. *)
Example correlated_unit_diagonal :
  map (fun i => cell (matrix Samples.correlated_analysis) i i) (seq 0 4)
  = [1; 1; 1; 1].
Proof. reflexivity. Qed.

Lemma C9_matrix_mirrored_witness :
  cell [[1; nan]; [nan; nan]] 0 1 = cell [[1; nan]; [nan; nan]] 1 0.
Proof.
  refine (proj1 (proj2 (proj2 (proj2
            (C9_matrix_mirrored Samples.constant_allowance
               (mkAnalysis ["Distributor ID"; "Waste_Allowance_Quantity"]%string
                  [[1; nan]; [nan; nan]] [] [] [])
               _))) 0%nat 1%nat _ _)).
  - vm_compute. reflexivity.
  - vm_compute. lia.
  - vm_compute. lia.
Defined.

(** C9, as stated, fails: with a constant column the diagonal entry of that
    column is NaN, and so is every entry of its row. *)
Lemma C9_constant_column_has_nan_diagonal :
  ~ symmetric_with_unit_diagonal Samples.constant_allowance.
Proof.
  intros H.
  destruct (H (mkAnalysis ["Distributor ID"; "Waste_Allowance_Quantity"]%string
                 [[1; nan]; [nan; nan]] [] [] [])
              ltac:(vm_compute; reflexivity) 1%nat 1%nat) as [_ E].
  - simpl. lia.
  - simpl. lia.
  - discriminate E.
Qed.

(* ------------------------------------------------------------------ *)
(** ** The relationship list and its buckets *)

Lemma NoDup_pairs {A B} (l : list A) (l' : list B) :
  NoDup l -> NoDup l' -> NoDup (list_prod l l').
Proof.
  intros Hl Hl'. induction Hl as [|x l Hx _ IH]; simpl; [constructor|].
  apply NoDup_app.
  - clear - Hl'. induction Hl' as [|y l' Hy _ IH]; simpl; constructor; auto.
    rewrite in_map_iff. intros [z [[= <-] Hz]]. contradiction.
  - exact IH.
  - intros [a b]. rewrite in_map_iff, in_prod_iff.
    intros [z [[= <- <-] _]] [Ha _]. contradiction.
Qed.

Lemma row_labels (x : string) (names : list string) (row : list float) :
  List.length row = List.length names ->
  map labels
    (flat_map
       (fun cell : string * float =>
          if negb (String.eqb x (fst cell))
          then [mkRel x (fst cell) (snd cell) (abs (snd cell))]
          else [])
       (combine names row))
  = filter distinct_labels (map (fun y => (x, y)) names).
Proof.
  revert row. induction names as [|y names IH]; intros [|v row]; simpl;
    try discriminate; trivial.
  intros [= Hlen]. unfold distinct_labels at 1. simpl.
  destruct (negb (String.eqb x y)); simpl; now rewrite IH.
Qed.

Lemma rows_labels (names outer : list string) (m : list (list float)) :
  List.length m = List.length outer ->
  (forall row, In row m -> List.length row = List.length names) ->
  map labels
    (flat_map
       (fun row : string * list float =>
          flat_map
            (fun cell : string * float =>
               if negb (String.eqb (fst row) (fst cell))
               then [mkRel (fst row) (fst cell) (snd cell) (abs (snd cell))]
               else [])
            (combine names (snd row)))
       (combine outer m))
  = filter distinct_labels (list_prod outer names).
Proof.
  revert m. induction outer as [|x outer IH]; intros [|row m]; simpl;
    try discriminate; trivial.
  intros [= Hlen] Hrows. rewrite map_app, filter_app. f_equal.
  - apply row_labels, Hrows. now left.
  - apply IH; auto.
Qed.

(** The labels of the flattened list: the ordered pairs of distinct
    labels, row by row. *)
Lemma relationships_labels (names : list string) (m : list (list float)) :
  List.length m = List.length names ->
  (forall row, In row m -> List.length row = List.length names) ->
  map labels (relationships names m)
  = filter distinct_labels (list_prod names names).
Proof. apply rows_labels. Qed.

Lemma in_combine_nth_error {A B} (l : list A) (l' : list B) x y :
  In (x, y) (combine l l') ->
  exists i, nth_error l i = Some x /\ nth_error l' i = Some y.
Proof.
  revert l'. induction l as [|a l IH]; intros [|b l']; simpl; try tauto.
  intros [[= <- <-]|H].
  - now exists 0%nat.
  - destruct (IH _ H) as [i Hi]. now exists (S i).
Qed.

(** Every relationship is an off-diagonal cell of the matrix, with its
    magnitude. *)
Lemma relationships_values names m r :
  In r (relationships names m) ->
  f1 r <> f2 r
  /\ abs_value r = abs (value r)
  /\ exists i j,
       nth_error names i = Some (f1 r) /\ nth_error names j = Some (f2 r)
       /\ value r = cell m i j.
Proof.
  unfold relationships. rewrite in_flat_map.
  intros [[x row] [Hrow H]]. rewrite in_flat_map in H.
  destruct H as [[y v] [Hcell H]]. simpl in H.
  destruct (String.eqb_spec x y) as [E|E]; simpl in H; [contradiction|].
  destruct H as [<-|[]]. simpl. repeat split; [exact E|].
  destruct (in_combine_nth_error _ _ _ _ Hrow) as [i [Hi Hi']].
  destruct (in_combine_nth_error _ _ _ _ Hcell) as [j [Hj Hj']].
  exists i, j. repeat split; trivial.
  unfold cell. rewrite (nth_error_nth _ _ _ Hi').
  now rewrite (nth_error_nth _ _ _ Hj').
Qed.

Lemma head5_first_five {A} (pool : list A) : first_five_of pool (head5 pool).
Proof.
  exists (skipn 5 pool). unfold head5. split; [|split].
  - symmetry. apply firstn_skipn.
  - apply firstn_le_length.
  - rewrite length_firstn.
    destruct (Nat.le_gt_cases (List.length pool) 5) as [H|H].
    + left. now apply skipn_all2.
    + right. lia.
Qed.

(** C8 (as amended).  With distinct feature labels, the flattened list
    holds every ordered pair of distinct features exactly once (so every
    unordered pair twice, once in each orientation), each with its cell of
    the matrix and the magnitude of that cell; the strong bucket is made of
    the first 5 pairs, in the row-by-row order of the loop, with
    [|r| >= 0.75], the moderate bucket of the first 5 with
    [0.4 <= |r| < 0.75], the inverse bucket of the first 5 with
    [r <= -0.4]; no bucket is ordered by [|r|]. *)
Theorem C8_buckets_take_first_five (df : list Column) (a : Analysis) :
  correlation_analysis df = Py.Returned a ->
  NoDup (features a) ->
  let rels := relationships (features a) (matrix a) in
  NoDup (map labels rels)
  /\ (forall x y,
        In (x, y) (map labels rels)
        <-> In x (features a) /\ In y (features a) /\ x <> y)
  /\ (forall r, In r rels ->
        abs_value r = abs (value r)
        /\ exists i j,
             nth_error (features a) i = Some (f1 r)
             /\ nth_error (features a) j = Some (f2 r)
             /\ value r = cell (matrix a) i j)
  /\ first_five_of
       (filter (fun r => 0.75 <=? abs_value r) rels) (strong a)
  /\ first_five_of
       (filter (fun r => (0.4 <=? abs_value r) && (abs_value r <? 0.75)) rels)
       (moderate a)
  /\ first_five_of (filter (fun r => value r <=? -0.4) rels) (inverse a).
Proof.
  intros H Hnd rels.
  destruct (correlation_analysis_returned df a H)
    as (_ & Hf & Hm & Hs & Hmo & Hi).
  assert (Hl : map labels rels
               = filter distinct_labels
                   (list_prod (features a) (features a))).
  { apply relationships_labels.
    - now rewrite Hm, corr_length, Hf, length_map.
    - intros row Hrow. rewrite Hm in Hrow.
      now rewrite (corr_row_length _ _ Hrow), Hf, length_map. }
  split; [|split; [|split; [|split; [|split]]]].
  - rewrite Hl. now apply NoDup_filter, NoDup_pairs.
  - intros x y. rewrite Hl, filter_In, in_prod_iff.
    unfold distinct_labels. simpl.
    destruct (String.eqb_spec x y); simpl; intuition congruence.
  - intros r Hr. destruct (relationships_values _ _ _ Hr) as (_ & Ha & He).
    auto.
  - rewrite Hs. apply head5_first_five.
  - rewrite Hmo. apply head5_first_five.
  - rewrite Hi. apply head5_first_five.
Qed.

Lemma C8_buckets_take_first_five_witness :
  first_five_of
    (filter (fun r => 0.75 <=? abs_value r)
       (relationships (features Samples.correlated_analysis)
          (matrix Samples.correlated_analysis)))
    (strong Samples.correlated_analysis).
Proof.
  refine (proj1 (proj2 (proj2 (proj2
            (C8_buckets_take_first_five Samples.correlated
               Samples.correlated_analysis _ _))))).
  - vm_compute. reflexivity.
  - repeat constructor; simpl; intuition discriminate.
Defined.

(** C8, as stated, fails: all twelve ordered pairs of the sample are
    strong; the bucket holds the first five of the loop, among them
    (Deliveries, Returns) with |r| = 0.89, and leaves out
    (Waste_Allowance, Waste_Sum) with |r| = 1. *)
Lemma C8_strong_bucket_misses_largest :
  ~ strong_bucket_holds_largest Samples.correlated.
Proof.
  intros H.
  specialize (H Samples.correlated_analysis ltac:(vm_compute; reflexivity)
                (mkRel "Deliveries_Quantity" "Returns_Quantity"
                   (89 / 100) (89 / 100))
                (mkRel "Waste_Allowance_Quantity" "Waste_Quantity_Sum" 1 1)).
  assert (E : (89 / 100 <? 1) = false).
  { apply H.
    - vm_compute. left. reflexivity.
    - vm_compute. do 8 right. left. reflexivity.
    - vm_compute. intros [E|[E|[E|[E|[E|[]]]]]]; discriminate E. }
  discriminate E.
Qed.

(* ------------------------------------------------------------------ *)
(** ** The worked examples of the specification *)

(** Distributor 101, Texas, first quarter: waste 1000 against an allowance
    of 800 gives 25 percent over the limit and the status Very Good. *)
Example texas_first_quarter :
  map (fun r => (RiskRouter.dq_id r, pct_from_limit r, Status r))
      (build_distributor_quarter_df Samples.two_quarters)
  = [ (101%Z, 25, VeryGood); (101%Z, 50, VeryGood);
      (102%Z, -62.5, VeryGood) ].
Proof. reflexivity. Qed.

(** Waste 1000 against an allowance of 400: a HIGH alert, exceeded by 150
    percent; returns of 90 on 1000 deliveries: a MEDIUM alert at 9
    percent. *)
Example texas_alerts :
  map (fun a => (severity a, description a))
      (filter (fun a => String.eqb (state a) "TX")
              (raise_alerts Samples.alerting))
  = [ (HIGH, ExceededBy 150); (MEDIUM, ReturnsAt 9) ].
Proof. reflexivity. Qed.

(* ------------------------------------------------------------------ *)
(** ** When the end points answer *)

(** The alert end point answers as soon as one alert is raised and the
    distributor argument is "ALL" or an integer. *)
Lemma get_alerts_returns (df : list RawRecord)
    (severity_arg distributor_arg state_arg : string) :
  raise_alerts df <> [] ->
  distributor_arg = "ALL"%string \/ Py.int distributor_arg <> None ->
  exists r, get_alerts df severity_arg distributor_arg state_arg
            = Py.Returned r.
Proof.
  intros Hne Hd. unfold get_alerts.
  destruct (raise_alerts df); [contradiction|].
  destruct (String.eqb_spec distributor_arg "ALL") as [E|E]; simpl.
  - eauto.
  - destruct Hd as [Hd|Hd]; [contradiction|].
    destruct (Py.int distributor_arg); [eauto|contradiction].
Qed.

(** The correlation end point answers on every frame with at least two
    numeric columns of distinct labels. *)
Lemma correlation_analysis_returns (df : list Column) :
  (2 <= List.length (filter is_numeric df))%nat ->
  NoDup (map label (filter is_numeric df)) ->
  exists a, correlation_analysis df = Py.Returned a.
Proof.
  intros Hn Hnd. unfold correlation_analysis.
  set (numeric_df := filter is_numeric df) in *.
  destruct (Nat.ltb_spec (List.length numeric_df) 2) as [H|_]; [lia|].
  destruct (relationships (map label numeric_df) (corr numeric_df)) eqn:E;
    [exfalso|eauto].
  assert (Hl := relationships_labels (map label numeric_df)
                  (corr numeric_df)).
  rewrite E in Hl. simpl in Hl.
  destruct numeric_df as [|c0 [|c1 rest]]; simpl in Hn; try lia.
  assert (Hin : In (label c0, label c1)
                   (filter distinct_labels
                      (list_prod (map label (c0 :: c1 :: rest))
                                 (map label (c0 :: c1 :: rest))))).
  { apply filter_In. split.
    - apply in_prod_iff. simpl. auto.
    - unfold distinct_labels. simpl. apply negb_true_iff, String.eqb_neq.
      simpl in Hnd. inversion Hnd as [|? ? Hx _]. subst.
      intros Heq. apply Hx. left. now symmetry. }
  rewrite <- Hl in Hin.
  - contradiction.
  - now rewrite corr_length, length_map.
  - intros row Hrow. now rewrite (corr_row_length _ _ Hrow), length_map.
Qed.

Import Table.


(* ================================================================== *)
(** * Part III: further guarantees of the modelled code *)
(* ================================================================== *)

(** ** Group keys: distinct and ascending *)

Section UniqueSorted.
Context {K : Type} (kcmp : K -> K -> comparison) `{!StrictCmp kcmp}.

Lemma insert_unique_strict x l :
  StronglySorted (fun a b => kcmp a b = Lt) l ->
  StronglySorted (fun a b => kcmp a b = Lt) (insert_unique kcmp x l).
Proof.
  induction 1 as [|y l Hl IH Hy]; simpl; [repeat constructor|].
  destruct (kcmp x y) eqn:E.
  - now constructor.
  - constructor; [now constructor|]. constructor; [exact E|].
    rewrite Forall_forall in *. intros z Hz.
    eapply cmp_lt_trans; [exact E|auto].
  - constructor; [exact IH|].
    rewrite Forall_forall in *. intros z Hz.
    apply (insert_unique_in kcmp) in Hz. destruct Hz as [->|Hz]; [|auto].
    rewrite (cmp_antisym x y), E. reflexivity.
Qed.

Lemma sorted_unique_strict l :
  StronglySorted (fun a b => kcmp a b = Lt) (sorted_unique kcmp l).
Proof.
  unfold sorted_unique.
  assert (H : forall acc,
            StronglySorted (fun a b => kcmp a b = Lt) acc ->
            StronglySorted (fun a b => kcmp a b = Lt)
              (fold_left (fun acc x => insert_unique kcmp x acc) l acc)).
  { induction l as [|x l IH]; intros acc Hacc; simpl; [exact Hacc|].
    apply IH, insert_unique_strict, Hacc. }
  apply H. constructor.
Qed.

Lemma strict_sorted_nodup l :
  StronglySorted (fun a b => kcmp a b = Lt) l -> NoDup l.
Proof.
  induction 1 as [|x l Hl IH Hx]; constructor; [|exact IH].
  intros Hin. rewrite Forall_forall in Hx. specialize (Hx x Hin).
  rewrite cmp_refl in Hx. discriminate.
Qed.

Lemma sorted_unique_nodup l : NoDup (sorted_unique kcmp l).
Proof. apply strict_sorted_nodup, sorted_unique_strict. Qed.
End UniqueSorted.

Lemma StrictCmp_ext {A} (cmp cmp' : A -> A -> comparison) :
  (forall x y, cmp x y = cmp' x y) -> StrictCmp cmp' -> StrictCmp cmp.
Proof.
  intros E H. split; intros *; rewrite ?E.
  - apply cmp_eq.
  - apply cmp_refl.
  - apply cmp_antisym.
  - intros H1 H2. eapply cmp_lt_trans; eassumption.
Qed.

Lemma lex_assoc a b c : lex (lex a b) c = lex a (lex b c).
Proof. now destruct a. Qed.

#[local] Instance key_StrictCmp : StrictCmp key_cmp.
Proof.
  apply (StrictCmp_ext _
           (pair_cmp (pair_cmp (pair_cmp Z.compare String.compare) Z.compare)
                     String.compare)).
  - intros [[[d1 s1] y1] q1] [[[d2 s2] y2] q2].
    unfold key_cmp, pair_cmp. simpl. now rewrite !lex_assoc.
  - exact (@pair_StrictCmp _ _ _ _
             (@pair_StrictCmp _ _ _ _
                (@pair_StrictCmp _ _ _ _ Z_StrictCmp string_StrictCmp)
                Z_StrictCmp)
             string_StrictCmp).
Qed.

Lemma key_eqb_eq k k' : key_eqb k k' = true <-> k = k'.
Proof.
  unfold key_eqb. split.
  - destruct (key_cmp k k') eqn:E; try discriminate.
    intros _. now apply cmp_eq in E.
  - intros ->. now rewrite cmp_refl.
Qed.

Lemma keys_of_in df k :
  In k (keys_of df) <-> exists r, In r df /\ key_of r = Some k.
Proof.
  induction df as [|r df IH]; simpl.
  - split; [tauto|]. now intros [r [[] _]].
  - destruct (key_of r) as [k0|] eqn:E; simpl; rewrite IH; split.
    + intros [<-|[r' [H1 H2]]]; eauto.
    + intros [r' [[<-|H1] H2]]; [left; congruence|eauto].
    + intros [r' [H1 H2]]; eauto.
    + intros [r' [[<-|H1] H2]]; [congruence|eauto].
Qed.

(** ** The distributor-quarter table as a whole *)

Lemma aggregate_keys df :
  map agg_key (aggregate df) = sorted_unique key_cmp (keys_of df).
Proof.
  unfold aggregate. rewrite map_map.
  rewrite <- (map_id (sorted_unique key_cmp (keys_of df))) at 2.
  apply map_ext. now intros [[[d s] y] q].
Qed.

Lemma combine_fst {A B} (l : list A) (l' : list B) :
  List.length l = List.length l' -> map fst (combine l l') = l.
Proof.
  revert l'. induction l as [|a l IH]; intros [|b l']; simpl;
    try discriminate; trivial.
  intros [= H]. now rewrite IH.
Qed.

Lemma table_rows_permutation df :
  Permutation (map agg (build_distributor_quarter_df df)) (aggregate df).
Proof.
  unfold build_distributor_quarter_df.
  rewrite with_change_agg, stable_sort_perm, pct_from_limit_column_rows.
  rewrite combine_fst by now rewrite length_map.
  reflexivity.
Qed.

Lemma table_keys (df : list RawRecord) :
  let keys := map (fun row => agg_key (agg row))
                  (build_distributor_quarter_df df) in
  NoDup keys
  /\ forall k : Key,
       In k keys <-> exists r, In r df /\ key_of r = Some k.
Proof.
  intros keys.
  assert (P : Permutation keys (sorted_unique key_cmp (keys_of df))).
  { unfold keys. rewrite <- aggregate_keys, <- (map_map agg agg_key).
    apply Permutation_map, table_rows_permutation. }
  split.
  - eapply Permutation_NoDup; [symmetry; exact P|].
    apply sorted_unique_nodup. exact key_StrictCmp.
  - intros k. rewrite <- keys_of_in.
    rewrite <- (sorted_unique_in key_cmp k (keys_of df)).
    split; apply Permutation_in; [|symmetry]; exact P.
Qed.

(** X1.  The table has exactly one row for every (distributor, state, year,
    quarter) key observed on a record with all four key cells present, and
    no row for any other key. *)
Theorem table_one_row_per_observed_key (df : list RawRecord) :
  let keys := map (fun row => agg_key (agg row))
                  (build_distributor_quarter_df df) in
  NoDup keys
  /\ forall k : Key,
       In k keys <-> exists r, In r df /\ key_of r = Some k.
Proof. exact (table_keys df). Qed.

(** X2.  The table is in ascending order of (distributor, year, quarter),
    the quarter labels compared as text. *)
Theorem table_sorted_by_distributor_and_time (df : list RawRecord) :
  StronglySorted
    (fun a b : DQRow => le_of (time_cmp (agg a) (agg b)) = true)
    (build_distributor_quarter_df df).
Proof. exact (table_ascending df). Qed.

Lemma aggregate_complete df : aggregate (filter complete df) = aggregate df.
Proof.
  unfold aggregate.
  assert (Hk : keys_of (filter complete df) = keys_of df).
  { induction df as [|r df IH]; simpl; [trivial|].
    unfold complete at 1. destruct (key_of r) eqn:E; simpl; [|exact IH].
    now rewrite E, IH. }
  rewrite Hk. apply map_ext. intros [[[d s] y] q].
  assert (Hm : filter (has_key (d, s, y, q)) (filter complete df)
               = filter (has_key (d, s, y, q)) df).
  { clear Hk. induction df as [|r df IH]; simpl; [trivial|].
    unfold complete at 1, has_key at 2.
    destruct (key_of r) eqn:E; simpl; [|exact IH].
    unfold has_key at 1. rewrite E. now rewrite IH. }
  now rewrite Hm.
Qed.

Lemma build_complete (df : list RawRecord) :
  build_distributor_quarter_df df
  = build_distributor_quarter_df (filter complete df).
Proof.
  unfold build_distributor_quarter_df. now rewrite aggregate_complete.
Qed.

(** X3.  Records with a missing distributor, state, year or quarter cell
    take no part in the build: the table is the one built from the records
    whose four key cells are present. *)
Theorem records_without_key_are_dropped (df : list RawRecord) :
  build_distributor_quarter_df df
  = build_distributor_quarter_df (filter complete df).
Proof. exact (build_complete df). Qed.

Lemma sum_step_skips acc v : is_nan v = true -> sum_step acc v = acc.
Proof. unfold sum_step. destruct acc. now intros ->. Qed.

Lemma group_sum_present (cells : list float) :
  group_sum cells = group_sum (filter (fun x => negb (isna x)) cells).
Proof.
  unfold group_sum. generalize (0, 0) as acc.
  induction cells as [|v cells IH]; intros acc; simpl; [trivial|].
  unfold isna at 1. destruct (is_nan v) eqn:E; simpl.
  - rewrite sum_step_skips by exact E. apply IH.
  - apply IH.
Qed.

Lemma aggregate_row_totals df a :
  In a (aggregate df) ->
  let members := filter (has_key (agg_key a)) df in
  In (agg_key a) (keys_of df)
  /\ total_deliveries a
     = round2 (group_sum (map Deliveries_Quantity members))
  /\ total_returns a = round2 (group_sum (map Returns_Quantity members))
  /\ total_waste_allowance a
     = round2 (group_sum (map Waste_Allowance_Quantity members))
  /\ total_waste a = round2 (group_sum (map Waste_Quantity_Sum members)).
Proof.
  unfold aggregate. rewrite in_map_iff.
  intros [[[[d s] y] q] [<- Hk]]. simpl.
  apply (proj1 (sorted_unique_in key_cmp _ _)) in Hk.
  unfold agg_key. simpl. auto.
Qed.

(** X4.  Every total of a table row is the rounded sum of the cells that
    are present among the records of its key: a missing (NaN) measure is
    skipped, not propagated.  A key whose allowance cells are all missing
    gets the allowance total 0 and, with it, [pct_from_limit] 0. *)
Theorem totals_skip_missing_measures (df : list RawRecord) (row : DQRow) :
  In row (build_distributor_quarter_df df) ->
  let members := filter (has_key (agg_key (agg row))) df in
  let present (cells : list float) :=
    filter (fun x => negb (isna x)) cells in
  members <> []
  /\ total_deliveries (agg row)
     = round2 (group_sum (present (map Deliveries_Quantity members)))
  /\ total_returns (agg row)
     = round2 (group_sum (present (map Returns_Quantity members)))
  /\ total_waste_allowance (agg row)
     = round2 (group_sum (present (map Waste_Allowance_Quantity members)))
  /\ total_waste (agg row)
     = round2 (group_sum (present (map Waste_Quantity_Sum members)))
  /\ (Forall (fun r => isna (Waste_Allowance_Quantity r) = true) members ->
      total_waste_allowance (agg row) = 0 /\ pct_from_limit row = 0).
Proof.
  intros H members present.
  destruct (build_row_spec df row H) as (Ha & Hp & _).
  destruct (aggregate_row_totals df (agg row) Ha) as (Hk & H1 & H2 & H3 & H4).
  fold members in H1, H2, H3, H4.
  assert (Hne : members <> []).
  { apply keys_of_in in Hk. destruct Hk as [r [Hr Hkey]].
    assert (Hin : In r members).
    { apply filter_In. split; [exact Hr|].
      unfold has_key. rewrite Hkey. now apply key_eqb_eq. }
    intros E. now rewrite E in Hin. }
  unfold present. rewrite <- !group_sum_present.
  repeat (split; [assumption|]).
  intros Hall.
  assert (E : total_waste_allowance (agg row) = 0).
  { rewrite H3, group_sum_present.
    replace (filter _ (map Waste_Allowance_Quantity members)) with (@nil float);
      [reflexivity|].
    clear - Hall. induction Hall as [|r l Hr _ IH]; simpl; [trivial|].
    now rewrite Hr. }
  split; [exact E|]. rewrite Hp, E. reflexivity.
Qed.

Lemma totals_skip_missing_measures_witness :
  let df :=
    [ mkRaw (Some 7%Z) (Some "NY"%string) (Some 2023%Z) (Some "Q3"%string)
        40 2 nan 5;
      mkRaw (Some 7%Z) (Some "NY"%string) (Some 2023%Z) (Some "Q3"%string)
        10 nan nan 3 ] in
  let row := mkDQ (mkAgg 7 "NY" 2023 "Q3" 50 2 0 8) 0 nan VeryGood in
  In row (build_distributor_quarter_df df)
  /\ total_waste_allowance (agg row) = 0 /\ pct_from_limit row = 0.
Proof.
  intros df row.
  assert (H : In row (build_distributor_quarter_df df))
    by (vm_compute; left; reflexivity).
  split; [exact H|].
  apply (totals_skip_missing_measures df row H).
  vm_compute. repeat constructor.
Defined.

(** ** Time columns *)

Import Filters.

Lemma month_number_range a b c m :
  month_number a b c = Some m -> (1 <= m <= 12)%Z.
Proof.
  unfold month_number.
  repeat match goal with
         | |- context [if ?t then _ else _] => destruct t
         end; intros [= <-]; lia.
Qed.

Lemma digit_of_range c d : Py.digit_of c = Some d -> (0 <= d <= 9)%Z.
Proof.
  unfold Py.digit_of.
  destruct (andb _ _) eqn:E; [|discriminate]. intros [= <-].
  apply andb_true_iff in E. destruct E as [E1 E2].
  apply Nat.leb_le in E1, E2. lia.
Qed.

Lemma some_pair_inj {A B} (a c : A) (b d : B) :
  Some (a, b) = Some (c, d) -> a = c /\ b = d.
Proof. intros [= -> ->]. auto. Qed.

Lemma to_datetime_range label y m :
  to_datetime label = Some (y, m) ->
  (1969 <= y <= 2068)%Z /\ (1 <= m <= 12)%Z.
Proof.
  unfold to_datetime.
  destruct label as [|a [|b [|c [|h [|d1 [|d2 [|]]]]]]]; try discriminate;
    destruct h as [[] [] [] [] [] [] [] []]; try discriminate.
  destruct (month_number a b c) as [m'|] eqn:Em; [|discriminate].
  destruct (Py.digit_of d1) as [x|] eqn:E1; [|discriminate].
  destruct (Py.digit_of d2) as [z|] eqn:E2; [|discriminate].
  apply month_number_range in Em.
  apply digit_of_range in E1, E2.
  cbv zeta.
  destruct (Z.leb_spec (10 * x + z) 68); intros Heq;
    apply some_pair_inj in Heq; destruct Heq as [<- <-]; lia.
Qed.

Lemma quarter_label_cases m :
  (1 <= m <= 12)%Z ->
  quarter_label (Some m)
  = Some (if (m <=? 3)%Z then "Q1"%string
          else if (m <=? 6)%Z then "Q2"%string
          else if (m <=? 9)%Z then "Q3"%string
          else "Q4"%string).
Proof.
  intros H.
  assert (C : (m = 1 \/ m = 2 \/ m = 3 \/ m = 4 \/ m = 5 \/ m = 6 \/ m = 7
               \/ m = 8 \/ m = 9 \/ m = 10 \/ m = 11 \/ m = 12)%Z) by lia.
  repeat (destruct C as [->|C]; [reflexivity|]). subst. reflexivity.
Qed.

Lemma prepared_time_columns (row : UploadedRow) (y m : Z) :
  Month_Parsed row = Some (y, m) ->
  year_only (prepare_row row) = Some y
  /\ (1969 <= y <= 2068)%Z
  /\ (1 <= m <= 12)%Z
  /\ quarter (prepare_row row)
     = Some (if (m <=? 3)%Z then "Q1"%string
             else if (m <=? 6)%Z then "Q2"%string
             else if (m <=? 9)%Z then "Q3"%string
             else "Q4"%string).
Proof.
  intros H. unfold prepare_row, month_only. cbn [year_only quarter].
  rewrite H. cbn [option_map fst snd].
  unfold Month_Parsed in H. destruct (Months row); [|discriminate].
  apply to_datetime_range in H. destruct H as [Hy Hm].
  rewrite quarter_label_cases by exact Hm. auto.
Qed.

(** X5.  For every month label that parses, the year lies in 1969..2068,
    the month in 1..12, and the quarter column is Q1 for the months 1-3, Q2
    for 4-6, Q3 for 7-9 and Q4 for 10-12. *)
Theorem parsed_label_gives_quarter (row : UploadedRow) (y m : Z) :
  Month_Parsed row = Some (y, m) ->
  year_only (prepare_row row) = Some y
  /\ (1969 <= y <= 2068)%Z
  /\ (1 <= m <= 12)%Z
  /\ quarter (prepare_row row)
     = Some (if (m <=? 3)%Z then "Q1"%string
             else if (m <=? 6)%Z then "Q2"%string
             else if (m <=? 9)%Z then "Q3"%string
             else "Q4"%string).
Proof. exact (prepared_time_columns row y m). Qed.

Lemma parsed_label_gives_quarter_witness :
  let row := mkUploaded (Some 101%Z) (Some "TX"%string)
               (Some "Feb-23"%string) 10 1 8 9 in
  year_only (prepare_row row) = Some 2023%Z
  /\ quarter (prepare_row row) = Some "Q1"%string.
Proof.
  intros row.
  destruct (parsed_label_gives_quarter row 2023 2 eq_refl)
    as (Hy & _ & _ & Hq).
  split; [exact Hy|exact Hq].
Defined.

Lemma filter_complete_app_skip (l1 l2 : list RawRecord) r :
  complete r = false ->
  filter complete (l1 ++ r :: l2) = filter complete (l1 ++ l2).
Proof.
  intros H. rewrite !filter_app. simpl. now rewrite H.
Qed.

(** X6.  A row whose month label is missing, or is plain ASCII text that
    does not parse, gets no year and no quarter, and it adds nothing to the
    distributor-quarter table: the rows built from the prepared upload
    (keys, totals, percentages and status, as values) are the same with and
    without that row.  What the row does change is the year column of the
    frame, which is no integer column any more with it. *)
Theorem unparsed_label_is_excluded (before after : list UploadedRow)
    (row : UploadedRow) :
  ascii_label row = true ->
  Month_Parsed row = None ->
  year_only (prepare_row row) = None
  /\ quarter (prepare_row row) = None
  /\ build_distributor_quarter_df
       (prepare_time_columns (before ++ row :: after))
     = build_distributor_quarter_df
         (prepare_time_columns (before ++ after))
  /\ years_present (prepare_time_columns (before ++ row :: after)) = false.
Proof.
  intros _ H.
  assert (Hy : year_only (prepare_row row) = None).
  { unfold prepare_row. simpl. now rewrite H. }
  split; [exact Hy|]. split; [|split].
  - unfold prepare_row, month_only. simpl. now rewrite H.
  - rewrite (build_complete (prepare_time_columns (before ++ row :: after))).
    rewrite (build_complete (prepare_time_columns (before ++ after))).
    unfold prepare_time_columns. rewrite !map_app. simpl.
    rewrite filter_complete_app_skip; [reflexivity|].
    unfold complete, key_of. rewrite Hy.
    destruct (Distributor_ID (prepare_row row)),
      (US_States (prepare_row row)); reflexivity.
  - unfold prepare_time_columns, years_present.
    rewrite map_app, forallb_app. cbn [map forallb]. rewrite Hy.
    cbn [andb]. apply andb_false_r.
Qed.

Lemma unparsed_label_is_excluded_witness :
  build_distributor_quarter_df
    (prepare_time_columns
       [ mkUploaded (Some 101%Z) (Some "TX"%string) (Some "Feb-23"%string)
           10 1 8 9;
         mkUploaded (Some 101%Z) (Some "TX"%string) (Some "February 2023"%string)
           10 1 8 9 ])
  = build_distributor_quarter_df
      (prepare_time_columns
         [ mkUploaded (Some 101%Z) (Some "TX"%string) (Some "Feb-23"%string)
             10 1 8 9 ]).
Proof.
  exact (proj1 (proj2 (proj2
    (unparsed_label_is_excluded
       [ mkUploaded (Some 101%Z) (Some "TX"%string) (Some "Feb-23"%string)
           10 1 8 9 ]
       []
       (mkUploaded (Some 101%Z) (Some "TX"%string)
          (Some "February 2023"%string) 10 1 8 9)
       eq_refl eq_refl)))).
Defined.

(** ** The trend end point *)

Import RiskRouter Labels.

Lemma stable_sort_length {A} (cmp : A -> A -> Datatypes.comparison) l :
  List.length (stable_sort cmp l) = List.length l.
Proof. apply Permutation_length, stable_sort_perm. Qed.

Lemma filter_permutation {A} (p : A -> bool) (l l' : list A) :
  Permutation l l' -> Permutation (filter p l) (filter p l').
Proof.
  induction 1 as [|x l l' _ IH|x y l|l l' l'' _ IH1 _ IH2]; simpl.
  - constructor.
  - destruct (p x); [now constructor|exact IH].
  - destruct (p x), (p y); try reflexivity. apply perm_swap.
  - etransitivity; eassumption.
Qed.

Lemma filter_map_swap {A B} (f : A -> B) (p : B -> bool) (l : list A) :
  filter p (map f l) = map f (filter (fun a => p (f a)) l).
Proof.
  induction l as [|a l IH]; simpl; [reflexivity|].
  destruct (p (f a)); simpl; now rewrite IH.
Qed.

Lemma filter_none {A} (p : A -> bool) (l : list A) :
  (forall a, In a l -> p a = false) -> filter p l = [].
Proof.
  induction l as [|a l IH]; simpl; intros H; [reflexivity|].
  rewrite (H a) by now left. apply IH. intros b Hb. apply H. now right.
Qed.

Lemma key_of_complete r : complete r = true <-> exists k, key_of r = Some k.
Proof.
  unfold complete. destruct (key_of r) as [k|]; split; eauto.
  - discriminate.
  - now intros [k [=]].
Qed.

Lemma key_of_id r k :
  key_of r = Some k -> Distributor_ID r = Some (fst (fst (fst k))).
Proof.
  unfold key_of.
  destruct (Distributor_ID r), (US_States r), (year_only r), (quarter r);
    try discriminate.
  now intros [= <-].
Qed.

Lemma trend_rows_keys df d :
  Permutation
    (map (fun row => agg_key (agg row))
         (filter (fun r => Z.eqb (dq_id r) d)
                 (build_distributor_quarter_df df)))
    (keys_of_distributor df d).
Proof.
  unfold keys_of_distributor. rewrite <- aggregate_keys.
  transitivity
    (filter (fun k : Key => Z.eqb (fst (fst (fst k))) d)
            (map (fun row => agg_key (agg row))
                 (build_distributor_quarter_df df))).
  - rewrite filter_map_swap. reflexivity.
  - apply filter_permutation. rewrite <- (map_map agg agg_key).
    apply Permutation_map, table_rows_permutation.
Qed.

Lemma keys_of_distributor_in df d k :
  In k (keys_of_distributor df d)
  <-> (exists r, In r df /\ key_of r = Some k) /\ fst (fst (fst k)) = d.
Proof.
  unfold keys_of_distributor.
  rewrite filter_In, (sorted_unique_in key_cmp k (keys_of df)), keys_of_in,
    Z.eqb_eq.
  reflexivity.
Qed.

Lemma trend_rows_nil_iff df d :
  filter (fun r => Z.eqb (dq_id r) d) (build_distributor_quarter_df df) = []
  <-> forall r, In r df -> complete r = true -> Distributor_ID r <> Some d.
Proof.
  pose proof (trend_rows_keys df d) as P.
  split.
  - intros E r Hr Hc Hid. rewrite E in P. simpl in P.
    apply Permutation_nil in P.
    apply key_of_complete in Hc as [k Hk].
    assert (Hin : In k (keys_of_distributor df d)).
    { apply keys_of_distributor_in. split; [eauto|].
      apply key_of_id in Hk. rewrite Hid in Hk. now injection Hk. }
    rewrite P in Hin. contradiction.
  - intros H.
    destruct (filter (fun r => Z.eqb (dq_id r) d)
                     (build_distributor_quarter_df df)) as [|row rows];
      [reflexivity|exfalso].
    assert (Hin : In (agg_key (agg row)) (keys_of_distributor df d))
      by (eapply Permutation_in; [exact P|now left]).
    apply keys_of_distributor_in in Hin as [(r & Hr & Hk) Hd].
    apply (H r Hr).
    + apply key_of_complete. eauto.
    + rewrite (key_of_id _ _ Hk). now f_equal.
Qed.

(** X7.  The trend end point, from the uploaded records.  On data whose
    records all carry their distributor id and their year, and called with
    the decimal text of an integer [d]: it answers 404 exactly when no
    record with all four key cells present belongs to [d]; otherwise it
    returns the requested text with one point for every (state, year,
    quarter) group of [d], so at least one.  A request that is not the
    decimal text of any integer is answered 404.  Before any upload built
    the table the answer is HTTP 400. *)
Theorem distributor_trend_from_records (df : list RawRecord) (d : Z) :
  ids_present df = true -> years_present df = true ->
  let table := build_distributor_quarter_df df in
  (distributor_trend_request (Some table) (Py.str d)
   = Py.HTTPException 404 "No data found for selected distributor"
   <-> forall r, In r df -> complete r = true -> Distributor_ID r <> Some d)
  /\ (forall r, In r df -> complete r = true -> Distributor_ID r = Some d ->
      exists points,
        distributor_trend_request (Some table) (Py.str d)
        = Py.Returned (Py.str d, points)
        /\ List.length points = List.length (keys_of_distributor df d)
        /\ points <> [])
  /\ (forall requested, (forall d', requested <> Py.str d') ->
      distributor_trend_request (Some table) requested
      = Py.HTTPException 404 "No data found for selected distributor")
  /\ (forall requested,
      distributor_trend_request None requested
      = Py.HTTPException 400 "Distributor-quarter data not built").
Proof.
  intros _ _ table.
  assert (Hreq : forall requested,
            distributor_trend_request (Some table) requested
            = distributor_trend table requested) by reflexivity.
  assert (Hf : filter (fun r => String.eqb (Py.str (dq_id r)) (Py.str d))
                      table
               = filter (fun r => Z.eqb (dq_id r) d) table)
    by (apply filter_ext; intros r; apply str_eqb).
  pose proof (trend_rows_nil_iff df d) as Hnil. fold table in Hnil.
  pose proof (trend_rows_keys df d) as P. fold table in P.
  apply Permutation_length in P. rewrite length_map in P.
  split; [|split; [|split]].
  - rewrite Hreq, <- Hnil. unfold distributor_trend. rewrite Hf.
    destruct (filter (fun r => Z.eqb (dq_id r) d) table);
      split; try discriminate; reflexivity.
  - intros r Hr Hc Hid. rewrite Hreq. unfold distributor_trend. rewrite Hf.
    destruct (filter (fun r => Z.eqb (dq_id r) d) table) as [|row rows]
      eqn:E.
    { exfalso. exact (proj1 Hnil eq_refl r Hr Hc Hid). }
    eexists. split; [reflexivity|]. split.
    + now rewrite length_map, stable_sort_length.
    + intros N. apply (f_equal (@List.length _)) in N.
      rewrite length_map, stable_sort_length in N. discriminate.
  - intros requested Hno. rewrite Hreq. unfold distributor_trend.
    rewrite filter_none; [reflexivity|].
    intros a _. apply String.eqb_neq. intros E.
    apply (Hno (dq_id a)). now symmetry.
  - reflexivity.
Qed.

Lemma distributor_trend_from_records_witness :
  exists points,
    distributor_trend_request
      (Some (build_distributor_quarter_df Samples.two_quarters))
      (Py.str 101)
    = Py.Returned (Py.str 101, points)
    /\ List.length points
       = List.length (keys_of_distributor Samples.two_quarters 101)
    /\ points <> [].
Proof.
  exact (proj1 (proj2
    (distributor_trend_from_records Samples.two_quarters 101%Z
       eq_refl eq_refl))
    (Samples.record 101 "TX" 2022 "Q1" 1000 90 800 1000)
    (or_introl eq_refl) eq_refl eq_refl).
Defined.

Lemma labels_checked : labels_parse_back = true.
Proof. vm_compute. reflexivity. Qed.

Lemma pivot_year_in y : (1969 <= y <= 2068)%Z -> In y pivot_years.
Proof.
  intros H. unfold pivot_years. apply in_map_iff.
  exists (Z.to_nat (y - 1969)). split; [lia|].
  apply in_seq. lia.
Qed.

Lemma pivot_labels_parse y q :
  (1969 <= y <= 2068)%Z -> In q quarter_names ->
  parse_quarter (printed y q) = Some (y, q)
  /\ parse_quarter (doubled y q) = Some (y, q).
Proof.
  intros Hy Hq. pose proof labels_checked as H.
  unfold labels_parse_back in H. rewrite forallb_forall in H.
  specialize (H y (pivot_year_in y Hy)).
  rewrite forallb_forall in H. specialize (H q Hq).
  apply andb_true_iff in H. destruct H as [H1 H2].
  unfold parses_to in H1, H2.
  split.
  - destruct (parse_quarter (printed y q)) as [[y' q']|]; [|discriminate].
    apply andb_true_iff in H1. destruct H1 as [A B].
    apply Z.eqb_eq in A. apply String.eqb_eq in B. now subst.
  - destruct (parse_quarter (doubled y q)) as [[y' q']|]; [|discriminate].
    apply andb_true_iff in H2. destruct H2 as [A B].
    apply Z.eqb_eq in A. apply String.eqb_eq in B. now subst.
Qed.

(** The time columns of every row of a table built from a prepared
    upload. *)
Lemma prepared_table_time (df : list UploadedRow) (row : DQRow) :
  In row (build_distributor_quarter_df (prepare_time_columns df)) ->
  (1969 <= dq_year row <= 2068)%Z /\ In (dq_quarter row) quarter_names.
Proof.
  intros H.
  destruct (table_keys (prepare_time_columns df)) as [_ Hk].
  assert (Hin : In (agg_key (agg row))
                   (map (fun row => agg_key (agg row))
                        (build_distributor_quarter_df
                           (prepare_time_columns df))))
    by (apply in_map_iff; eauto).
  apply Hk in Hin. destruct Hin as [r [Hr Hkey]].
  unfold prepare_time_columns in Hr. apply in_map_iff in Hr.
  destruct Hr as [u [<- _]].
  unfold key_of in Hkey.
  destruct (Distributor_ID (prepare_row u)) as [d|]; [|discriminate].
  destruct (US_States (prepare_row u)) as [s|]; [|discriminate].
  destruct (year_only (prepare_row u)) as [y|] eqn:Ey; [|discriminate].
  destruct (quarter (prepare_row u)) as [q|] eqn:Eq; [|discriminate].
  apply (f_equal (fun k => match k with
                           | Some (_, _, y0, q0) => Some (y0, q0)
                           | None => None
                           end)) in Hkey.
  unfold agg_key in Hkey. apply some_pair_inj in Hkey.
  destruct Hkey as [Hy Hq].
  unfold dq_year, dq_quarter. rewrite <- Hy, <- Hq.
  destruct (Month_Parsed u) as [[y' m]|] eqn:Ep.
  - destruct (prepared_time_columns u y' m Ep) as (Hy' & Hr & Hm & Hq').
    rewrite Hy' in Ey. rewrite Hq' in Eq.
    injection Ey as <-. injection Eq as <-.
    split; [exact Hr|].
    unfold quarter_names.
    destruct (m <=? 3)%Z; [simpl; auto|].
    destruct (m <=? 6)%Z; [simpl; auto|].
    destruct (m <=? 9)%Z; simpl; auto.
  - unfold prepare_row in Ey. simpl in Ey. rewrite Ep in Ey. discriminate.
Qed.

(** X8.  On a table built from a prepared upload all of whose month labels
    parse (the year is then an integer column), the quarter label the trend
    end point prints for a row (the year, a space, the quarter) is parsed by
    the comparison end point back to the year and quarter of that row, and
    so is the documented form with the year repeated before the quarter. *)
Theorem trend_labels_parse_back (df : list UploadedRow) (row : DQRow) :
  all_months_parse df = true ->
  In row (build_distributor_quarter_df (prepare_time_columns df)) ->
  parse_quarter (tp_quarter (trend_point row))
  = Some (dq_year row, dq_quarter row)
  /\ parse_quarter (doubled (dq_year row) (dq_quarter row))
     = Some (dq_year row, dq_quarter row).
Proof.
  intros _ H. destruct (prepared_table_time df row H) as [Hy Hq].
  exact (pivot_labels_parse _ _ Hy Hq).
Qed.

Lemma trend_labels_parse_back_witness :
  parse_quarter "2023 Q1" = Some (2023%Z, "Q1"%string).
Proof.
  refine (proj1 (trend_labels_parse_back
            [ mkUploaded (Some 101%Z) (Some "TX"%string)
                (Some "Feb-23"%string) 10 1 8 9 ]
            (mkDQ (mkAgg 101 "TX" 2023 "Q1" 10 1 8 9) 12.5 nan VeryGood)
            eq_refl _)).
  vm_compute. left. reflexivity.
Defined.

(** ** The comparison of two different quarters *)

Lemma filter_find_unique {A} (key : A -> Z) (k : Z) (l : list A) :
  NoDup (map key l) ->
  filter (fun r => Z.eqb (key r) k) l
  = match find (fun r => Z.eqb (key r) k) l with
    | Some a => [a]
    | None => []
    end.
Proof.
  induction l as [|x l IH]; simpl; [trivial|].
  intros H. inversion H as [|? ? Hx Hl]; subst.
  destruct (Z.eqb_spec (key x) k) as [E|E]; [|auto].
  f_equal. clear IH H.
  assert (Hno : forall y, In y l -> Z.eqb (key y) k = false).
  { intros y Hy. apply Z.eqb_neq. intros E'. apply Hx.
    rewrite E, <- E'. apply in_map, Hy. }
  clear Hx Hl. induction l as [|y l IH]; simpl; [trivial|].
  rewrite (Hno y) by now left. apply IH. intros z Hz. apply Hno. now right.
Qed.

Lemma flat_map_singletons {A B} (f : A -> list B) (g : A -> B) l :
  (forall x, In x l -> f x = [g x]) -> flat_map f l = map g l.
Proof.
  induction l as [|x l IH]; simpl; [trivial|].
  intros H. rewrite (H x) by now left. simpl. f_equal. auto.
Qed.

Lemma find_none_iff {A} (f : A -> bool) l :
  find f l = None <-> forall x, In x l -> f x = false.
Proof.
  split; [apply find_none|].
  induction l as [|x l IH]; simpl; [trivial|].
  intros H. rewrite (H x) by now left. auto.
Qed.

(** With at most one row per distributor on each side, the outer join has
    one row per distributor of either side, in ascending order. *)
Lemma merge_outer_unique (l r : list DQRow) :
  NoDup (map dq_id l) -> NoDup (map dq_id r) ->
  merge_outer l r
  = map (fun k => (k, find (fun x => Z.eqb (dq_id x) k) l,
                      find (fun x => Z.eqb (dq_id x) k) r))
        (sorted_unique Z.compare (map dq_id l ++ map dq_id r)).
Proof.
  intros Hl Hr. unfold merge_outer. apply flat_map_singletons.
  intros k Hk. apply (proj1 (sorted_unique_in Z.compare _ _)) in Hk.
  rewrite (filter_find_unique dq_id k l Hl), (filter_find_unique dq_id k r Hr).
  destruct (find _ l) as [a|] eqn:Ea, (find _ r) as [b|] eqn:Eb;
    try reflexivity.
  exfalso. rewrite find_none_iff in Ea, Eb.
  apply in_app_or in Hk. destruct Hk as [Hk|Hk];
    apply in_map_iff in Hk; destruct Hk as [x [<- Hx]].
  - specialize (Ea x Hx). rewrite Z.eqb_refl in Ea. discriminate.
  - specialize (Eb x Hx). rewrite Z.eqb_refl in Eb. discriminate.
Qed.

Lemma nodup_map_filter {A B} (f : A -> B) (p : A -> bool) l :
  NoDup (map f l) -> NoDup (map f (filter p l)).
Proof.
  induction l as [|x l IH]; simpl; [trivial|].
  intros H. inversion H as [|? ? Hx Hl]; subst.
  destruct (p x); simpl; [|auto].
  constructor; [|auto].
  intros N. apply Hx. apply in_map_iff in N. destruct N as [a [E Ha]].
  apply filter_In in Ha. rewrite <- E. apply in_map, Ha.
Qed.

(** In a table with one row per key, a quarter of a state has at most one
    row per distributor. *)
Lemma quarter_rows_unique (dq : list DQRow) state y q distributors :
  NoDup (map (fun row => agg_key (agg row)) dq) ->
  NoDup (map dq_id (quarter_rows dq state y q distributors)).
Proof.
  intros H. unfold quarter_rows.
  set (rows := filter _ (filter _ (filter _ dq))).
  assert (Hk : NoDup (map (fun row => agg_key (agg row)) rows))
    by (unfold rows; now repeat apply nodup_map_filter).
  assert (Hall : forall r, In r rows ->
            agg_key (agg r) = (dq_id r, state, y, q)).
  { intros r Hr. unfold rows in Hr.
    apply filter_In, proj1, filter_In in Hr. destruct Hr as [Hr Hq].
    apply filter_In, proj2 in Hr.
    unfold in_quarter in Hq. apply andb_true_iff in Hq.
    destruct Hq as [Hy Hq]. apply Z.eqb_eq in Hy.
    apply String.eqb_eq in Hq, Hr.
    unfold agg_key, dq_id, dq_year, dq_quarter, dq_state in *. congruence. }
  clearbody rows. induction rows as [|x rows IH]; simpl; [constructor|].
  simpl in Hk. inversion Hk as [|? ? Hx Hrest]; subst.
  constructor; [|apply IH; auto; intros; apply Hall; now right].
  intros N. apply Hx. apply in_map_iff in N. destruct N as [z [E Hz]].
  apply in_map_iff. exists z. split; [|exact Hz].
  rewrite (Hall x) by now left. rewrite (Hall z) by now right. now rewrite E.
Qed.

Lemma Returned_inj {A} (x y : A) : Py.Returned x = Py.Returned y -> x = y.
Proof. now intros [= ->]. Qed.

(** The entries of a comparison of two different quarters on a table with
    one row per key. *)
Lemma comparison_entries (dq : list DQRow)
    (state quarter_a quarter_b distributor_1 : string)
    (distributor_2 : option string) (y1 y2 : Z) (q1 q2 : string)
    (resp : Comparison) :
  NoDup (map (fun row => agg_key (agg row)) dq) ->
  quarter_a <> quarter_b ->
  parse_quarter quarter_a = Some (y1, q1) ->
  parse_quarter quarter_b = Some (y2, q2) ->
  quarter_comparison dq state quarter_a quarter_b distributor_1 distributor_2
  = Py.Returned resp ->
  let distributors := chosen distributor_1 distributor_2 in
  let rows_a := quarter_rows dq state y1 q1 distributors in
  let rows_b := quarter_rows dq state y2 q2 distributors in
  comparison resp
  = map (fun k =>
           merged_entry (k, find (fun x => Z.eqb (dq_id x) k) rows_a,
                            find (fun x => Z.eqb (dq_id x) k) rows_b))
        (sorted_unique Z.compare (map dq_id rows_a ++ map dq_id rows_b)).
Proof.
  intros Hk Hne Ha Hb H distributors rows_a rows_b.
  unfold quarter_comparison in H.
  destruct (filter _ dq); [discriminate|].
  rewrite Ha, Hb in H. apply String.eqb_neq in Hne. rewrite Hne in H.
  fold distributors rows_a rows_b in H.
  assert (Hm := merge_outer_unique rows_a rows_b
                  (quarter_rows_unique dq state y1 q1 distributors Hk)
                  (quarter_rows_unique dq state y2 q2 distributors Hk)).
  etransitivity; [|apply (map_map _ merged_entry)].
  rewrite <- Hm. clear Hm.
  destruct (merge_outer rows_a rows_b) as [|m ms];
    apply Returned_inj in H; subst resp; reflexivity.
Qed.

Lemma chosen_length d1 d2 : (List.length (chosen d1 d2) <= 2)%nat.
Proof.
  unfold chosen. destruct d2 as [d|]; [destruct (String.eqb d "")|];
    simpl; lia.
Qed.

Lemma quarter_rows_in dq state y q distributors r :
  In r (quarter_rows dq state y q distributors)
  <-> In r dq /\ dq_state r = state /\ in_quarter y q r = true
      /\ selected distributors r = true.
Proof.
  unfold quarter_rows. rewrite !filter_In, String.eqb_eq. tauto.
Qed.

Lemma NoDup_map_injective {A B} (f : A -> B) (l : list A) :
  (forall a b, f a = f b -> a = b) -> NoDup l -> NoDup (map f l).
Proof.
  intros Hf. induction 1 as [|x l Hx Hl IH]; simpl; constructor; [|exact IH].
  intros N. apply in_map_iff in N. destruct N as [y [E Hy]].
  apply Hf in E. now subst.
Qed.

Lemma merged_entry_id k a b : distributor_id (merged_entry (k, a, b)) = k.
Proof. reflexivity. Qed.

(** X9.  Comparing two different quarters on a table built from records
    that all carry their distributor id gives one entry for every chosen
    distributor that has a row of the state in either quarter, and for no
    other; the entries ascend by distributor id, and there are at most two
    of them. *)
Theorem different_quarters_one_entry_per_distributor (df : list RawRecord)
    (state quarter_a quarter_b distributor_1 : string)
    (distributor_2 : option string) (y1 y2 : Z) (q1 q2 : string)
    (resp : Comparison) :
  let table := build_distributor_quarter_df df in
  ids_present df = true ->
  quarter_a <> quarter_b ->
  parse_quarter quarter_a = Some (y1, q1) ->
  parse_quarter quarter_b = Some (y2, q2) ->
  quarter_comparison table state quarter_a quarter_b
    distributor_1 distributor_2 = Py.Returned resp ->
  let ids := map distributor_id (comparison resp) in
  StronglySorted Z.lt ids
  /\ (forall k,
        In k ids <->
        exists row,
          In row table /\ dq_id row = k /\ dq_state row = state
          /\ selected (chosen distributor_1 distributor_2) row = true
          /\ (in_quarter y1 q1 row = true \/ in_quarter y2 q2 row = true))
  /\ (List.length ids <= 2)%nat.
Proof.
  intros table _ Hne Ha Hb H ids.
  pose proof (comparison_entries table state quarter_a quarter_b
                distributor_1 distributor_2 y1 y2 q1 q2 resp
                (proj1 (table_keys df)) Hne Ha Hb H) as He.
  set (distributors := chosen distributor_1 distributor_2) in *.
  set (rows_a := quarter_rows table state y1 q1 distributors) in *.
  set (rows_b := quarter_rows table state y2 q2 distributors) in *.
  assert (Hids : ids = sorted_unique Z.compare
                         (map dq_id rows_a ++ map dq_id rows_b)).
  { unfold ids. rewrite He, map_map.
    etransitivity; [|apply map_id]. now apply map_ext. }
  assert (Hin : forall k,
            In k ids <->
            exists row,
              In row table /\ dq_id row = k /\ dq_state row = state
              /\ selected distributors row = true
              /\ (in_quarter y1 q1 row = true \/ in_quarter y2 q2 row = true)).
  { intros k. rewrite Hids, (sorted_unique_in Z.compare), in_app_iff.
    rewrite !in_map_iff. split.
    - intros [[r [E Hr]]|[r [E Hr]]]; apply quarter_rows_in in Hr;
        exists r; intuition.
    - intros [r (Hr & E & Hs & Hsel & [Hq|Hq])]; [left|right];
        exists r; (split; [exact E|]); apply quarter_rows_in; auto. }
  split; [|split; [exact Hin|]].
  - rewrite Hids.
    eapply StronglySorted_weaken;
      [|apply (sorted_unique_strict Z.compare)].
    intros a b _ _. apply Z.compare_lt_iff.
  - etransitivity; [|apply (chosen_length distributor_1 distributor_2)].
    rewrite <- (length_map Py.str ids).
    apply NoDup_incl_length.
    + apply NoDup_map_injective; [intros a b; apply str_inj|].
      rewrite Hids. apply (sorted_unique_nodup Z.compare).
    + intros s Hs. apply in_map_iff in Hs. destruct Hs as [k [<- Hk]].
      apply Hin in Hk. destruct Hk as [row (_ & <- & _ & Hsel & _)].
      unfold selected in Hsel. apply existsb_exists in Hsel.
      destruct Hsel as [s [Hs E]]. apply String.eqb_eq in E. now subst.
Qed.

Lemma different_quarters_one_entry_per_distributor_witness :
  exists resp,
    quarter_comparison (build_distributor_quarter_df Samples.two_quarters)
      "TX" "2022 Q1" "2022 Q2" "101" (Some "102"%string) = Py.Returned resp
    /\ map distributor_id (comparison resp) = [101%Z; 102%Z]
    /\ StronglySorted Z.lt (map distributor_id (comparison resp)).
Proof.
  eexists. split; [vm_compute; reflexivity|]. split; [reflexivity|].
  refine (proj1 (different_quarters_one_entry_per_distributor
            Samples.two_quarters "TX" "2022 Q1" "2022 Q2" "101"
            (Some "102"%string) 2022 2022 "Q1" "Q2" _
            eq_refl ltac:(discriminate) eq_refl eq_refl _)).
  vm_compute. reflexivity.
Defined.

(** X10.  In a comparison of two different quarters on a table built from
    records that all carry their distributor id, a distributor without a
    row in the first quarter is reported with a first-quarter waste of 0
    and the status "Unknown" on the left of the arrow, and the difference
    is the whole second-quarter waste; likewise, exchanged, without a row
    in the second quarter. *)
Theorem absent_quarter_reported_as_zero_and_unknown (df : list RawRecord)
    (state quarter_a quarter_b distributor_1 : string)
    (distributor_2 : option string) (y1 y2 : Z) (q1 q2 : string)
    (resp : Comparison) (e : Entry) :
  let table := build_distributor_quarter_df df in
  ids_present df = true ->
  quarter_a <> quarter_b ->
  parse_quarter quarter_a = Some (y1, q1) ->
  parse_quarter quarter_b = Some (y2, q2) ->
  quarter_comparison table state quarter_a quarter_b
    distributor_1 distributor_2 = Py.Returned resp ->
  In e (comparison resp) ->
  let distributors := chosen distributor_1 distributor_2 in
  let rows_a := quarter_rows table state y1 q1 distributors in
  let rows_b := quarter_rows table state y2 q2 distributors in
  ((forall r, In r rows_a -> dq_id r <> distributor_id e) ->
   exists b,
     In b rows_b /\ dq_id b = distributor_id e
     /\ total_waste_q1 e = 0
     /\ delta e = round2 (fillna0 (dq_waste b) - 0)
     /\ trend e = waste_trend_arrow (fillna0 (dq_waste b) - 0)
     /\ status_change e
        = ("Unknown" ++ to_arrow ++ status_str (Status b))%string)
  /\ ((forall r, In r rows_b -> dq_id r <> distributor_id e) ->
      exists a,
        In a rows_a /\ dq_id a = distributor_id e
        /\ total_waste_q2 e = 0
        /\ delta e = round2 (0 - fillna0 (dq_waste a))
        /\ trend e = waste_trend_arrow (0 - fillna0 (dq_waste a))
        /\ status_change e
           = (status_str (Status a) ++ to_arrow ++ "Unknown")%string).
Proof.
  intros table _ Hne Ha Hb H He distributors rows_a rows_b.
  pose proof (comparison_entries table state quarter_a quarter_b
                distributor_1 distributor_2 y1 y2 q1 q2 resp
                (proj1 (table_keys df)) Hne Ha Hb H) as Hc.
  cbv zeta in Hc. fold distributors in Hc. fold rows_a rows_b in Hc.
  rewrite Hc in He. apply in_map_iff in He. destruct He as [k [<- Hk]].
  rewrite merged_entry_id.
  apply (proj1 (sorted_unique_in Z.compare _ _)) in Hk.
  set (fa := find (fun x => Z.eqb (dq_id x) k) rows_a).
  set (fb := find (fun x => Z.eqb (dq_id x) k) rows_b).
  assert (Hfa : (forall r, In r rows_a -> dq_id r <> k) -> fa = None).
  { intros N. apply find_none_iff. intros x Hx. now apply Z.eqb_neq, N. }
  assert (Hfb : (forall r, In r rows_b -> dq_id r <> k) -> fb = None).
  { intros N. apply find_none_iff. intros x Hx. now apply Z.eqb_neq, N. }
  assert (Hsa : (forall r, In r rows_b -> dq_id r <> k) ->
                exists a, fa = Some a /\ In a rows_a /\ dq_id a = k).
  { intros N. destruct fa as [a|] eqn:E.
    - apply find_some in E. destruct E as [E1 E2]. apply Z.eqb_eq in E2.
      eauto.
    - exfalso. unfold fa in E. rewrite find_none_iff in E.
      apply in_app_or in Hk. destruct Hk as [Hk|Hk];
        apply in_map_iff in Hk; destruct Hk as [x [Ex Hx]].
      + specialize (E x Hx). rewrite Ex, Z.eqb_refl in E. discriminate.
      + now apply (N x Hx). }
  assert (Hsb : (forall r, In r rows_a -> dq_id r <> k) ->
                exists b, fb = Some b /\ In b rows_b /\ dq_id b = k).
  { intros N. destruct fb as [b|] eqn:E.
    - apply find_some in E. destruct E as [E1 E2]. apply Z.eqb_eq in E2.
      eauto.
    - exfalso. unfold fb in E. rewrite find_none_iff in E.
      apply in_app_or in Hk. destruct Hk as [Hk|Hk];
        apply in_map_iff in Hk; destruct Hk as [x [Ex Hx]].
      + now apply (N x Hx).
      + specialize (E x Hx). rewrite Ex, Z.eqb_refl in E. discriminate. }
  split; intros N.
  - destruct (Hsb N) as (b & Eb & Hb1 & Hb2). rewrite (Hfa N), Eb.
    exists b. repeat split; auto.
  - destruct (Hsa N) as (a & Ea & Ha1 & Ha2). rewrite (Hfb N), Ea.
    exists a. repeat split; auto.
Qed.

Lemma absent_quarter_reported_as_zero_and_unknown_witness :
  let e := mkEntry 102 150 0 (-150) arrow_down "Very Good → Unknown" in
  exists a, dq_id a = 102%Z /\ total_waste_q2 e = 0
            /\ status_change e
               = (status_str (Status a) ++ to_arrow ++ "Unknown")%string.
Proof.
  intros e.
  pose proof (proj2 (absent_quarter_reported_as_zero_and_unknown
              Samples.two_quarters "TX" "2022 Q1" "2022 Q2" "101"
              (Some "102"%string) 2022 2022 "Q1" "Q2"
              (mkComparison (Some ("TX", "2022 Q1", "2022 Q2")%string)
                 [mkEntry 101 1000 1200 200 arrow_up "Very Good → Very Good";
                  e])
              e eq_refl ltac:(discriminate) eq_refl eq_refl
              ltac:(vm_compute; reflexivity)
              ltac:(right; left; reflexivity))) as P.
  match type of P with
  | ?A -> _ => assert (N : A)
  end.
  { intros r Hr. vm_compute in Hr. destruct Hr as [<-|[]].
    vm_compute. discriminate. }
  destruct (P N) as (a & _ & Ha & Hz & _ & _ & Hs).
  exists a. auto.
Defined.

(** ** The trend arrow *)

Lemma eqb_neither_lt x y :
  is_nan x = false -> is_nan y = false ->
  (x =? y) = negb (x <? y) && negb (y <? x).
Proof.
  rewrite !is_nan_spec, eqb_spec, !ltb_spec. unfold SFeqb, SFltb.
  rewrite (SFcompare_antisym (Prim2SF x) (Prim2SF y)).
  destruct (Prim2SF x) as [b|b| |b m e], (Prim2SF y) as [c|c| |c n f];
    simpl; try discriminate; intros _ _;
    try reflexivity; try (destruct b; reflexivity);
    try (destruct c; reflexivity); try (destruct b, c; reflexivity).
  destruct b, c; simpl; try reflexivity;
    destruct (e ?= f)%Z; simpl; try reflexivity;
    destruct (Pos.compare_cont Eq m n); reflexivity.
Qed.

Lemma ltb_asym x y : (x <? y) = true -> (y <? x) = false.
Proof.
  intros H. destruct (y <? x) eqn:E; [|reflexivity].
  pose proof (lt_le_trans _ _ _ H (ltb_leb _ _ E)) as C.
  rewrite ltb_spec in C. unfold SFltb in C.
  destruct (SF_nan (Prim2SF x)) eqn:N.
  - rewrite SFcompare_nan_l in C by exact N. discriminate.
  - rewrite SFcompare_refl in C by exact N. discriminate.
Qed.

(** X11.  The trend arrow follows the sign of the difference: the empty
    text for NaN, otherwise "up" exactly for a positive difference, "down"
    exactly for a negative one and "flat" exactly for a difference equal to
    zero, one of the three always applying. *)
Theorem waste_trend_arrow_follows_sign (d : float) :
  (isna d = true -> waste_trend_arrow d = ""%string)
  /\ (isna d = false ->
      ((0 <? d) = true -> waste_trend_arrow d = arrow_up)
      /\ ((d <? 0) = true -> waste_trend_arrow d = arrow_down)
      /\ ((d =? 0) = true -> waste_trend_arrow d = arrow_flat)
      /\ ((0 <? d) = true \/ (d <? 0) = true \/ (d =? 0) = true)).
Proof.
  unfold waste_trend_arrow. split; [now intros ->|].
  intros N. rewrite N. unfold isna in N.
  pose proof (eqb_neither_lt d 0 N eq_refl) as E.
  repeat split.
  - now intros ->.
  - intros H. now rewrite (ltb_asym _ _ H), H.
  - intros H. rewrite H in E. symmetry in E.
    apply andb_true_iff in E. destruct E as [E1 E2].
    apply negb_true_iff in E1, E2. now rewrite E1, E2.
  - destruct (0 <? d); [auto|]. destruct (d <? 0); [auto|].
    right. right. exact E.
Qed.

(** ** The alert rules *)

Import AlertsRouter AlertRules.

#[local] Instance group_StrictCmp : StrictCmp group_cmp.
Proof.
  exact (@pair_StrictCmp _ _ _ _ Z_StrictCmp string_StrictCmp).
Qed.

Lemma group_keys_in df k :
  In k (group_keys df) <-> exists r, In r df /\ group_key r = Some k.
Proof.
  induction df as [|r df IH]; simpl.
  - split; [tauto|]. now intros [r [[] _]].
  - destruct (group_key r) as [k0|] eqn:E; simpl; rewrite IH; split.
    + intros [<-|[r' [H1 H2]]]; eauto.
    + intros [r' [[<-|H1] H2]]; [left; congruence|eauto].
    + intros [r' [H1 H2]]; eauto.
    + intros [r' [[<-|H1] H2]]; [congruence|eauto].
Qed.

Lemma grouped_in x y df k a b :
  In (k, a, b) (grouped x y df)
  <-> In k (group_keys df)
      /\ a = group_total x k df /\ b = group_total y k df.
Proof.
  unfold grouped, group_total. rewrite in_map_iff. split.
  - intros [k' [[= <- <- <-] Hk]].
    apply (proj1 (sorted_unique_in group_cmp _ _)) in Hk. auto.
  - intros (Hk & -> & ->). exists k. split; [reflexivity|].
    now apply (proj2 (sorted_unique_in group_cmp _ _)).
Qed.

Lemma with_ratio_in x y df k u :
  In (k, u) (with_ratio (grouped x y df))
  <-> In k (group_keys df)
      /\ (0 <? group_total y k df) = true
      /\ u = group_total x k df / group_total y k df.
Proof.
  unfold with_ratio. rewrite in_map_iff. split.
  - intros [[[k' a] b] [[= <- <-] H]].
    apply filter_In in H. destruct H as [H Hpos]. simpl in Hpos.
    apply grouped_in in H. destruct H as (Hk & -> & ->). auto.
  - intros (Hk & Hpos & ->).
    exists (k, group_total x k df, group_total y k df).
    split; [reflexivity|]. apply filter_In. split; [|exact Hpos].
    now apply grouped_in.
Qed.

Lemma raise_alerts_in df a :
  In a (raise_alerts df)
  <-> (exists r, a = high_alert r
         /\ In r (with_ratio (grouped Waste_Quantity_Sum
                                Waste_Allowance_Quantity df))
         /\ (1 <? snd r) = true)
      \/ (exists r, a = medium_alert r
            /\ In r (with_ratio (grouped Returns_Quantity
                                   Deliveries_Quantity df))
            /\ (0.08 <? snd r) = true)
      \/ (exists r, a = low_alert r
            /\ In r (with_ratio (grouped Waste_Quantity_Sum
                                   Waste_Allowance_Quantity df))
            /\ (snd r <? 0.6) = true).
Proof.
  unfold raise_alerts. rewrite !in_app_iff, !in_map_iff.
  split.
  - intros [[r [<- H]]|[[r [<- H]]|[r [<- H]]]]; apply filter_In in H;
      [left|right; left|right; right]; exists r; tauto.
  - intros [[r (-> & H1 & H2)]|[[r (-> & H1 & H2)]|[r (-> & H1 & H2)]]];
      [left|right; left|right; right]; exists r;
      (split; [reflexivity|]); apply filter_In; auto.
Qed.

(** What raises an alert of each severity for a group. *)
Lemma alert_rules (df : list RawRecord) (k : GroupKey) :
  let waste := group_total Waste_Quantity_Sum k df in
  let allowance := group_total Waste_Allowance_Quantity k df in
  let returns := group_total Returns_Quantity k df in
  let deliveries := group_total Deliveries_Quantity k df in
  ((exists a, In a (raise_alerts df) /\ alert_for HIGH k a)
   <-> In k (group_keys df) /\ (0 <? allowance) = true
       /\ (1 <? waste / allowance) = true)
  /\ ((exists a, In a (raise_alerts df) /\ alert_for MEDIUM k a)
      <-> In k (group_keys df) /\ (0 <? deliveries) = true
          /\ (0.08 <? returns / deliveries) = true)
  /\ ((exists a, In a (raise_alerts df) /\ alert_for LOW k a)
      <-> In k (group_keys df) /\ (0 <? allowance) = true
          /\ (waste / allowance <? 0.6) = true).
Proof.
  intros waste allowance returns deliveries. unfold alert_for.
  destruct k as [d s]. simpl.
  split; [|split]; split.
  - intros [a [Ha (Hs & Hd & Hst)]]. apply raise_alerts_in in Ha.
    destruct Ha as [[[[d' s'] u] (-> & Hr & Hu)]
                   |[[r (-> & _)]|[r (-> & _)]]]; try discriminate.
    simpl in Hd, Hst, Hu. subst d' s'.
    apply with_ratio_in in Hr. destruct Hr as (Hk & Hp & ->). auto.
  - intros (Hk & Hp & Hu).
    exists (high_alert ((d, s), waste / allowance)).
    split; [|simpl; auto]. apply raise_alerts_in. left.
    eexists. split; [reflexivity|]. split; [|exact Hu].
    apply with_ratio_in. auto.
  - intros [a [Ha (Hs & Hd & Hst)]]. apply raise_alerts_in in Ha.
    destruct Ha as [[r (-> & _)]
                   |[[[[d' s'] u] (-> & Hr & Hu)]|[r (-> & _)]]];
      try discriminate.
    simpl in Hd, Hst, Hu. subst d' s'.
    apply with_ratio_in in Hr. destruct Hr as (Hk & Hp & ->). auto.
  - intros (Hk & Hp & Hu).
    exists (medium_alert ((d, s), returns / deliveries)).
    split; [|simpl; auto]. apply raise_alerts_in. right. left.
    eexists. split; [reflexivity|]. split; [|exact Hu].
    apply with_ratio_in. auto.
  - intros [a [Ha (Hs & Hd & Hst)]]. apply raise_alerts_in in Ha.
    destruct Ha as [[r (-> & _)]
                   |[[r (-> & _)]|[[[d' s'] u] (-> & Hr & Hu)]]];
      try discriminate.
    simpl in Hd, Hst, Hu. subst d' s'.
    apply with_ratio_in in Hr. destruct Hr as (Hk & Hp & ->). auto.
  - intros (Hk & Hp & Hu).
    exists (low_alert ((d, s), waste / allowance)).
    split; [|simpl; auto]. apply raise_alerts_in. right. right.
    eexists. split; [reflexivity|]. split; [|exact Hu].
    apply with_ratio_in. auto.
Qed.

(** X12.  An alert of a severity exists for a (distributor, state) group
    exactly when the group is present in the data and its rule fires: HIGH
    when the allowance sum is positive and waste / allowance exceeds 1,
    MEDIUM when the deliveries sum is positive and returns / deliveries
    exceeds 0.08, LOW when the allowance sum is positive and
    waste / allowance is below 0.6.  A group with a zero, negative or NaN
    denominator raises nothing under that rule. *)
Theorem alerts_raised_exactly_by_rules (df : list RawRecord) (k : GroupKey) :
  let waste := group_total Waste_Quantity_Sum k df in
  let allowance := group_total Waste_Allowance_Quantity k df in
  let returns := group_total Returns_Quantity k df in
  let deliveries := group_total Deliveries_Quantity k df in
  ((exists a, In a (raise_alerts df) /\ alert_for HIGH k a)
   <-> In k (group_keys df) /\ (0 <? allowance) = true
       /\ (1 <? waste / allowance) = true)
  /\ ((exists a, In a (raise_alerts df) /\ alert_for MEDIUM k a)
      <-> In k (group_keys df) /\ (0 <? deliveries) = true
          /\ (0.08 <? returns / deliveries) = true)
  /\ ((exists a, In a (raise_alerts df) /\ alert_for LOW k a)
      <-> In k (group_keys df) /\ (0 <? allowance) = true
          /\ (waste / allowance <? 0.6) = true).
Proof. exact (alert_rules df k). Qed.

(** X13.  A (distributor, state) group with a HIGH alert has no LOW
    alert. *)
Theorem high_alert_excludes_low (df : list RawRecord) (k : GroupKey)
    (a : Alert) :
  In a (raise_alerts df) -> alert_for HIGH k a ->
  forall b, In b (raise_alerts df) -> ~ alert_for LOW k b.
Proof.
  intros Ha Hka b Hb Hkb.
  destruct (alert_rules df k) as (Hh & _ & Hl).
  destruct (proj1 Hh (ex_intro _ a (conj Ha Hka))) as (_ & _ & H1).
  destruct (proj1 Hl (ex_intro _ b (conj Hb Hkb))) as (_ & _ & H2).
  pose proof (lt_le_trans _ _ _ H1 (ltb_leb _ _ H2)) as C.
  discriminate C.
Qed.

Lemma high_alert_excludes_low_witness :
  let a := high_alert ((101%Z, "TX"%string), 2.5) in
  In a (raise_alerts Samples.alerting)
  /\ forall b, In b (raise_alerts Samples.alerting) ->
               ~ alert_for LOW (101%Z, "TX"%string) b.
Proof.
  intros a.
  assert (Ha : In a (raise_alerts Samples.alerting))
    by (vm_compute; left; reflexivity).
  split; [exact Ha|].
  apply (high_alert_excludes_low Samples.alerting (101%Z, "TX"%string) a Ha).
  repeat split.
Defined.

(** ** The alert end point: filters and failures *)

Lemma filter_filter {A} (p q : A -> bool) l :
  filter q (filter p l) = filter (fun a => p a && q a) l.
Proof.
  induction l as [|x l IH]; simpl; [trivial|].
  destruct (p x); simpl; [|exact IH].
  destruct (q x); simpl; now rewrite IH.
Qed.

Lemma filter_if {A} (c : bool) (p : A -> bool) l :
  (if negb c then filter p l else l) = filter (fun a => c || p a) l.
Proof.
  destruct c; simpl; [|reflexivity].
  induction l as [|x l IH]; simpl; [trivial|]. now rewrite <- IH.
Qed.

(** The list of a successful call: the deduplicated alerts that pass the
    three filters, in the order of the deduplicated list. *)
Lemma response_alerts df sev dist st r :
  get_alerts df sev dist st = Py.Returned r ->
  alerts r = filter (passes sev dist st) (deduplicate (raise_alerts df)).
Proof.
  unfold get_alerts.
  destruct (raise_alerts df) as [|a0 rest]; [discriminate|].
  set (all := a0 :: rest).
  rewrite (filter_if (String.eqb (Py.upper sev) "ALL")).
  unfold passes.
  destruct (String.eqb dist "ALL") eqn:Ed; simpl.
  - intros H. apply Returned_inj in H. subst r. simpl.
    rewrite (filter_if (String.eqb st "ALL")), filter_filter.
    apply filter_ext. intros a. now rewrite andb_true_r.
  - destruct (Py.int dist) as [d|]; [|discriminate].
    intros H. apply Returned_inj in H. subst r. simpl.
    rewrite (filter_if (String.eqb st "ALL")), !filter_filter.
    apply filter_ext. intros a. now rewrite andb_assoc.
Qed.

Lemma severity_str_inj s s' : severity_str s = severity_str s' -> s = s'.
Proof. destruct s, s'; simpl; intros H; try reflexivity; discriminate. Qed.

Lemma deduplicate_nodup all : NoDup (map distributor_id (deduplicate all)).
Proof.
  unfold deduplicate. apply drop_duplicates_nodup.
Qed.

Lemma passes_iff sev dist st a :
  passes sev dist st a = true
  <-> (Py.upper sev = "ALL"%string
       \/ severity_str (severity a) = Py.upper sev)
      /\ (dist = "ALL"%string \/ Py.int dist = Some (distributor_id a))
      /\ (st = "ALL"%string \/ state a = st).
Proof.
  unfold passes. rewrite !andb_true_iff, !orb_true_iff, !String.eqb_eq.
  assert (Hd : match Py.int dist with
               | Some d => Z.eqb (distributor_id a) d
               | None => false
               end = true
               <-> Py.int dist = Some (distributor_id a)).
  { destruct (Py.int dist) as [d|]; [|split; discriminate].
    rewrite Z.eqb_eq. split; [now intros ->|now intros [= ->]]. }
  rewrite Hd. tauto.
Qed.

(** X14.  The list of a successful call holds exactly the deduplicated
    alerts that pass the three filters (the severity compared in upper
    case, the distributor as an integer, the state as it is), in the order
    of the deduplicated list; no distributor occurs twice in it. *)
Theorem response_is_the_filtered_deduplicated_list (df : list RawRecord)
    (severity_arg distributor_arg state_arg : string) (r : AlertsResponse) :
  get_alerts df severity_arg distributor_arg state_arg = Py.Returned r ->
  alerts r = filter (passes severity_arg distributor_arg state_arg)
                    (deduplicate (raise_alerts df))
  /\ NoDup (map distributor_id (alerts r))
  /\ forall a,
       In a (alerts r) <->
       In a (deduplicate (raise_alerts df))
       /\ (Py.upper severity_arg = "ALL"%string
           \/ severity_str (severity a) = Py.upper severity_arg)
       /\ (distributor_arg = "ALL"%string
           \/ Py.int distributor_arg = Some (distributor_id a))
       /\ (state_arg = "ALL"%string \/ state a = state_arg).
Proof.
  intros H. pose proof (response_alerts _ _ _ _ _ H) as E.
  split; [exact E|]. rewrite E. split.
  - apply nodup_map_filter, deduplicate_nodup.
  - intros a. rewrite filter_In, passes_iff. reflexivity.
Qed.

Lemma response_is_the_filtered_deduplicated_list_witness :
  exists r,
    get_alerts Samples.alerting "high" "101" "ALL" = Py.Returned r
    /\ map (fun a => (severity a, distributor_id a, state a)) (alerts r)
       = [(HIGH, 101%Z, "TX"%string)].
Proof.
  destruct (get_alerts Samples.alerting "high" "101" "ALL")
    as [r| |] eqn:E; try (vm_compute in E; discriminate E).
  exists r. split; [reflexivity|].
  rewrite (proj1 (response_is_the_filtered_deduplicated_list
                    Samples.alerting "high" "101" "ALL" r E)).
  vm_compute. reflexivity.
Defined.

(** X15.  The filters come after the deduplication: a call for one severity
    returns no alert of a distributor that has an alert of a higher
    priority, although the distributor has alerts of the requested
    severity. *)
Theorem higher_alert_hides_requested_severity (df : list RawRecord)
    (severity_arg distributor_arg state_arg : string) (r : AlertsResponse)
    (s : Severity) (b : Alert) :
  get_alerts df severity_arg distributor_arg state_arg = Py.Returned r ->
  Py.upper severity_arg = severity_str s ->
  In b (raise_alerts df) ->
  (priority s < priority (severity b))%Z ->
  forall a, In a (alerts r) -> distributor_id a <> distributor_id b.
Proof.
  intros H Hs Hb Hlt a Ha Hid.
  rewrite (response_alerts _ _ _ _ _ H) in Ha.
  apply filter_In in Ha. destruct Ha as [Ha Hp].
  apply passes_iff in Hp. destruct Hp as ([Hall|Hsev] & _ & _).
  - rewrite Hs in Hall. destruct s; discriminate.
  - rewrite Hs in Hsev. apply severity_str_inj in Hsev.
    destruct (dedup_any_descending_order (raise_alerts df)
                (stable_sort priority_cmp (raise_alerts df))
                (distributor_id b))
      as (a0 & Hf & _ & _ & Hmax).
    + apply stable_sort_perm.
    + apply sort_by_priority_descending.
    + apply in_map, Hb.
    + assert (Hin : In a (filter (fun x => Z.eqb (distributor_id x)
                                              (distributor_id b))
                             (deduplicate (raise_alerts df)))).
      { apply filter_In. split; [exact Ha|]. now apply Z.eqb_eq. }
      unfold deduplicate in Hin. rewrite Hf in Hin.
      destruct Hin as [<-|[]].
      specialize (Hmax b Hb eq_refl). unfold outranks in Hmax.
      rewrite Hsev in Hmax. lia.
Qed.

Lemma higher_alert_hides_requested_severity_witness :
  exists r,
    get_alerts Samples.alerting "low" "ALL" "ALL" = Py.Returned r
    /\ forall a, In a (alerts r) -> distributor_id a <> 101%Z.
Proof.
  destruct (get_alerts Samples.alerting "low" "ALL" "ALL")
    as [r| |] eqn:E; try (vm_compute in E; discriminate E).
  exists r. split; [reflexivity|].
  apply (higher_alert_hides_requested_severity
           Samples.alerting "low" "ALL" "ALL" r LOW
           (high_alert ((101%Z, "TX"%string), 2.5)) E eq_refl).
  - vm_compute. left. reflexivity.
  - vm_compute. reflexivity.
Defined.

Lemma alert_iff_fires df s k :
  (exists a, In a (raise_alerts df) /\ alert_for s k a)
  <-> In k (group_keys df) /\ fires s k df = true.
Proof.
  destruct (alert_rules df k) as (Hh & Hm & Hl).
  destruct s; unfold fires; cbv zeta; rewrite andb_true_iff;
    [exact Hh|exact Hm|exact Hl].
Qed.

Lemma raise_alerts_nil_iff df :
  raise_alerts df = []
  <-> forall k s, In k (group_keys df) -> fires s k df = false.
Proof.
  split.
  - intros E k s Hk. destruct (fires s k df) eqn:F; [|reflexivity].
    destruct (proj2 (alert_iff_fires df s k) (conj Hk F)) as [a [Ha _]].
    rewrite E in Ha. destruct Ha.
  - intros H. destruct (raise_alerts df) as [|a l] eqn:E; [reflexivity|].
    assert (Ha : exists a', In a' (raise_alerts df)
                            /\ alert_for (severity a)
                                 (distributor_id a, state a) a').
    { exists a. rewrite E. split; [now left|repeat split]. }
    apply alert_iff_fires in Ha. destruct Ha as [Hk F].
    rewrite (H _ _ Hk) in F. discriminate.
Qed.

(** X16.  How the alert end point fails.  On an uploaded data set it
    raises KeyError exactly when no rule fires for any (distributor, state)
    group of the data (so also on data without a single complete group),
    whatever its arguments; it raises ValueError exactly when some rule
    fires and the distributor argument is neither "ALL" nor an integer; it
    raises nothing else.  A request answers with an HTTP error exactly when
    no data set was uploaded, and the error is then 400 "Dataset not
    uploaded yet", from [get_df]; with a data set the request is the body
    of the end point on it. *)
Theorem get_alerts_failures (df : list RawRecord)
    (severity_arg distributor_arg state_arg : string) :
  let outcome := get_alerts df severity_arg distributor_arg state_arg in
  (outcome = Py.Raised "KeyError"
   <-> forall k s, In k (group_keys df) -> fires s k df = false)
  /\ (outcome = Py.Raised "ValueError"
      <-> (exists k s, In k (group_keys df) /\ fires s k df = true)
          /\ distributor_arg <> "ALL"%string
          /\ Py.int distributor_arg = None)
  /\ (forall exc, outcome = Py.Raised exc ->
        exc = "KeyError"%string \/ exc = "ValueError"%string)
  /\ alerts_request (Some df) severity_arg distributor_arg state_arg
     = outcome
  /\ (forall app_state status_code detail,
        alerts_request app_state severity_arg distributor_arg state_arg
        = Py.HTTPException status_code detail
        <-> app_state = None /\ status_code = 400%Z
            /\ detail = "Dataset not uploaded yet"%string).
Proof.
  intros outcome.
  assert (Hhttp : forall df' status_code detail,
            get_alerts df' severity_arg distributor_arg state_arg
            <> Py.HTTPException status_code detail).
  { intros df' status_code detail. unfold get_alerts.
    destruct (raise_alerts df'); simpl; [discriminate|].
    destruct (String.eqb distributor_arg "ALL"); simpl; [discriminate|].
    destruct (Py.int distributor_arg); simpl; discriminate. }
  cut ((outcome = Py.Raised "KeyError"
        <-> forall k s, In k (group_keys df) -> fires s k df = false)
       /\ (outcome = Py.Raised "ValueError"
           <-> (exists k s, In k (group_keys df) /\ fires s k df = true)
               /\ distributor_arg <> "ALL"%string
               /\ Py.int distributor_arg = None)
       /\ (forall exc, outcome = Py.Raised exc ->
             exc = "KeyError"%string \/ exc = "ValueError"%string)
       /\ (forall status_code detail,
             outcome <> Py.HTTPException status_code detail)).
  { intros (H1 & H2 & H3 & _). split; [exact H1|]. split; [exact H2|].
    split; [exact H3|]. split; [reflexivity|].
    intros [df'|] status_code detail; unfold alerts_request; simpl.
    - split.
      + intros E. exfalso.
        destruct (get_alerts df' severity_arg distributor_arg state_arg)
          eqn:G; try discriminate.
        eapply Hhttp. exact G.
      + intros [N _]. discriminate.
    - split.
      + intros [= <- <-]. repeat split.
      + intros (_ & -> & ->). reflexivity. }
  rewrite <- raise_alerts_nil_iff.
  assert (Hex : (exists k s, In k (group_keys df) /\ fires s k df = true)
                <-> raise_alerts df <> []).
  { split.
    - intros (k & s & Hk & F) E.
      rewrite (proj1 (raise_alerts_nil_iff df) E k s Hk) in F. discriminate.
    - intros Hne. destruct (raise_alerts df) as [|a l] eqn:E;
        [contradiction|].
      exists (distributor_id a, state a), (severity a).
      apply alert_iff_fires. exists a. rewrite E.
      split; [now left|repeat split]. }
  rewrite Hex. clear Hex. unfold outcome, get_alerts.
  destruct (raise_alerts df) as [|a l]; simpl.
  - split; [split; reflexivity|]. split; [|split].
    + split; [discriminate|]. intros [N _]. now contradiction N.
    + intros exc [= <-]. now left.
    + discriminate.
  - destruct (String.eqb_spec distributor_arg "ALL") as [E|E]; simpl.
    + split; [split; discriminate|]. split; [|split].
      * split; [discriminate|]. intros (_ & N & _). contradiction.
      * discriminate.
      * discriminate.
    + destruct (Py.int distributor_arg) as [d|]; simpl.
      * split; [split; discriminate|]. split; [|split].
        -- split; [discriminate|]. intros (_ & _ & N). discriminate.
        -- discriminate.
        -- discriminate.
      * split; [split; discriminate|]. split; [|split].
        -- split; [|reflexivity]. intros _. repeat split; [discriminate|exact E].
        -- intros exc [= <-]. now right.
        -- discriminate.
Qed.

Lemma upper_ascii_idem c : Py.upper_ascii (Py.upper_ascii c) = Py.upper_ascii c.
Proof. destruct c as [[] [] [] [] [] [] [] []]; reflexivity. Qed.

Lemma upper_idem s : Py.upper (Py.upper s) = Py.upper s.
Proof.
  induction s as [|c s IH]; simpl; [trivial|].
  now rewrite upper_ascii_idem, IH.
Qed.

(** X17.  The severity argument is read in upper case: two arguments that
    agree in upper case give the same outcome, as does an argument and its
    upper-case form.  An argument that is none of ALL, HIGH, MEDIUM and LOW
    in upper case is not rejected: the call returns the summary and an
    empty list. *)
Theorem severity_argument_is_read_in_upper_case (df : list RawRecord)
    (severity_arg distributor_arg state_arg : string) :
  (forall other,
     Py.upper other = Py.upper severity_arg ->
     get_alerts df other distributor_arg state_arg
     = get_alerts df severity_arg distributor_arg state_arg)
  /\ get_alerts df (Py.upper severity_arg) distributor_arg state_arg
     = get_alerts df severity_arg distributor_arg state_arg
  /\ (forall r,
        get_alerts df severity_arg distributor_arg state_arg
        = Py.Returned r ->
        ~ In (Py.upper severity_arg)
             ["ALL"; "HIGH"; "MEDIUM"; "LOW"]%string ->
        alerts r = []).
Proof.
  assert (H : forall other,
            Py.upper other = Py.upper severity_arg ->
            get_alerts df other distributor_arg state_arg
            = get_alerts df severity_arg distributor_arg state_arg).
  { intros other E. unfold get_alerts. now rewrite E. }
  split; [exact H|]. split; [apply H, upper_idem|].
  intros r Hr Hn. rewrite (response_alerts _ _ _ _ _ Hr).
  destruct (filter _ _) as [|a l] eqn:E; [reflexivity|exfalso].
  assert (Ha : In a (filter (passes severity_arg distributor_arg state_arg)
                            (deduplicate (raise_alerts df))))
    by (rewrite E; now left).
  apply filter_In, proj2, passes_iff, proj1 in Ha.
  apply Hn. simpl. destruct Ha as [<-|<-]; [auto|].
  destruct (severity a); simpl; auto.
Qed.

(** ** The distributor argument: the text of an integer *)

Ltac eval_digit :=
  match goal with
  | |- context [Py.digit_of ?c] =>
      let v := eval vm_compute in (Py.digit_of c) in
      change (Py.digit_of c) with v
  end.

Lemma digits_acc (u : Decimal.uint) (acc : positive) :
  Py.digits (Some (Z.pos acc)) false (NilEmpty.string_of_uint u)
  = Some (Z.pos (Pos.of_uint_acc u acc)).
Proof.
  revert acc.
  induction u as [|u IH|u IH|u IH|u IH|u IH|u IH|u IH|u IH|u IH|u IH];
    intros acc; [reflexivity|..];
    cbn [NilEmpty.string_of_uint Pos.of_uint_acc Py.digits];
    eval_digit; cbv iota; rewrite <- IH; do 2 f_equal; lia.
Qed.

Lemma digits_zero (u : Decimal.uint) :
  Py.digits (Some 0%Z) false (NilEmpty.string_of_uint u)
  = Some (Z.of_N (Pos.of_uint u)).
Proof.
  induction u as [|u IH|u IH|u IH|u IH|u IH|u IH|u IH|u IH|u IH|u IH];
    [reflexivity|exact IH|..];
    cbn [NilEmpty.string_of_uint Pos.of_uint];
    apply (digits_acc u).
Qed.

Lemma digits_none (u : Decimal.uint) :
  u <> Decimal.Nil ->
  Py.digits None false (NilEmpty.string_of_uint u)
  = Some (Z.of_N (Pos.of_uint u)).
Proof.
  destruct u; intros H; [contradiction|apply (digits_zero u)|..];
    apply (digits_acc u).
Qed.

(** Text without white space is left as it is by [strip]. *)
Lemma lstrip_blank_free s :
  Forall (fun c => Py.is_space c = false) (list_ascii_of_string s) ->
  Py.lstrip s = s.
Proof.
  destruct s as [|c s]; simpl; [trivial|].
  intros H. inversion H as [|? ? Hc _]; subst. now rewrite Hc.
Qed.

Lemma strip_blank_free s :
  Forall (fun c => Py.is_space c = false) (list_ascii_of_string s) ->
  Py.strip s = s.
Proof.
  intros H. unfold Py.strip. rewrite (lstrip_blank_free s H).
  rewrite lstrip_blank_free.
  - unfold Py.rev_string.
    rewrite list_ascii_of_string_of_list_ascii, rev_involutive.
    apply string_of_list_ascii_of_string.
  - unfold Py.rev_string. rewrite list_ascii_of_string_of_list_ascii.
    apply Forall_rev, H.
Qed.

Lemma numeral_blank_free (u : Decimal.uint) :
  Forall (fun c => Py.is_space c = false)
         (list_ascii_of_string (NilEmpty.string_of_uint u)).
Proof.
  induction u; simpl; constructor; trivial.
Qed.

Lemma numeral_of_positive p :
  NilZero.string_of_uint (Pos.to_uint p)
  = NilEmpty.string_of_uint (Pos.to_uint p)
  /\ Py.digits None false (NilEmpty.string_of_uint (Pos.to_uint p))
     = Some (Z.pos p)
  /\ exists c rest,
       NilEmpty.string_of_uint (Pos.to_uint p) = String c rest
       /\ Py.digit_of c <> None.
Proof.
  pose proof (DecimalPos.Unsigned.to_uint_nonnil p) as Hn.
  pose proof (DecimalPos.Unsigned.of_to p) as Hp.
  split; [|split].
  - destruct (Pos.to_uint p); [contradiction|reflexivity..].
  - rewrite digits_none by exact Hn. now rewrite Hp.
  - destruct (Pos.to_uint p); [contradiction|..];
      simpl; eexists; eexists; (split; [reflexivity|discriminate]).
Qed.

(** [int(str(n)) == n]. *)
Lemma int_str (n : Z) : Py.int (Py.str n) = Some n.
Proof.
  unfold Py.str. destruct n as [|p|p]; [reflexivity|..];
    cbn [Z.to_int NilZero.string_of_int];
    destruct (numeral_of_positive p) as (E & Hd & c & rest & Hs & Hc);
    rewrite E; unfold Py.int.
  - rewrite strip_blank_free by apply numeral_blank_free.
    rewrite <- Hd. rewrite Hs.
    destruct c as [[] [] [] [] [] [] [] []]; try reflexivity;
      now contradiction Hc.
  - rewrite strip_blank_free.
    + now rewrite Hd.
    + simpl. constructor; [reflexivity|apply numeral_blank_free].
Qed.

Lemma str_first_character (n : Z) :
  exists c rest, Py.str n = String c rest
                 /\ (c = "-"%char \/ Py.digit_of c <> None).
Proof.
  unfold Py.str. destruct n as [|p|p]; cbn [Z.to_int NilZero.string_of_int].
  - exists "0"%char, ""%string. split; [reflexivity|right; discriminate].
  - destruct (numeral_of_positive p) as (E & _ & c & rest & Hs & Hc).
    rewrite E, Hs. eauto.
  - eexists; eexists. split; [reflexivity|now left].
Qed.

Lemma str_not_all (n : Z) : Py.str n <> "ALL"%string.
Proof.
  destruct (str_first_character n) as (c & rest & E & [->|Hc]);
    rewrite E; [discriminate|].
  intros [= -> _]. now apply Hc.
Qed.

(** X18.  The text of an integer is read back by [int] as that integer, so
    a call with the text of a distributor id as its distributor argument
    returns alerts of that distributor only, and at most one. *)
Theorem distributor_argument_selects_one_distributor (df : list RawRecord)
    (severity_arg state_arg : string) (d : Z) (r : AlertsResponse) :
  get_alerts df severity_arg (Py.str d) state_arg = Py.Returned r ->
  Py.int (Py.str d) = Some d
  /\ (forall a, In a (alerts r) -> distributor_id a = d)
  /\ (List.length (alerts r) <= 1)%nat.
Proof.
  intros H. split; [apply int_str|].
  pose proof (response_alerts _ _ _ _ _ H) as E.
  assert (Hid : forall a, In a (alerts r) -> distributor_id a = d).
  { intros a Ha. rewrite E in Ha. apply filter_In, proj2, passes_iff in Ha.
    destruct Ha as (_ & [Hall|Hd] & _).
    - now apply str_not_all in Hall.
    - rewrite int_str in Hd. now injection Hd. }
  split; [exact Hid|].
  assert (Hnd : NoDup (map distributor_id (alerts r)))
    by (rewrite E; apply nodup_map_filter, deduplicate_nodup).
  destruct (alerts r) as [|a [|b l]]; simpl; try lia.
  exfalso. simpl in Hnd. inversion Hnd as [|? ? Hx _]; subst.
  apply Hx. left.
  rewrite (Hid a) by now left. rewrite (Hid b) by (right; now left).
  reflexivity.
Qed.

Lemma distributor_argument_selects_one_distributor_witness :
  exists r,
    get_alerts Samples.alerting "ALL" (Py.str 101) "ALL" = Py.Returned r
    /\ (List.length (alerts r) <= 1)%nat.
Proof.
  destruct (get_alerts Samples.alerting "ALL" (Py.str 101) "ALL")
    as [r| |] eqn:E; try (vm_compute in E; discriminate E).
  exists r. split; [reflexivity|].
  apply (distributor_argument_selects_one_distributor
           Samples.alerting "ALL" "ALL" 101 r E).
Defined.

(** ** The correlation end point: shape and buckets *)

Import CorrelationRouter.

(** X19.  The correlation end point answers 400 exactly when the frame has
    fewer than two numeric columns.  With two or more, of distinct labels,
    it returns; and whenever it returns, the features are the labels of the
    numeric columns in the order of the frame, and the matrix is square with
    one row and one column for every feature. *)
Theorem correlation_analysis_shape (df : list Column) :
  let numeric_df := filter is_numeric df in
  (correlation_analysis df
   = Py.HTTPException 400 "Not enough numeric features"
   <-> (List.length numeric_df < 2)%nat)
  /\ ((2 <= List.length numeric_df)%nat -> NoDup (map label numeric_df) ->
      exists a, correlation_analysis df = Py.Returned a)
  /\ (forall a,
        correlation_analysis df = Py.Returned a ->
        features a = map label numeric_df
        /\ List.length (matrix a) = List.length (features a)
        /\ forall row, In row (matrix a) ->
             List.length row = List.length (features a)).
Proof.
  intros numeric_df. split; [|split].
  - unfold correlation_analysis. fold numeric_df.
    destruct (Nat.ltb_spec (List.length numeric_df) 2) as [H|H].
    + split; [intros _; exact H|reflexivity].
    + split; [|lia].
      destruct (relationships _ _); discriminate.
  - apply correlation_analysis_returns.
  - intros a H.
    destruct (correlation_analysis_returned df a H) as (_ & Hf & Hm & _).
    fold numeric_df in Hf, Hm. rewrite Hf, Hm, length_map.
    split; [reflexivity|]. split; [apply corr_length|].
    intros row Hrow. apply (corr_row_length _ _ Hrow).
Qed.

Lemma leb_nan_r x y : is_nan y = true -> (x <=? y) = false.
Proof.
  rewrite is_nan_spec, leb_spec. unfold SFleb.
  rewrite (SFcompare_antisym (Prim2SF y) (Prim2SF x)).
  intros H. now rewrite (SFcompare_nan_l _ _ H).
Qed.

Lemma leb_nan_l x y : is_nan x = true -> (x <=? y) = false.
Proof.
  rewrite is_nan_spec, leb_spec. unfold SFleb.
  intros H. now rewrite (SFcompare_nan_l _ _ H).
Qed.

Lemma abs_nan x : is_nan x = true -> is_nan (abs x) = true.
Proof.
  rewrite !is_nan_spec, abs_spec.
  destruct (Prim2SF x); simpl; trivial; discriminate.
Qed.

(** A coefficient of -0.4 or below has a magnitude of 0.4 or above. *)
Lemma abs_of_inverse x : (x <=? -0.4) = true -> (0.4 <=? abs x) = true.
Proof.
  rewrite !leb_spec, abs_spec. unfold SFleb.
  replace (Prim2SF (-0.4)) with (SFopp (Prim2SF 0.4)) by reflexivity.
  destruct (Prim2SF 0.4) as [c|c| |c n f] eqn:E; try discriminate E.
  assert (Hc : c = false) by (vm_compute in E; now injection E).
  subst c. clear E.
  destruct (Prim2SF x) as [b|b| |b m e]; simpl; try discriminate.
  - destruct b; [reflexivity|discriminate].
  - destruct b; simpl; [|discriminate].
    rewrite (Z.compare_antisym e f).
    destruct (e ?= f)%Z; simpl; try discriminate; try reflexivity.
    rewrite (Pos.compare_cont_antisym m n Eq). simpl. trivial.
Qed.

Lemma in_head5 {A} (x : A) l : In x (head5 l) -> In x l.
Proof.
  unfold head5. intros H. rewrite <- (firstn_skipn 5 l).
  apply in_or_app. now left.
Qed.

Lemma head5_length {A} (l : list A) : (List.length (head5 l) <= 5)%nat.
Proof. unfold head5. rewrite length_firstn. lia. Qed.

Lemma strong_not_moderate r : is_strong r = true -> is_moderate r = false.
Proof.
  unfold is_strong, is_moderate. intros H.
  destruct (is_nan (abs_value r)) eqn:N.
  - now rewrite (leb_nan_r _ _ N) in H.
  - rewrite (leb_negb_ltb 0.75 (abs_value r) eq_refl N) in H.
    apply negb_true_iff in H. rewrite H. apply andb_false_r.
Qed.

Lemma inverse_strong_or_moderate r :
  abs_value r = abs (value r) ->
  is_inverse r = true -> is_strong r || is_moderate r = true.
Proof.
  unfold is_inverse, is_strong, is_moderate. intros E H.
  apply abs_of_inverse in H. rewrite <- E in H. rewrite H. simpl.
  destruct (is_nan (abs_value r)) eqn:N.
  - now rewrite (leb_nan_r _ _ N) in H.
  - rewrite (leb_negb_ltb 0.75 (abs_value r) eq_refl N).
    now destruct (abs_value r <? 0.75).
Qed.

Lemma nan_fails_every_test r :
  abs_value r = abs (value r) -> isna (value r) = true ->
  is_strong r = false /\ is_moderate r = false /\ is_inverse r = false.
Proof.
  unfold isna, is_strong, is_moderate, is_inverse. intros E N.
  pose proof (abs_nan _ N) as Na. rewrite <- E in Na.
  rewrite (leb_nan_r 0.75 _ Na), (leb_nan_r 0.4 _ Na), (leb_nan_l _ (-0.4) N).
  auto.
Qed.

(** X20.  How the three buckets relate.  Every member of a bucket is one of
    the flattened relationships and passes the test of its bucket; a strong
    member is never moderate and a moderate one never strong; every inverse
    member is also strong or moderate by magnitude; a relationship whose
    coefficient is NaN is in no bucket; and no bucket has more than five
    members. *)
Theorem buckets_relate (df : list Column) (a : Analysis) :
  correlation_analysis df = Py.Returned a ->
  let pool := relationships (features a) (matrix a) in
  (forall r, In r (strong a) ->
     In r pool /\ is_strong r = true /\ is_moderate r = false)
  /\ (forall r, In r (moderate a) ->
        In r pool /\ is_moderate r = true /\ is_strong r = false)
  /\ (forall r, In r (inverse a) ->
        In r pool /\ is_inverse r = true
        /\ is_strong r || is_moderate r = true)
  /\ (forall r, In r pool -> isna (value r) = true ->
        ~ In r (strong a) /\ ~ In r (moderate a) /\ ~ In r (inverse a))
  /\ (List.length (strong a) <= 5)%nat
  /\ (List.length (moderate a) <= 5)%nat
  /\ (List.length (inverse a) <= 5)%nat.
Proof.
  intros H pool.
  destruct (correlation_analysis_returned df a H)
    as (_ & _ & _ & Hs & Hm & Hi).
  fold pool in Hs, Hm, Hi.
  assert (S : forall r, In r (strong a) -> In r pool /\ is_strong r = true).
  { intros r Hr. rewrite Hs in Hr. now apply in_head5, filter_In in Hr. }
  assert (M : forall r, In r (moderate a) ->
                        In r pool /\ is_moderate r = true).
  { intros r Hr. rewrite Hm in Hr. now apply in_head5, filter_In in Hr. }
  assert (I : forall r, In r (inverse a) -> In r pool /\ is_inverse r = true).
  { intros r Hr. rewrite Hi in Hr. now apply in_head5, filter_In in Hr. }
  split; [|split; [|split; [|split; [|split; [|split]]]]].
  - intros r Hr. destruct (S r Hr) as [Hp Ht].
    auto using strong_not_moderate.
  - intros r Hr. destruct (M r Hr) as [Hp Ht]. repeat split; trivial.
    destruct (is_strong r) eqn:E; [|reflexivity].
    rewrite (strong_not_moderate r E) in Ht. discriminate.
  - intros r Hr. destruct (I r Hr) as [Hp Ht]. repeat split; trivial.
    apply inverse_strong_or_moderate; [|exact Ht].
    apply (relationships_values _ _ _ Hp).
  - intros r Hp N.
    destruct (nan_fails_every_test r) as (Ns & Nm & Ni);
      [apply (relationships_values _ _ _ Hp)|exact N|].
    repeat split; intros Hr.
    + apply S, proj2 in Hr. congruence.
    + apply M, proj2 in Hr. congruence.
    + apply I, proj2 in Hr. congruence.
  - rewrite Hs. apply head5_length.
  - rewrite Hm. apply head5_length.
  - rewrite Hi. apply head5_length.
Qed.

Lemma buckets_relate_witness :
  (List.length (strong Samples.correlated_analysis) <= 5)%nat
  /\ forall r, In r (strong Samples.correlated_analysis) ->
               is_moderate r = false.
Proof.
  destruct (buckets_relate Samples.correlated Samples.correlated_analysis
              eq_refl) as (S & _ & _ & _ & L & _).
  split; [exact L|]. intros r Hr. apply (S r Hr).
Defined.

(** ** Rankings *)

Import Ranking.

Lemma leb_not_nan x y :
  (x <=? y) = true -> is_nan x = false /\ is_nan y = false.
Proof.
  intros H. split.
  - destruct (is_nan x) eqn:N; [|reflexivity].
    now rewrite (leb_nan_l _ _ N) in H.
  - destruct (is_nan y) eqn:N; [|reflexivity].
    now rewrite (leb_nan_r _ _ N) in H.
Qed.

Lemma leb_total x y :
  is_nan x = false -> is_nan y = false ->
  (x <=? y) = false -> (y <=? x) = true.
Proof.
  intros Nx Ny H. rewrite (leb_negb_ltb x y Nx Ny) in H.
  apply negb_false_iff in H. now apply ltb_leb.
Qed.

Lemma leb_trans x y z :
  (x <=? y) = true -> (y <=? z) = true -> (x <=? z) = true.
Proof.
  intros H1 H2.
  destruct (leb_not_nan _ _ H1) as [Nx Ny].
  destruct (leb_not_nan _ _ H2) as [_ Nz].
  destruct (x <=? z) eqn:E; [reflexivity|].
  rewrite (leb_negb_ltb x z Nx Nz) in E. apply negb_false_iff in E.
  pose proof (lt_le_trans _ _ _ E H1) as C.
  rewrite (leb_negb_ltb y z Ny Nz) in H2. now rewrite C in H2.
Qed.

Lemma before_total a b : before a b = false -> before b a = true.
Proof.
  unfold before.
  destruct (is_nan b) eqn:Nb; [discriminate|].
  destruct (is_nan a) eqn:Na; [reflexivity|].
  apply leb_total; assumption.
Qed.

Lemma before_trans a b c :
  before a b = true -> before b c = true -> before a c = true.
Proof.
  unfold before.
  destruct (is_nan c) eqn:Nc; [reflexivity|].
  destruct (is_nan b) eqn:Nb; [discriminate|].
  destruct (is_nan a) eqn:Na; [discriminate|].
  intros H1 H2. eapply leb_trans; eassumption.
Qed.

Lemma le_of_desc_cmp a b : le_of (desc_cmp a b) = before a b.
Proof.
  unfold desc_cmp. destruct (before a b); [|reflexivity].
  now destruct (before b a).
Qed.

(** What [before] says in plain comparisons. *)
Lemma before_spec a b :
  before a b = true ->
  (a <? b) = false /\ (is_nan a = true -> is_nan b = true).
Proof.
  unfold before. destruct (is_nan b) eqn:Nb.
  - intros _. split; [|reflexivity].
    rewrite ltb_spec. unfold SFltb.
    rewrite (SFcompare_antisym (Prim2SF b) (Prim2SF a)).
    rewrite is_nan_spec in Nb. now rewrite (SFcompare_nan_l _ _ Nb).
  - destruct (is_nan a) eqn:Na; [discriminate|].
    intros H. split; [|discriminate].
    rewrite (leb_negb_ltb b a Nb Na) in H. now apply negb_true_iff in H.
Qed.

Section SortDesc.
Context {A : Type} (key : A -> float).
Let precedes (a b : A) : Prop := before (key a) (key b) = true.

Lemma insert_last_desc x l :
  StronglySorted precedes l ->
  StronglySorted precedes
    (insert_last (fun a b => desc_cmp (key a) (key b)) x l).
Proof.
  induction 1 as [|y l Hl IH Hy]; simpl; [repeat constructor|].
  rewrite le_of_desc_cmp. destruct (before (key y) (key x)) eqn:E.
  - constructor; [exact IH|].
    rewrite Forall_forall in *. intros z Hz.
    apply (Permutation_in _ (insert_last_perm _ x l)) in Hz.
    destruct Hz as [<-|Hz]; [exact E|auto].
  - apply before_total in E.
    constructor; [now constructor|].
    constructor; [exact E|].
    rewrite Forall_forall in *. intros z Hz.
    eapply before_trans; [exact E|]. apply Hy, Hz.
Qed.

Lemma sort_desc_sorted l : StronglySorted precedes (sort_desc key l).
Proof.
  unfold sort_desc, stable_sort.
  assert (H : forall acc, StronglySorted precedes acc ->
            StronglySorted precedes
              (fold_left
                 (fun acc x =>
                    insert_last (fun a b => desc_cmp (key a) (key b)) x acc)
                 l acc)).
  { induction l as [|x l IH]; intros acc Hacc; simpl; [exact Hacc|].
    apply IH, insert_last_desc, Hacc. }
  apply H. constructor.
Qed.

Lemma sort_desc_perm l : Permutation (sort_desc key l) l.
Proof. apply stable_sort_perm. Qed.

(** In a sorted list every member of the first [n] precedes every member
    of the rest. *)
Lemma head_precedes_rest n l x y :
  StronglySorted precedes l ->
  In x (head n l) -> In y (skipn n l) -> precedes x y.
Proof.
  unfold head. intros S. revert n.
  induction S as [|z l Sl IH Hz]; intros n Hx Hy.
  - destruct n; contradiction.
  - destruct n as [|n]; [contradiction|]. simpl in Hx, Hy.
    destruct Hx as [<-|Hx].
    + rewrite Forall_forall in Hz. apply Hz.
      rewrite <- (firstn_skipn n l). apply in_or_app. now right.
    + eapply IH; eassumption.
Qed.

Lemma head_sorted n l :
  StronglySorted precedes l -> StronglySorted precedes (head n l).
Proof.
  unfold head. intros S. revert n.
  induction S as [|z l Sl IH Hz]; intros n; destruct n; simpl;
    try constructor; [apply IH|].
  rewrite Forall_forall in *. intros y Hy. apply Hz.
  rewrite <- (firstn_skipn n l). apply in_or_app. now left.
Qed.

(** The ranking of a column: the first [n] of the descending arrangement. *)
Lemma ranking n l :
  let chosen := head n (sort_desc key l) in
  List.length chosen = Nat.min n (List.length l)
  /\ (forall x, In x chosen -> In x l)
  /\ StronglySorted precedes chosen
  /\ forall x y, In x chosen -> In y l -> ~ In y chosen -> precedes x y.
Proof.
  intros chosen. unfold chosen. split; [|split; [|split]].
  - unfold head. rewrite length_firstn.
    now rewrite (Permutation_length (sort_desc_perm l)).
  - intros x Hx. apply (Permutation_in _ (sort_desc_perm l)).
    unfold head in Hx. rewrite <- (firstn_skipn n (sort_desc key l)).
    apply in_or_app. now left.
  - apply head_sorted, sort_desc_sorted.
  - intros x y Hx Hy Hn.
    apply (head_precedes_rest n (sort_desc key l)); trivial.
    + apply sort_desc_sorted.
    + apply (Permutation_in _ (Permutation_sym (sort_desc_perm l))) in Hy.
      rewrite <- (firstn_skipn n (sort_desc key l)) in Hy.
      apply in_app_or in Hy. destruct Hy as [Hy|Hy]; [contradiction|exact Hy].
Qed.
End SortDesc.

(** X21.  The top-risky end point returns the entries of at most five rows
    of the table (all of them when the table has five or fewer), in
    descending order of [pct_from_limit]; no row left out has a larger
    [pct_from_limit] than a row returned, and a row without one (NaN) is
    returned only when every row left out has none either. *)
Theorem top_risky_are_the_largest (round1 : float -> float)
    (dq : list DQRow) :
  top_risky_distributors round1 dq = map (risky_entry round1) (top dq)
  /\ List.length (top_risky_distributors round1 dq)
     = Nat.min 5 (List.length dq)
  /\ (forall x, In x (top dq) -> In x dq)
  /\ StronglySorted
       (fun a b => (pct_from_limit a <? pct_from_limit b) = false)
       (top dq)
  /\ forall x y,
       In x (top dq) -> In y dq -> ~ In y (top dq) ->
       (pct_from_limit x <? pct_from_limit y) = false
       /\ (isna (pct_from_limit x) = true ->
           isna (pct_from_limit y) = true).
Proof.
  destruct (ranking pct_from_limit 5 dq) as (Hl & Hin & Hs & Hd).
  fold (top dq) in Hl, Hin, Hs, Hd.
  split; [reflexivity|]. split; [|split; [exact Hin|split]].
  - unfold top_risky_distributors. now rewrite length_map.
  - eapply StronglySorted_weaken; [|exact Hs].
    intros a b _ _ H. apply (before_spec _ _ H).
  - intros x y Hx Hy Hn. apply before_spec. now apply Hd.
Qed.

(** ** Root causes *)

Import RootCause.

Lemma before_refl a : before a a = true.
Proof.
  unfold before. destruct (is_nan a) eqn:N; [reflexivity|].
  rewrite leb_spec. unfold SFleb. rewrite is_nan_spec in N.
  now rewrite (SFcompare_refl _ N).
Qed.

Lemma sorted_first_precedes_all {A} (key : A -> float) x l :
  StronglySorted (fun a b => before (key a) (key b) = true) (x :: l) ->
  forall y, In y (x :: l) -> before (key x) (key y) = true.
Proof.
  intros S y [<-|Hy]; [apply before_refl|].
  inversion S as [|? ? _ Hx]; subst.
  rewrite Forall_forall in Hx. now apply Hx.
Qed.

Lemma head_cons {A} n (l : list A) x rest :
  head n l = x :: rest -> exists l', l = x :: l'.
Proof.
  unfold head. destruct n, l as [|z l]; simpl; try discriminate.
  intros [= -> _]. eauto.
Qed.

(** X22.  The root-cause end point answers 400 when no model was trained
    and when the SHAP records are missing or empty; on one record or more
    it returns (the first factor it reads always exists), with
    min(5, n) top factors and min(2, n - 1) secondary drivers, and the
    primary cause is the feature of a record whose contribution no record
    exceeds, a record without a contribution (NaN) being primary only when
    no record has one. *)
Theorem root_cause_outcomes (series_sum : list float -> float)
    (model_lab : option (option (list Shap))) :
  let outcome := root_cause_analysis series_sum model_lab in
  (model_lab = None ->
   outcome = Py.HTTPException 400 "Model not trained yet")
  /\ (model_lab = Some None \/ model_lab = Some (Some []) ->
      outcome = Py.HTTPException 400 "SHAP data not available")
  /\ (forall shap,
        model_lab = Some (Some shap) -> shap <> [] ->
        let contribution s :=
          importance s / series_sum (map importance shap) * 100 in
        exists resp,
          outcome = Py.Returned resp
          /\ List.length (top_factors resp)
             = Nat.min 5 (List.length shap)
          /\ List.length (secondary_drivers resp)
             = Nat.min 2 (List.length shap - 1)
          /\ exists s,
               In s shap
               /\ driver_feature (primary_cause resp) = feature s
               /\ forall s', In s' shap ->
                    (contribution s <? contribution s') = false
                    /\ (isna (contribution s) = true ->
                        isna (contribution s') = true)).
Proof.
  intros outcome. unfold outcome. split; [now intros ->|]. split.
  - now intros [->| ->].
  - intros shap -> Hne.
    pose (contribution := fun s : Shap =>
            importance s / series_sum (map importance shap) * 100).
    assert (Hout : root_cause_analysis series_sum (Some (Some shap))
                   = match factors series_sum shap with
                     | [] => Py.Raised "IndexError"
                     | primary :: rest =>
                         Py.Returned
                           (mkResponse (primary :: rest)
                              (mkDriver (factor_feature primary)
                                 "Primary driver based on highest model contribution")
                              (map (fun f => mkDriver (factor_feature f)
                                 "Secondary contributor to inventory loss")
                                 (firstn 2 rest))
                              [ "Improve return handling for top-risk distributors";
                                "Optimize delivery quantities using demand signals";
                                "Reduce storage duration for slow-moving inventory" ]%string)
                     end).
    { destruct shap; [contradiction|reflexivity]. }
    rewrite Hout. clear Hout. unfold factors.
    set (frame := with_contribution series_sum shap).
    assert (Hframe : forall s c, In (s, c) frame <->
                                 In s shap /\ c = contribution s).
    { intros s c. unfold frame, with_contribution. rewrite in_map_iff.
      split.
      - intros [s' [[= <- <-] Hs]]. auto.
      - intros [Hs ->]. exists s. auto. }
    assert (Hlen : List.length frame = List.length shap)
      by (unfold frame, with_contribution; apply length_map).
    destruct (ranking (@snd Shap float) 5 frame) as (Hl & Hin & Hs & _).
    pose proof (sort_desc_sorted (@snd Shap float) frame) as Hsorted.
    pose proof (sort_desc_perm (@snd Shap float) frame) as Hperm.
    destruct (head 5 (sort_desc snd frame)) as [|[s0 c0] rest] eqn:E.
    { exfalso. simpl in Hl. rewrite Hlen in Hl.
      destruct shap; [contradiction|simpl in Hl; lia]. }
    cbn [map]. eexists. split; [reflexivity|].
    cbn [top_factors secondary_drivers primary_cause driver_feature
         factor_feature fst].
    rewrite Hlen in Hl. cbn [List.length] in Hl. split; [|split].
    + cbn [List.length]. now rewrite length_map.
    + rewrite length_map, length_firstn, length_map. lia.
    + assert (H0 : In (s0, c0) frame) by (apply Hin; now left).
      apply Hframe in H0. destruct H0 as [Hs0 ->].
      exists s0. split; [exact Hs0|]. split; [reflexivity|].
      intros s' Hs'.
      apply (before_spec (contribution s0) (contribution s')).
      destruct (head_cons _ _ _ _ E) as [l' El].
      rewrite El in Hsorted.
      apply (sorted_first_precedes_all (@snd Shap float) _ _ Hsorted
               (s', contribution s')).
      rewrite <- El.
      apply (Permutation_in _ (Permutation_sym Hperm)).
      apply Hframe. auto.
Qed.

Lemma root_cause_outcomes_example :
  exists resp,
    root_cause_analysis group_sum
      (Some (Some [ mkShap "Deliveries_Quantity" 3;
                    mkShap "Waste_Allowance_Quantity" 1 ]))
    = Py.Returned resp
    /\ driver_feature (primary_cause resp) = "Deliveries_Quantity"%string
    /\ map contribution_pct (top_factors resp) = [75; 25].
Proof. eexists. split; [vm_compute; reflexivity|]. split; reflexivity. Qed.

(** ** The status of a distributor in the inventory table *)

(** The text the status map gives for every value of [pct_from_limit]. *)
Lemma status_cases (pct : float) :
  (Inventory.status pct = "Exceeded"%string <-> (120 <=? pct) = true)
  /\ (Inventory.status pct = "At Risk"%string
      <-> (100 <=? pct) = true /\ (120 <=? pct) = false)
  /\ (Inventory.status pct = "OK"%string <-> (100 <=? pct) = false)
  /\ In (Inventory.status pct) ["Exceeded"; "At Risk"; "OK"]%string.
Proof.
  unfold Inventory.status, Inventory.risk_status, distributor_status, isna.
  assert (T : (120 <=? pct) = true -> (100 <=? pct) = true).
  { apply leb_trans. reflexivity. }
  destruct (is_nan pct) eqn:N; simpl.
  - rewrite (leb_nan_r 120 pct N), (leb_nan_r 100 pct N).
    repeat split; try discriminate; auto.
    intros [C _]. discriminate C.
  - destruct (120 <=? pct) eqn:E1; simpl.
    + rewrite (T eq_refl).
      repeat split; try discriminate; auto.
      intros [_ C]. discriminate C.
    + destruct (100 <=? pct) eqn:E2; simpl.
      * repeat split; try discriminate; auto.
      * destruct (pct <? 80); simpl;
          repeat split; try discriminate; auto;
          intros [C _]; discriminate C.
Qed.

(** X23.  The status shown for a distributor depends on [pct_from_limit]
    alone: "Exceeded" exactly from 120 on, "At Risk" exactly from 100 up to
    120, "OK" in every other case, a missing value (NaN) included; no other
    text occurs. *)
Theorem inventory_status_by_pct_from_limit (pct : float) :
  (Inventory.status pct = "Exceeded"%string <-> (120 <=? pct) = true)
  /\ (Inventory.status pct = "At Risk"%string
      <-> (100 <=? pct) = true /\ (120 <=? pct) = false)
  /\ (Inventory.status pct = "OK"%string <-> (100 <=? pct) = false)
  /\ In (Inventory.status pct) ["Exceeded"; "At Risk"; "OK"]%string.
Proof. exact (status_cases pct). Qed.

Lemma positive_cases x :
  (0 <? x) = true ->
  Prim2SF x = S754_infinity false
  \/ exists m e, Prim2SF x = S754_finite false m e.
Proof.
  rewrite ltb_spec. unfold SFltb.
  replace (Prim2SF 0) with (S754_zero false) by reflexivity.
  destruct (Prim2SF x) as [b|b| |b m e]; simpl; try discriminate.
  - destruct b; [discriminate|auto].
  - destruct b; [discriminate|eauto].
Qed.

Lemma zero_cases x :
  (x =? 0) = true -> exists s, Prim2SF x = S754_zero s.
Proof.
  rewrite eqb_spec. unfold SFeqb.
  replace (Prim2SF 0) with (S754_zero false) by reflexivity.
  destruct (Prim2SF x) as [b|b| |b m e]; simpl; try discriminate.
  - eauto.
  - destruct b; discriminate.
  - destruct b; discriminate.
Qed.

Lemma infinite_pct p :
  Prim2SF p = S754_infinity false ->
  is_nan p = false /\ (120 <=? p) = true.
Proof.
  intros E. rewrite is_nan_spec, leb_spec, E. split; reflexivity.
Qed.

(** X24.  The division by the allowance is not guarded when the median
    allowance is zero as well: a distributor whose allowance sums to zero
    then gets an infinite utilization and an infinite [pct_from_limit] as
    soon as it has any waste, and with them the status "Exceeded". *)
Theorem zero_allowance_with_zero_median_is_exceeded
    (allowance actual_waste : float) :
  (allowance =? 0) = true -> (0 <? actual_waste) = true ->
  Inventory.utilization_pct allowance actual_waste 0 = infinity
  /\ Inventory.pct_from_limit allowance actual_waste 0 = infinity
  /\ Inventory.status (Inventory.pct_from_limit allowance actual_waste 0)
     = "Exceeded"%string.
Proof.
  intros Ha Hw.
  destruct (zero_cases _ Ha) as [s Ea].
  assert (Eu : Prim2SF (Inventory.utilization_pct allowance actual_waste 0)
               = S754_infinity false).
  { unfold Inventory.utilization_pct, Inventory.replace0. rewrite Ha.
    rewrite mul_spec, div_spec.
    replace (Prim2SF 0) with (S754_zero false) by reflexivity.
    replace (Prim2SF 100) with (S754_finite false 7036874417766400 (-46))
      by reflexivity.
    destruct (positive_cases _ Hw) as [E|[m [e E]]]; rewrite E; reflexivity. }
  assert (Ep : Prim2SF (Inventory.pct_from_limit allowance actual_waste 0)
               = S754_infinity false).
  { unfold Inventory.pct_from_limit, Inventory.replace0. rewrite Ha.
    rewrite mul_spec, div_spec, sub_spec, Ea.
    replace (Prim2SF 0) with (S754_zero false) by reflexivity.
    replace (Prim2SF 100) with (S754_finite false 7036874417766400 (-46))
      by reflexivity.
    destruct (positive_cases _ Hw) as [E|[m [e E]]]; rewrite E; reflexivity. }
  assert (Inj : forall x, Prim2SF x = S754_infinity false -> x = infinity).
  { intros x E. apply Prim2SF_inj. rewrite E. reflexivity. }
  split; [apply Inj, Eu|]. split; [apply Inj, Ep|].
  apply status_cases. apply (infinite_pct _ Ep).
Qed.

Lemma zero_allowance_with_zero_median_is_exceeded_witness :
  Inventory.utilization_pct 0 5 0 = infinity
  /\ Inventory.status (Inventory.pct_from_limit 0 5 0) = "Exceeded"%string.
Proof.
  destruct (zero_allowance_with_zero_median_is_exceeded 0 5 eq_refl eq_refl)
    as (Hu & _ & Hs).
  split; [exact Hu|exact Hs].
Defined.
